(** * youtube-adInsights: the ad-insight analysis engine of [src/services/youtube.js]

    A shallow embedding of the analysis functions of the service
    ([detectSponsorship], [extractBrands], [convertTimestampToSeconds],
    [calculateEngagementMetrics], [analyzeCommentSentiment],
    [analyzeVideoContent], [calculateAdEffectiveness],
    [generateAdInsightsReport], [generateChannelAdInsights]) and the
    properties of the specification that are about them; then the
    functions that fetch and store videos, the handlers of
    [src/unnamed/part_001] that call the service, and further properties
    of the code.

    Conventions of the embedding.
    - A JavaScript string is the list of its UTF-16 code units ([N]).
    - The numbers of the timestamp code are integers or [NaN]; they are
      kept as [Z] (exact for every value below 2^53; [-0] is [0]).
    - The numbers of the engagement, sentiment and effectiveness code are
      finite and kept as exact rationals ([Q]): rounding of the binary64
      operations is not modelled, [NaN] is written out where the code can
      meet it ([getSentiment]). [calculateEngagementMetrics] is given on
      binary64 numbers as well ([Binary64]), with the rounding of each
      operation, and what is said of its values is said of these.
    - [null] and [undefined] are [None] where the code does not tell them
      apart.
    - Calls to the video platform, the generative service and the store
      are functions on an abstract [World], threaded through the
      asynchronous functions in the order of their [await]s. *)

From Stdlib Require Import String Ascii.
From Stdlib Require Import List NArith ZArith QArith Qminmax Bool Lia Lqa.
From Stdlib Require Import SpecFloat.
Import ListNotations.

Set Implicit Arguments.

(** ** Strings *)

Module JS.

Definition codeunit := N.
Definition jsstring := list codeunit.

(** A literal of the source, code unit by code unit. *)
Definition str (s : string) : jsstring :=
  List.map N_of_ascii (list_ascii_of_string s).

Definition jsstring_eq_dec : forall a b : jsstring, {a = b} + {a <> b} :=
  list_eq_dec N.eq_dec.

Definition jsstring_eqb (a b : jsstring) : bool :=
  if jsstring_eq_dec a b then true else false.

Definition in_range (lo hi : N) (c : codeunit) : bool :=
  ((lo <=? c) && (c <=? hi))%N.

Definition one_of (l : list N) (c : codeunit) : bool := existsb (N.eqb c) l.

(** [\d], [[A-Z]], [[a-z]], [[A-Za-z0-9]] *)
Definition is_digit : codeunit -> bool := in_range 48 57.
Definition is_upper : codeunit -> bool := in_range 65 90.
Definition is_lower : codeunit -> bool := in_range 97 122.
Definition is_alnum (c : codeunit) : bool := is_upper c || is_lower c || is_digit c.

(** [\s], and the white space [trim] and [parseInt] strip: WhiteSpace and
    LineTerminator of ECMAScript. *)
Definition is_space (c : codeunit) : bool :=
  one_of [9; 10; 11; 12; 13; 32; 160; 5760; 8232; 8233; 8239; 8287; 12288; 65279]%N c
  || in_range 8192 8202 c.

(** Canonicalize of a regular expression with the [i] flag and without the
    [u] flag, on the code units that can equal an ASCII letter: a code unit
    outside ASCII never canonicalizes into ASCII. *)
Definition ascii_upper (c : codeunit) : codeunit :=
  if is_lower c then (c - 32)%N else c.

Definition ascii_lower (c : codeunit) : codeunit :=
  if is_upper c then (c + 32)%N else c.

(** [String.prototype.toLowerCase] restricted to Basic Latin; the functions
    below take the host's [toLowerCase] as a parameter, this one runs them
    on ASCII text. *)
Definition toLowerCase_basic (s : jsstring) : jsstring := List.map ascii_lower s.

Fixpoint startsWith (s p : jsstring) : bool :=
  match p, s with
  | [], _ => true
  | _ :: _, [] => false
  | a :: p', b :: s' => N.eqb a b && startsWith s' p'
  end.

(** [s.includes(sub)] *)
Fixpoint includes (s sub : jsstring) : bool :=
  startsWith s sub ||
  match s with
  | [] => false
  | _ :: s' => includes s' sub
  end.

(** [arr.includes(x)] on an array of strings *)
Definition arr_includes (l : list jsstring) (x : jsstring) : bool :=
  existsb (jsstring_eqb x) l.

Fixpoint dropWhile (p : codeunit -> bool) (s : jsstring) : jsstring :=
  match s with
  | [] => []
  | c :: s' => if p c then dropWhile p s' else s
  end.

(** [s.trim()] *)
Definition trim (s : jsstring) : jsstring :=
  rev (dropWhile is_space (rev (dropWhile is_space s))).

(** [s.split(c)] for a one-character separator string. *)
Fixpoint split_on_aux (sep : codeunit) (s cur : jsstring) : list jsstring :=
  match s with
  | [] => [rev cur]
  | c :: s' =>
      if N.eqb c sep then rev cur :: split_on_aux sep s' []
      else split_on_aux sep s' (c :: cur)
  end.

Definition split_on (sep : codeunit) (s : jsstring) : list jsstring :=
  split_on_aux sep s [].

(** [s.split(/[...]+/)] for a character class: the pieces between the
    maximal runs of separators, with the empty piece before a leading run
    and after a trailing one; [inrun] says that the previous code unit was a
    separator. *)
Fixpoint split_runs_aux (sep : codeunit -> bool) (s cur : jsstring) (inrun : bool)
  : list jsstring :=
  match s with
  | [] => [rev cur]
  | c :: s' =>
      if sep c then
        if inrun then split_runs_aux sep s' [] true
        else rev cur :: split_runs_aux sep s' [] true
      else split_runs_aux sep s' (c :: cur) false
  end.

Definition split_runs (sep : codeunit -> bool) (s : jsstring) : list jsstring :=
  split_runs_aux sep s [] false.

(** [s.replace(/[...]/g, '')] for a character class. *)
Definition remove_all (p : codeunit -> bool) (s : jsstring) : jsstring :=
  filter (fun c => negb (p c)) s.

(** [[...new Set(arr)]]: first occurrences, in insertion order. *)
Fixpoint dedup_aux (seen l : list jsstring) : list jsstring :=
  match l with
  | [] => []
  | x :: l' =>
      if arr_includes seen x then dedup_aux seen l'
      else x :: dedup_aux (x :: seen) l'
  end.

Definition dedup (l : list jsstring) : list jsstring := dedup_aux [] l.

End JS.
Import JS.

(** ** Regular expressions

    A backtracking matcher in the style of the ECMAScript semantics: a
    matcher takes the rest of the input, the captures so far and a
    continuation; alternatives are tried left to right, [Star] is greedy
    and gives back one iteration at a time. *)

Module Regex.

Inductive regex : Type :=
| Chr (p : codeunit -> bool)
| Eps
| Seq (r1 r2 : regex)
| Alt (r1 r2 : regex)
| Star (r : regex)
| Group (n : nat) (r : regex).

Definition captures := list (nat * jsstring).
Definition outcome := option (jsstring * captures).

(** The iterations of a greedy [r*], for the matcher [body] of [r] and the
    continuation [k]: one more iteration is tried first, and only kept when
    it consumed something; the continuation is tried when that fails.
    [fuel] bounds the number of iterations; the length of the input is
    always enough, since each one consumes a code unit. *)
Section StarLoop.

Variable body : jsstring -> captures -> (jsstring -> captures -> outcome) -> outcome.
Variable k : jsstring -> captures -> outcome.

Fixpoint star_loop (fuel : nat) (s : jsstring) (caps : captures) : outcome :=
  match fuel with
  | O => k s caps
  | S fuel' =>
      match body s caps
              (fun s1 c1 =>
                 if (length s1 <? length s)%nat then star_loop fuel' s1 c1 else None)
      with
      | Some x => Some x
      | None => k s caps
      end
  end.

End StarLoop.

Fixpoint rmatch (r : regex) (s : jsstring) (caps : captures)
  (k : jsstring -> captures -> outcome) {struct r} : outcome :=
  match r with
  | Chr p =>
      match s with
      | c :: s' => if p c then k s' caps else None
      | [] => None
      end
  | Eps => k s caps
  | Seq r1 r2 => rmatch r1 s caps (fun s1 c1 => rmatch r2 s1 c1 k)
  | Alt r1 r2 =>
      match rmatch r1 s caps k with
      | Some x => Some x
      | None => rmatch r2 s caps k
      end
  | Star r1 => star_loop (rmatch r1) k (length s) s caps
  | Group n r1 =>
      rmatch r1 s caps
        (fun s1 c1 => k s1 ((n, firstn (length s - length s1) s) :: c1))
  end.

(** What one way of matching [r] consumes and captures:
    [derives r s caps s' caps'] when [r] can match a prefix of [s] and leave
    [s'], turning the captures [caps] into [caps']. *)
Inductive derives : regex -> jsstring -> captures -> jsstring -> captures -> Prop :=
| D_Chr p c s caps :
    p c = true -> derives (Chr p) (c :: s) caps s caps
| D_Eps s caps :
    derives Eps s caps s caps
| D_Seq r1 r2 s caps s1 c1 s2 c2 :
    derives r1 s caps s1 c1 -> derives r2 s1 c1 s2 c2 ->
    derives (Seq r1 r2) s caps s2 c2
| D_AltL r1 r2 s caps s1 c1 :
    derives r1 s caps s1 c1 -> derives (Alt r1 r2) s caps s1 c1
| D_AltR r1 r2 s caps s1 c1 :
    derives r2 s caps s1 c1 -> derives (Alt r1 r2) s caps s1 c1
| D_StarStop r s caps :
    derives (Star r) s caps s caps
| D_StarStep r s caps s1 c1 s2 c2 :
    derives r s caps s1 c1 -> (length s1 < length s)%nat ->
    derives (Star r) s1 c1 s2 c2 ->
    derives (Star r) s caps s2 c2
| D_Group n r s caps s1 c1 :
    derives r s caps s1 c1 ->
    derives (Group n r) s caps s1 ((n, firstn (length s - length s1) s) :: c1).

(** A pattern without capturing group. *)
Fixpoint groupless (r : regex) : bool :=
  match r with
  | Chr _ | Eps => true
  | Seq r1 r2 | Alt r1 r2 => groupless r1 && groupless r2
  | Star r1 => groupless r1
  | Group _ _ => false
  end.

Definition Plus (r : regex) : regex := Seq r (Star r).
Definition Opt (r : regex) : regex := Alt r Eps.

Fixpoint lit_with (eq : codeunit -> codeunit -> bool) (s : jsstring) : regex :=
  match s with
  | [] => Eps
  | c :: s' => Seq (Chr (eq c)) (lit_with eq s')
  end.

(** A literal, and a literal under the [i] flag. *)
Definition lit (s : string) : regex := lit_with N.eqb (str s).
Definition lit_i (s : string) : regex :=
  lit_with (fun p c => N.eqb (ascii_upper c) (ascii_upper p)) (str s).

Fixpoint group (n : nat) (caps : captures) : option jsstring :=
  match caps with
  | [] => None
  | (m, v) :: caps' => if Nat.eqb m n then Some v else group n caps'
  end.

Record match_result := MatchResult {
  matched : jsstring;
  groups : captures;
  rest : jsstring
}.

Definition match_here (r : regex) (s : jsstring) : option match_result :=
  match rmatch r s [] (fun s1 c1 => Some (s1, c1)) with
  | Some (s1, c1) =>
      Some (MatchResult (firstn (length s - length s1) s) c1 s1)
  | None => None
  end.

(** [s.match(r)] without the [g] flag: the leftmost match. *)
Fixpoint search (r : regex) (s : jsstring) : option match_result :=
  match match_here r s with
  | Some m => Some m
  | None =>
      match s with
      | [] => None
      | _ :: s' => search r s'
      end
  end.

(** [s.match(r)] with the [g] flag: the matched texts, left to right, each
    search resuming where the previous match ended (one further on after
    an empty match). *)
Fixpoint match_all_aux (fuel : nat) (r : regex) (s : jsstring) : list jsstring :=
  match fuel with
  | O => []
  | S fuel' =>
      match search r s with
      | None => []
      | Some m =>
          matched m ::
          match matched m, rest m with
          | [], [] => []
          | [], _ :: s' => match_all_aux fuel' r s'
          | _ :: _, s' => match_all_aux fuel' r s'
          end
      end
  end.

Definition match_all (r : regex) (s : jsstring) : option (list jsstring) :=
  match match_all_aux (S (length s)) r s with
  | [] => None
  | l => Some l
  end.

End Regex.
Import Regex.

(** ** Numbers of the timestamp code *)

Module Num.

(** A JavaScript number that is an integer, or [NaN]. *)
Inductive jsint : Type :=
| NaN
| Int (z : Z).

Definition lift2 (f : Z -> Z -> Z) (a b : jsint) : jsint :=
  match a, b with
  | Int x, Int y => Int (f x y)
  | _, _ => NaN
  end.

Definition mul := lift2 Z.mul.
Definition add := lift2 Z.add.
Definition sub := lift2 Z.sub.

(** [a > b]: false as soon as one side is [NaN]. *)
Definition gtb (a b : jsint) : bool :=
  match a, b with
  | Int x, Int y => (y <? x)%Z
  | _, _ => false
  end.

(** ToBoolean of a number: [NaN] and [0] are falsy. *)
Definition truthy (a : jsint) : bool :=
  match a with
  | NaN => false
  | Int z => negb (z =? 0)%Z
  end.

(** [a || 0] *)
Definition or_zero (a : jsint) : Z :=
  match a with
  | NaN => 0%Z
  | Int z => z
  end.

Definition is_negative (a : jsint) : bool :=
  match a with
  | NaN => false
  | Int z => (z <? 0)%Z
  end.

(** The value of a code unit as a digit: [0-9], then [a-z] and [A-Z] as 10
    to 35. *)
Definition digit_value (c : codeunit) : option N :=
  if is_digit c then Some (c - 48)%N
  else if is_lower c then Some (c - 87)%N
  else if is_upper c then Some (c - 55)%N
  else None.

(** The longest prefix of digits of radix [R], read as an integer; [None]
    when there is no digit. *)
Fixpoint digits_prefix (R : N) (s : jsstring) (acc : option N) : option N :=
  match s with
  | [] => acc
  | c :: s' =>
      match digit_value c with
      | Some d =>
          if (d <? R)%N then
            digits_prefix R s' (Some (match acc with Some a => a * R + d | None => d end)%N)
          else acc
      | None => acc
      end
  end.

(** The sign of [parseInt]: a leading [-] or [+] is removed. *)
Definition strip_sign (s : jsstring) : Z * jsstring :=
  match s with
  | 45%N :: t => ((-1)%Z, t)
  | 43%N :: t => (1%Z, t)
  | _ => (1%Z, s)
  end.

(** The rest after a leading [0x] or [0X]. *)
Definition strip_hex_prefix (s : jsstring) : option jsstring :=
  match s with
  | 48%N :: x :: t => if one_of [120; 88]%N x then Some t else None
  | _ => None
  end.

(** [parseInt(string, radix)], step by step as ECMAScript defines it;
    [radix = None] is a call without a radix. The argument is a string; a
    string is passed at each call. *)
Definition parseInt (s : jsstring) (radix : option N) : jsint :=
  let '(sign, unsigned) := strip_sign (dropWhile is_space s) in
  let R0 := match radix with Some R => R | None => 0%N end in
  if (negb (R0 =? 0) && ((R0 <? 2) || (36 <? R0)))%N then NaN
  else
    let stripPrefix := ((R0 =? 0) || (R0 =? 16))%N in
    let R1 := if (R0 =? 0)%N then 10%N else R0 in
    let '(R, body) :=
      match (if stripPrefix then strip_hex_prefix unsigned else None) with
      | Some t => (16%N, t)
      | None => (R1, unsigned)
      end in
    match digits_prefix R body None with
    | None => NaN
    | Some n => Int (sign * Z.of_N n)
    end.

(** The seconds on which the arithmetic of [Z] is the arithmetic of the
    source: for numbers of this range the product by 60, the sum and the
    difference that the timestamp code computes are the doubles the
    source computes, none of them rounded. *)
Definition exactSeconds (z : Z) : Prop := (0 <= z < 2 ^ 53)%Z.

End Num.
Import Num.

(** The integer that a string of decimal digits denotes. *)
Definition decimal (ds : jsstring) : N :=
  fold_left (fun a c => a * 10 + (c - 48))%N ds 0%N.

(** ** [convertTimestampToSeconds] *)

Definition colon : codeunit := 58%N.

(** [timestamp] is [None] for [undefined] (a group that did not take part
    in the match); the empty string is falsy as well. The result is [None]
    for [null]. *)
Definition convertTimestampToSeconds (timestamp : option jsstring) : option jsint :=
  match timestamp with
  | None => None
  | Some [] => None
  | Some ts =>
      let parts := split_on colon ts in
      match parts with
      | [p0] => Some (parseInt p0 (Some 10%N))
      | [p0; p1] =>
          Some (add (mul (parseInt p0 (Some 10%N)) (Int 60))
                    (parseInt p1 (Some 10%N)))
      | [p0; p1; p2] =>
          Some (add (add (mul (parseInt p0 (Some 10%N)) (Int 3600))
                         (mul (parseInt p1 (Some 10%N)) (Int 60)))
                    (parseInt p2 (Some 10%N)))
      | _ => None
      end
  end.

(** ** [extractBrands] *)

(** The class of [cleanWord]'s [replace]: comma, full stop, exclamation and
    question mark, semicolon, colon, both parentheses, double and single
    quote. *)
Definition is_punctuation : codeunit -> bool :=
  one_of [44; 46; 33; 63; 59; 58; 40; 41; 34; 39]%N.

(** [/^[A-Z][a-z]{2,}$/.test(w)] *)
Definition brandRegex_test (w : jsstring) : bool :=
  match w with
  | [] => false
  | c :: t => is_upper c && (2 <=? length t)%nat && forallb is_lower t
  end.

(** The registered sign U+00AE and the trade mark sign U+2122. *)
Definition is_mark : codeunit -> bool := one_of [174; 8482]%N.

(** The pattern of [trademarkedBrands], with the [g] flag:
    [( [A-Za-z0-9]+ ) (?: \s* [marks] )]. *)
Definition trademarkRegex : regex :=
  Seq (Group 1 (Plus (Chr is_alnum)))
      (Seq (Star (Chr is_space)) (Chr is_mark)).

Definition extractBrands (text : jsstring) : list jsstring :=
  let words := split_runs is_space text in
  let brands :=
    fold_left
      (fun brands word =>
         let cleanWord := remove_all is_punctuation word in
         if brandRegex_test cleanWord then brands ++ [cleanWord] else brands)
      words [] in
  match match_all trademarkRegex text with
  | Some trademarkedBrands =>
      fold_left
        (fun brands brand =>
           brands ++ [remove_all (fun c => is_mark c || is_space c) brand])
        trademarkedBrands brands
  | None => brands
  end.

(** ** [detectSponsorship] *)

Inductive nullable (A : Type) : Type :=
| null
| undefined
| val (a : A).
Arguments null {A}.
Arguments undefined {A}.
Arguments val {A} a.

(** What the [tags] argument can be: [TagsOther] is any value that is not
    an array and neither [null] nor [undefined]. *)
Inductive TagsArg : Type :=
| TagsNull
| TagsUndefined
| TagsOther
| TagsArray (tags : list jsstring).

Record SponsorshipInfo := mkSponsorshipInfo {
  hasSponsorship : bool;
  sponsorshipDetails : jsstring;
  adIndicators : list jsstring;
  detectedBrands : list jsstring;
  adDuration : option jsint
}.

Definition sponsorKeywords : list jsstring :=
  List.map str
    ["sponsor"; "sponsored"; "partnership"; "partnered"; "promotion"; "promoted";
     "thanks to"; "paid promotion"; "sponsored by"; "affiliate"; "discount code";
     "promo code"; "use code"; "click the link"; "check out"; "thanks to our sponsor"]%string.

(** [/[.!?]+/] splits on runs of these. *)
Definition is_sentence_end : codeunit -> bool := one_of [46; 33; 63]%N.

(** [\d+ :? \d*] *)
Definition timestampPattern : regex :=
  Seq (Plus (Chr is_digit)) (Seq (Opt (Chr (N.eqb colon))) (Star (Chr is_digit))).

(** The pattern of [adTimestampRegex], with the [i] flag:
    [( \d+ :? \d* ) \s* -? \s* ( \d+ :? \d* )? \s* ( ad | sponsor | promotion | sponsored )]. *)
Definition adTimestampRegex : regex :=
  Seq (Group 1 timestampPattern)
  (Seq (Star (Chr is_space))
  (Seq (Opt (lit "-"))
  (Seq (Star (Chr is_space))
  (Seq (Opt (Group 2 timestampPattern))
  (Seq (Star (Chr is_space))
       (Group 3 (Alt (lit_i "ad")
                (Alt (lit_i "sponsor")
                (Alt (lit_i "promotion") (lit_i "sponsored")))))))))).

(** The four variables the loops of [detectSponsorship] assign. *)
Record Detection := mkDetection {
  d_hasSponsorship : bool;
  d_sponsorshipDetails : jsstring;
  d_adIndicators : list jsstring;
  d_detectedBrands : list jsstring
}.

Section Detect.

(** [String.prototype.toLowerCase] of the host. *)
Variable toLowerCase : jsstring -> jsstring.

(** The body of [for (const sentence of sentences)]. *)
Definition scanSentence (keyword : jsstring)
  (acc : jsstring * list jsstring) (sentence : jsstring) : jsstring * list jsstring :=
  let '(details, brands) := acc in
  if includes (toLowerCase sentence) keyword then
    let potentialBrands := extractBrands sentence in
    (details ++ trim sentence ++ str ". ",
     if (0 <? length potentialBrands)%nat then brands ++ potentialBrands else brands)
  else acc.

(** The body of [for (const keyword of sponsorKeywords)] over the
    description. *)
Definition scanDescriptionKeyword (description descriptionLower : jsstring)
  (st : Detection) (keyword : jsstring) : Detection :=
  if includes descriptionLower keyword then
    let sentences := split_runs is_sentence_end description in
    let '(details, brands) :=
      fold_left (scanSentence keyword) sentences
        (d_sponsorshipDetails st, d_detectedBrands st) in
    mkDetection true details (d_adIndicators st ++ [keyword]) brands
  else st.

(** The body of [for (const keyword of sponsorKeywords)] over one tag. *)
Definition scanTagKeyword (tagLower : jsstring)
  (st : Detection) (keyword : jsstring) : Detection :=
  if includes tagLower keyword && negb (arr_includes (d_adIndicators st) keyword) then
    mkDetection true (d_sponsorshipDetails st)
      (d_adIndicators st ++ [keyword]) (d_detectedBrands st)
  else st.

(** The body of [for (const tag of tags)]; [/^[A-Z]/.test(tag)] looks at
    the first code unit. *)
Definition scanTag (st : Detection) (tag : jsstring) : Detection :=
  let tagLower := toLowerCase tag in
  let st1 := fold_left (scanTagKeyword tagLower) sponsorKeywords st in
  if (3 <? length tag)%nat && match tag with c :: _ => is_upper c | [] => false end then
    mkDetection (d_hasSponsorship st1) (d_sponsorshipDetails st1)
      (d_adIndicators st1) (d_detectedBrands st1 ++ [tag])
  else st1.

(** [if (description)]: a string is truthy when it is not empty. *)
Definition truthy_string (description : nullable jsstring) : option jsstring :=
  match description with
  | val (c :: s) => Some (c :: s)
  | _ => None
  end.

(** [// Check description for sponsorship indicators] *)
Definition scanDescription (description : nullable jsstring) (st : Detection) : Detection :=
  match truthy_string description with
  | Some d =>
      let descriptionLower := toLowerCase d in
      fold_left (scanDescriptionKeyword d descriptionLower) sponsorKeywords st
  | None => st
  end.

(** [// Check tags for sponsorship indicators]: [tags && Array.isArray(tags)] *)
Definition scanTags (tags : TagsArg) (st : Detection) : Detection :=
  match tags with
  | TagsArray l => fold_left scanTag l st
  | _ => st
  end.

(** [description ? description.match(adTimestampRegex) : null] *)
Definition timestampMatches (description : nullable jsstring) : option match_result :=
  match truthy_string description with
  | Some d => search adTimestampRegex d
  | None => None
  end.

(** [// Calculate ad duration if end timestamp is provided]; an element of
    the match array is a string or [undefined]. *)
Definition computeAdDuration (g1 g2 : option jsstring) : option jsint :=
  match g2 with
  | Some (_ :: _) =>
      let startTime := convertTimestampToSeconds g1 in
      let endTime := convertTimestampToSeconds g2 in
      match startTime, endTime with
      | Some s, Some e => Some (sub e s)
      | _, _ => None
      end
  | _ => None
  end.

(** The text of a timestamp of the pattern: digits, then possibly a colon,
    then possibly digits. *)
Definition timestampText (g : jsstring) : Prop :=
  exists d1 c d2 : jsstring,
    g = d1 ++ c ++ d2 /\ d1 <> [] /\ forallb is_digit d1 = true /\
    (c = [] \/ c = [colon]) /\ forallb is_digit d2 = true.

(** [// Look for timestamps in description that might indicate ad segments] *)
Definition scanTimestamps (description : nullable jsstring) (st : Detection)
  : Detection * option jsint :=
  match timestampMatches description with
  | Some m =>
      let g1 := group 1 (groups m) in
      let g2 := group 2 (groups m) in
      (mkDetection true
         (d_sponsorshipDetails st ++ str "Ad segment detected at "
            ++ match g1 with Some t => t | None => str "undefined" end ++ str ". ")
         (d_adIndicators st ++ [str "timestamp indicator"])
         (d_detectedBrands st),
       computeAdDuration g1 g2)
  | None => (st, None)
  end.

Definition detectSponsorship (description : nullable jsstring) (tags : TagsArg)
  : SponsorshipInfo :=
  let st0 := mkDetection false [] [] [] in
  let st1 := scanDescription description st0 in
  let st2 := scanTags tags st1 in
  let '(st3, adDuration) := scanTimestamps description st2 in
  mkSponsorshipInfo
    (d_hasSponsorship st3)
    (trim (d_sponsorshipDetails st3))
    (if (0 <? length (d_adIndicators st3))%nat then dedup (d_adIndicators st3) else [])
    (dedup (d_detectedBrands st3))
    adDuration.

End Detect.

(** A list of recorded phrases is closed under containment when, with a
    phrase of [sponsorKeywords], it has the phrases of [sponsorKeywords]
    inside it. *)
Definition closed (indicators : list jsstring) : Prop :=
  forall k1 k2 : jsstring,
    In k1 sponsorKeywords -> In k2 sponsorKeywords -> includes k2 k1 = true ->
    In k2 indicators -> In k1 indicators.

(** ** [calculateEngagementMetrics] *)

Definition Qltb (a b : Q) : bool := negb (Qle_bool b a).

(** [x || 0] on a finite number. *)
Definition or0 (x : Q) : Q := if Qeq_bool x 0 then 0 else x.

Record EngagementMetrics := mkEngagementMetrics {
  likeToViewRatio : Q;
  commentToViewRatio : Q;
  overallEngagementRate : Q;
  adEffectivenessScore : Q
}.

Definition calculateEngagementMetrics (viewCount likeCount commentCount : Q)
  : EngagementMetrics :=
  let metrics := mkEngagementMetrics 0 0 0 0 in
  if Qltb 0 viewCount then
    let likeToViewRatio := (likeCount / viewCount) * 100 in
    let commentToViewRatio := (commentCount / viewCount) * 100 in
    let overallEngagementRate := ((likeCount + commentCount) / viewCount) * 100 in
    mkEngagementMetrics likeToViewRatio commentToViewRatio overallEngagementRate
      ((likeToViewRatio * 0.7) + (commentToViewRatio * 0.3))
  else metrics.

(** The same function on binary64 numbers, the arithmetic of the source:
    each operation rounds to nearest, and the literals [0.7] and [0.3] are
    the doubles nearest to 7/10 and 3/10, which is what the correctly
    rounded quotients are. *)
Module Binary64.

Definition prec : Z := 53.
Definition emax : Z := 1024.

Definition of_Z (z : Z) : spec_float := binary_normalize prec emax z 0 false.
Definition div : spec_float -> spec_float -> spec_float := SFdiv prec emax.
Definition mul : spec_float -> spec_float -> spec_float := SFmul prec emax.
Definition add : spec_float -> spec_float -> spec_float := SFadd prec emax.

Record EngagementMetrics := mkEngagementMetrics {
  likeToViewRatio : spec_float;
  commentToViewRatio : spec_float;
  overallEngagementRate : spec_float;
  adEffectivenessScore : spec_float
}.

Definition calculateEngagementMetrics (viewCount likeCount commentCount : spec_float)
  : EngagementMetrics :=
  let zero := of_Z 0 in
  if SFltb zero viewCount then
    let likeToViewRatio := mul (div likeCount viewCount) (of_Z 100) in
    let commentToViewRatio := mul (div commentCount viewCount) (of_Z 100) in
    let overallEngagementRate :=
      mul (div (add likeCount commentCount) viewCount) (of_Z 100) in
    mkEngagementMetrics likeToViewRatio commentToViewRatio overallEngagementRate
      (add (mul likeToViewRatio (div (of_Z 7) (of_Z 10)))
           (mul commentToViewRatio (div (of_Z 3) (of_Z 10))))
  else mkEngagementMetrics zero zero zero zero.

(** The rational that a finite double is. *)
Definition to_Q (x : spec_float) : option Q :=
  match x with
  | S754_zero _ => Some 0
  | S754_finite s m e => Some ((if s then -1 else 1) * inject_Z (Zpos m) * Qpower 2 e)
  | S754_infinity _ | S754_nan => None
  end.

End Binary64.

(** ** [analyzeCommentSentiment] *)

Record Comment := mkComment {
  commentId : jsstring;
  text : jsstring;
  authorName : jsstring;
  authorProfileUrl : jsstring;
  likeCount : Z;
  publishedAt : jsstring;
  updatedAt : jsstring
}.

Record KeywordStats := mkKeywordStats {
  count : nat;
  totalSentiment : Q;
  kw_averageSentiment : Q
}.

(** The object [keywordSentiment]: its own properties in insertion order. *)
Definition KeywordSentiment := list (jsstring * KeywordStats).

(** [totalComments] and [keywordSentiment] are [None] in an object that
    has no such property. *)
Record SentimentSummary := mkSentimentSummary {
  averageSentiment : Q;
  positivePercentage : Q;
  negativePercentage : Q;
  neutralPercentage : Q;
  totalComments : option nat;
  keywordSentiment : option KeywordSentiment
}.

Definition adKeywords : list jsstring :=
  List.map str ["ad"; "sponsor"; "promotion"; "sponsored"; "brand"; "product"]%string.

Fixpoint kw_lookup (m : KeywordSentiment) (k : jsstring) : option KeywordStats :=
  match m with
  | [] => None
  | (k', v) :: m' => if jsstring_eqb k k' then Some v else kw_lookup m' k
  end.

(** Assignment to the property [k]: in place when the object has it, at
    the end otherwise. *)
Fixpoint kw_set (m : KeywordSentiment) (k : jsstring) (v : KeywordStats) : KeywordSentiment :=
  match m with
  | [] => [(k, v)]
  | (k', v') :: m' =>
      if jsstring_eqb k k' then (k', v) :: m' else (k', v') :: kw_set m' k v
  end.

(** The variables the loop over the comments assigns. *)
Record Tally := mkTally {
  t_totalSentiment : Q;
  t_positiveCount : nat;
  t_negativeCount : nat;
  t_neutralCount : nat;
  t_keywordSentiment : KeywordSentiment
}.

Definition Qnat (n : nat) : Q := inject_Z (Z.of_nat n).

Inductive Polarity : Type := Positive | Negative | Neutral.

Definition polarity_eqb (a b : Polarity) : bool :=
  match a, b with
  | Positive, Positive | Negative, Negative | Neutral, Neutral => true
  | _, _ => false
  end.

(** 1 when the class is the given one, 0 otherwise. *)
Definition bump (p q : Polarity) : nat := if polarity_eqb p q then 1%nat else 0%nat.

Section Sentiment.

Variable toLowerCase : jsstring -> jsstring.

(** [tokenizer.tokenize] and [sentiment.getSentiment] of the [natural]
    package; [None] is a result that is [NaN] or [undefined]. *)
Variable tokenize : jsstring -> list jsstring.
Variable getSentiment : list jsstring -> option Q.

(** [sentiment.getSentiment(tokens) || 0] *)
Definition sentimentScoreOf (comment : Comment) : Q :=
  let tokens := tokenize (text comment) in
  match getSentiment tokens with
  | Some q => or0 q
  | None => 0
  end.

(** The body of [for (const keyword of adKeywords)]. *)
Definition tallyKeyword (comment : Comment) (sentimentScore : Q)
  (ks : KeywordSentiment) (keyword : jsstring) : KeywordSentiment :=
  if includes (toLowerCase (text comment)) keyword then
    let ks1 :=
      match kw_lookup ks keyword with
      | Some _ => ks
      | None => kw_set ks keyword (mkKeywordStats 0 0 0)
      end in
    match kw_lookup ks1 keyword with
    | Some e =>
        kw_set ks1 keyword
          (mkKeywordStats (S (count e)) (totalSentiment e + sentimentScore)
             (kw_averageSentiment e))
    | None => ks1
    end
  else ks.

(** The body of [for (const comment of comments)]. *)
Definition tallyComment (t : Tally) (comment : Comment) : Tally :=
  let sentimentScore := sentimentScoreOf comment in
  let totalSentiment := t_totalSentiment t + sentimentScore in
  let ks := fold_left (tallyKeyword comment sentimentScore) adKeywords
              (t_keywordSentiment t) in
  if Qltb 0.05 sentimentScore then
    mkTally totalSentiment (S (t_positiveCount t)) (t_negativeCount t)
      (t_neutralCount t) ks
  else if Qltb sentimentScore (-0.05) then
    mkTally totalSentiment (t_positiveCount t) (S (t_negativeCount t))
      (t_neutralCount t) ks
  else
    mkTally totalSentiment (t_positiveCount t) (t_negativeCount t)
      (S (t_neutralCount t)) ks.

(** [for (const keyword in keywordSentiment)]: the averages. *)
Definition averageKeyword (e : jsstring * KeywordStats) : jsstring * KeywordStats :=
  let '(k, v) := e in
  if (0 <? count v)%nat then
    (k, mkKeywordStats (count v) (totalSentiment v)
          (or0 (totalSentiment v / Qnat (count v))))
  else (k, v).

Definition emptySentiment : SentimentSummary :=
  mkSentimentSummary 0 0 0 0 (Some 0%nat) (Some []).

(** [comments] is [None] for a falsy argument. *)
Definition analyzeCommentSentiment (comments : option (list Comment)) : SentimentSummary :=
  match comments with
  | None | Some [] => emptySentiment
  | Some cs =>
      let t := fold_left tallyComment cs (mkTally 0 0 0 0 []) in
      let keywordSentiment := List.map averageKeyword (t_keywordSentiment t) in
      let totalComments := length cs in
      let guarded (x : Q) := if (0 <? totalComments)%nat then or0 x else 0 in
      mkSentimentSummary
        (guarded (t_totalSentiment t / Qnat totalComments))
        (guarded ((Qnat (t_positiveCount t) / Qnat totalComments) * 100))
        (guarded ((Qnat (t_negativeCount t) / Qnat totalComments) * 100))
        (guarded ((Qnat (t_neutralCount t) / Qnat totalComments) * 100))
        (Some totalComments)
        (Some keywordSentiment)
  end.

(** The three classes of the [if] chain of the loop, and the number of
    comments of a class. *)
Definition classify (sentimentScore : Q) : Polarity :=
  if Qltb 0.05 sentimentScore then Positive
  else if Qltb sentimentScore (-0.05) then Negative
  else Neutral.

Definition countClass (p : Polarity) (comments : list Comment) : nat :=
  length (filter (fun c => polarity_eqb (classify (sentimentScoreOf c)) p) comments).

End Sentiment.

(** ** [calculateAdEffectiveness] *)

Definition calculateAdEffectiveness (engagementMetrics : EngagementMetrics)
  (sentiment : SentimentSummary) : Q :=
  let w_engagement := 0.5 in
  let w_sentiment := 0.5 in
  let normalizedEngagement := Qmin (adEffectivenessScore engagementMetrics * 10) 100 in
  let sentimentScore :=
    (positivePercentage sentiment - negativePercentage sentiment + 100) / 2 in
  let effectivenessScore :=
    (normalizedEngagement * w_engagement) + (sentimentScore * w_sentiment) in
  Qmax 0 (Qmin 100 effectivenessScore).

(** ** The asynchronous functions

    An [async] function is a computation on the [World] that completes
    normally or throws; [await] is [bind]. The thrown value is kept as its
    [message]. *)

Inductive completion (A : Type) : Type :=
| Normal (a : A)
| Throw (message : jsstring).
Arguments Normal {A} a.
Arguments Throw {A} message.

(** [{ success: true, ... }] and [{ success: false, error }] *)
Inductive Result (A : Type) : Type :=
| Success (payload : A)
| Failure (error : jsstring).
Arguments Success {A} payload.
Arguments Failure {A} error.

Definition Date := Z.

(** What [getVideoDetails] returns, without the content attributes it
    copies from [contentDetails] and no later function reads. *)
Record VideoData := mkVideoData {
  vd_title : jsstring;
  vd_description : nullable jsstring;
  vd_viewCount : Z;
  vd_likeCount : Z;
  vd_commentCount : Z;
  vd_favoriteCount : Z;
  vd_tags : list jsstring;
  vd_engagementMetrics : EngagementMetrics;
  vd_sponsorshipInfo : SponsorshipInfo
}.

(** The interpolated parts of the template string [prompt], in order; the
    fixed text between them is the same in every prompt. The rate, which
    the template prints with [toFixed(2)], is kept as the number. *)
Record Prompt := mkPrompt {
  p_title : jsstring;
  p_description : jsstring;
  p_tags : jsstring;
  p_hasSponsorship : bool;
  p_sponsorshipDetails : jsstring;
  p_engagementRate : Q;
  p_comments : jsstring
}.

Record AnalysisResults := mkAnalysisResults {
  aiInsights : jsstring;
  adStyle : jsstring;
  adEffectiveness : Q;
  adSentiment : SentimentSummary;
  lastAnalyzed : Date
}.

Record Engagement := mkEngagement {
  e_likeCount : Z;
  e_commentCount : Z;
  e_likeToViewRatio : Q;
  e_commentToViewRatio : Q;
  e_overallEngagementRate : Q
}.

Record AdInsightReport := mkAdInsightReport {
  r_videoId : jsstring;
  r_title : jsstring;
  r_channelId : nullable jsstring;
  r_channelTitle : nullable jsstring;
  r_publishedAt : nullable jsstring;
  r_viewCount : Z;
  r_adData : SponsorshipInfo;
  r_engagement : Engagement;
  r_sentimentAnalysis : SentimentSummary;
  r_adStyle : jsstring;
  r_adEffectiveness : Q;
  r_aiInsights : jsstring;
  r_generatedAt : Date
}.

(** The [$set] of [saveAdInsightsReport]. *)
Record AdInsights := mkAdInsights {
  ai_lastAnalyzed : Date;
  ai_sentiment : SentimentSummary;
  ai_aiAnalysis : jsstring;
  ai_adStyle : jsstring;
  ai_adEffectiveness : Q
}.

(** An item of [youtube.videos.list]: the parts of [snippet] and
    [statistics] that [getVideoDetails] reads. An absent property is
    [undefined] or [None]. *)
Record VideoItem := mkVideoItem {
  snippet_title : jsstring;
  snippet_description : nullable jsstring;
  snippet_tags : option (list jsstring);
  statistics_viewCount : option jsstring;
  statistics_likeCount : option jsstring;
  statistics_commentCount : option jsstring;
  statistics_favoriteCount : option jsstring
}.

(** An item of [youtube.commentThreads.list]: [item.id] and the fields of
    [item.snippet.topLevelComment.snippet]. *)
Record CommentThread := mkCommentThread {
  ct_id : jsstring;
  ct_textDisplay : jsstring;
  ct_authorDisplayName : jsstring;
  ct_authorProfileImageUrl : jsstring;
  ct_likeCount : Z;
  ct_publishedAt : jsstring;
  ct_updatedAt : jsstring
}.

(** A document of the [Video] collection, as the batch reads it. *)
Record StoredVideo := mkStoredVideo {
  sv_videoId : jsstring;
  sv_title : jsstring
}.

(** An element of [results.reports]. *)
Record ReportEntry := mkReportEntry {
  re_videoId : jsstring;
  re_title : jsstring;
  re_success : bool;
  re_error : option jsstring
}.

Record BatchResults := mkBatchResults {
  total : nat;
  processed : nat;
  failed : nat;
  reports : list ReportEntry
}.

(** [s.substring(0, n)], [arr.slice(0, n)] *)
Definition substring0 (n : nat) (s : jsstring) : jsstring := firstn n s.

(** [arr.join(sep)] *)
Fixpoint join (sep : jsstring) (l : list jsstring) : jsstring :=
  match l with
  | [] => []
  | [x] => x
  | x :: l' => x ++ sep ++ join sep l'
  end.

(** [parseInt(x) || 0] on a property of [statistics]; an absent property
    is read as the string of [undefined]. *)
Definition parseCount (x : option jsstring) : Z :=
  or_zero (parseInt (match x with Some s => s | None => str "undefined" end) None).

Section Pipeline.

Variable World : Type.

Definition M (A : Type) : Type := World -> completion A * World.

Definition ret {A} (a : A) : M A := fun w => (Normal a, w).

Definition bind {A B} (m : M A) (f : A -> M B) : M B :=
  fun w =>
    match m w with
    | (Normal a, w') => f a w'
    | (Throw e, w') => (Throw e, w')
    end.

(** [try { m } catch (error) { h error }] *)
Definition try_catch {A} (m : M A) (h : jsstring -> M A) : M A :=
  fun w =>
    match m w with
    | (Normal a, w') => (Normal a, w')
    | (Throw e, w') => h e w'
    end.

Definition throw {A} (e : jsstring) : M A := fun w => (Throw e, w).

(** A computation that completes normally in every world. *)
Definition normal {A} (m : M A) : Prop :=
  forall w, exists a w', m w = (Normal a, w').

Local Notation "x <- m ;; k" := (bind m (fun x => k))
  (at level 61, m at next level, right associativity).

(** The host and the packages. *)
Variable toLowerCase : jsstring -> jsstring.
Variable tokenize : jsstring -> list jsstring.
Variable getSentiment : list jsstring -> option Q.

(** The collaborators: the video platform, the generative service (the
    reply of [model.generateContent] read through [response.text()]), the
    store, the clock. Each may throw, except the clock. *)
Variable youtube_videos_list : jsstring -> M (option (list VideoItem)).
Variable youtube_commentThreads_list : jsstring -> nat -> M (option (list CommentThread)).
Variable model_generateContent : Prompt -> M jsstring.
Variable Video_findOneAndUpdate : jsstring -> AdInsights -> M unit.
Variable Video_find : jsstring -> M (option (list StoredVideo)).
Variable clock : World -> Date.

(** [new Date()] *)
Definition newDate : M Date := fun w => (Normal (clock w), w).

Definition getVideoDetails (videoId : jsstring) : M (option VideoData) :=
  try_catch
    (response <- youtube_videos_list videoId ;;
     match response with
     | None | Some [] => ret None
     | Some (videoData :: _) =>
         let viewCount := parseCount (statistics_viewCount videoData) in
         let likeCount := parseCount (statistics_likeCount videoData) in
         let commentCount := parseCount (statistics_commentCount videoData) in
         let engagementMetrics :=
           calculateEngagementMetrics (inject_Z viewCount) (inject_Z likeCount)
             (inject_Z commentCount) in
         let sponsorshipInfo :=
           detectSponsorship toLowerCase (snippet_description videoData)
             (match snippet_tags videoData with
              | Some l => TagsArray l
              | None => TagsUndefined
              end) in
         ret (Some (mkVideoData
                      (snippet_title videoData)
                      (snippet_description videoData)
                      viewCount likeCount commentCount
                      (parseCount (statistics_favoriteCount videoData))
                      (match snippet_tags videoData with Some l => l | None => [] end)
                      engagementMetrics sponsorshipInfo))
     end)
    (fun _ => ret None).

Definition getVideoComments (videoId : jsstring) : M (list Comment) :=
  try_catch
    (response <- youtube_commentThreads_list videoId 100%nat ;;
     match response with
     | None | Some [] => ret []
     | Some items =>
         ret (List.map
                (fun item =>
                   mkComment (ct_id item) (ct_textDisplay item)
                     (ct_authorDisplayName item) (ct_authorProfileImageUrl item)
                     (ct_likeCount item) (ct_publishedAt item) (ct_updatedAt item))
                items)
     end)
    (fun _ => ret []).

(** The template string; reading [substring] of a description that is
    [null] or [undefined] throws a TypeError, whose message no caller
    returns. *)
Definition buildPrompt (videoData : VideoData) (comments : list Comment) : M Prompt :=
  match vd_description videoData with
  | val description =>
      ret (mkPrompt
             (vd_title videoData)
             (substring0 1000 description)
             (join (str ", ") (vd_tags videoData))
             (hasSponsorship (vd_sponsorshipInfo videoData))
             (sponsorshipDetails (vd_sponsorshipInfo videoData))
             (overallEngagementRate (vd_engagementMetrics videoData))
             (join [10%N] (List.map text (firstn 5 comments))))
  | _ => throw (str "TypeError")
  end.

(** The [adStyle] of the [try] block; [if (sponsorshipInfo.adDuration)]
    tests the truthiness of a number or of [null]. *)
Definition resolveAdStyle (sponsorshipInfo : SponsorshipInfo) (aiInsights : jsstring)
  : jsstring :=
  let fromReply :=
    if includes (toLowerCase aiInsights) (str "long-form") then str "Long-form"
    else if includes (toLowerCase aiInsights) (str "short-form") then str "Short-form"
    else str "Unknown" in
  if hasSponsorship sponsorshipInfo then
    match adDuration sponsorshipInfo with
    | Some d =>
        if truthy d then
          if gtb d (Int 60) then str "Long-form" else str "Short-form"
        else fromReply
    | None => fromReply
    end
  else str "Unknown".

Definition analyzeVideoContent (videoData : VideoData) (comments : list Comment)
  : M AnalysisResults :=
  try_catch
    (prompt <- buildPrompt videoData comments ;;
     reply <- model_generateContent prompt ;;
     let aiInsights := trim reply in
     let adStyle := resolveAdStyle (vd_sponsorshipInfo videoData) aiInsights in
     let commentSentiment :=
       analyzeCommentSentiment toLowerCase tokenize getSentiment (Some comments) in
     let adEffectiveness :=
       calculateAdEffectiveness (vd_engagementMetrics videoData) commentSentiment in
     now <- newDate ;;
     ret (mkAnalysisResults aiInsights adStyle adEffectiveness commentSentiment now))
    (fun _ =>
       now <- newDate ;;
       ret (mkAnalysisResults (str "Analysis failed") (str "Unknown") 0
              (mkSentimentSummary 0 0 0 0 None None) now)).

Definition saveAdInsightsReport (videoId : jsstring) (report : AdInsightReport) : M unit :=
  try_catch
    (Video_findOneAndUpdate videoId
       (mkAdInsights (r_generatedAt report) (r_sentimentAnalysis report)
          (r_aiInsights report) (r_adStyle report) (r_adEffectiveness report)))
    (fun _ => ret tt).

Definition generateAdInsightsReport (videoId : jsstring) : M (Result AdInsightReport) :=
  try_catch
    (videoData <- getVideoDetails videoId ;;
     match videoData with
     | None => ret (Failure (str "Video not found"))
     | Some videoData =>
         comments <- getVideoComments videoId ;;
         analysisResults <- analyzeVideoContent videoData comments ;;
         generatedAt <- newDate ;;
         let report :=
           mkAdInsightReport videoId (vd_title videoData)
             undefined undefined undefined
             (vd_viewCount videoData)
             (vd_sponsorshipInfo videoData)
             (mkEngagement (vd_likeCount videoData) (vd_commentCount videoData)
                (likeToViewRatio (vd_engagementMetrics videoData))
                (commentToViewRatio (vd_engagementMetrics videoData))
                (overallEngagementRate (vd_engagementMetrics videoData)))
             (adSentiment analysisResults)
             (adStyle analysisResults)
             (adEffectiveness analysisResults)
             (aiInsights analysisResults)
             generatedAt in
         _ <- saveAdInsightsReport videoId report ;;
         ret (Success report)
     end)
    (fun error => ret (Failure error)).

(** The body of [for (const video of videos)], on the object [results]. *)
Definition processVideo (results : BatchResults) (video : StoredVideo) : M BatchResults :=
  try_catch
    (result <- generateAdInsightsReport (sv_videoId video) ;;
     match result with
     | Success _ =>
         ret (mkBatchResults (total results) (S (processed results)) (failed results)
                (reports results ++
                 [mkReportEntry (sv_videoId video) (sv_title video) true None]))
     | Failure error =>
         ret (mkBatchResults (total results) (processed results) (S (failed results))
                (reports results ++
                 [mkReportEntry (sv_videoId video) (sv_title video) false (Some error)]))
     end)
    (fun error =>
       ret (mkBatchResults (total results) (processed results) (S (failed results))
              (reports results ++
               [mkReportEntry (sv_videoId video) (sv_title video) false (Some error)]))).

Fixpoint forEachVideo (videos : list StoredVideo) (results : BatchResults) : M BatchResults :=
  match videos with
  | [] => ret results
  | video :: videos' =>
      results' <- processVideo results video ;;
      forEachVideo videos' results'
  end.

Definition generateChannelAdInsights (channelId : jsstring) : M (Result BatchResults) :=
  try_catch
    (videos <- Video_find channelId ;;
     match videos with
     | None | Some [] => ret (Failure (str "No videos found for this channel"))
     | Some videos =>
         let results := mkBatchResults (length videos) 0 0 [] in
         results' <- forEachVideo videos results ;;
         ret (Success results')
     end)
    (fun error => ret (Failure error)).

(** The outcomes of the per-video pipeline on the videos of a batch, one
    video after the other. *)
Fixpoint perVideoOutcomes (videos : list StoredVideo) (w : World)
  : list (completion (Result AdInsightReport)) * World :=
  match videos with
  | [] => ([], w)
  | video :: videos' =>
      let '(c, w1) := generateAdInsightsReport (sv_videoId video) w in
      let '(cs, w2) := perVideoOutcomes videos' w1 in
      (c :: cs, w2)
  end.

End Pipeline.

(** A video of the batch has failed when its pipeline did not return
    [success: true]. *)
Definition outcomeFailed (c : completion (Result AdInsightReport)) : bool :=
  match c with
  | Normal (Success _) => false
  | _ => true
  end.

Definition countFailed (cs : list (completion (Result AdInsightReport))) : nat :=
  length (filter outcomeFailed cs).

(** The per-item outcome of a video in [reports]. *)
Definition outcomeEntry (video : StoredVideo) (c : completion (Result AdInsightReport))
  : ReportEntry :=
  match c with
  | Normal (Success _) => mkReportEntry (sv_videoId video) (sv_title video) true None
  | Normal (Failure error) | Throw error =>
      mkReportEntry (sv_videoId video) (sv_title video) false (Some error)
  end.

Definition outcomeEntries (videos : list StoredVideo)
  (cs : list (completion (Result AdInsightReport))) : list ReportEntry :=
  List.map (fun vc => outcomeEntry (fst vc) (snd vc)) (combine videos cs).

(** ** Sample collaborators

    A world whose state is the clock, a platform that knows every video
    but ["missing"], a generative service that answers or fails, and a
    store that holds three videos of one channel. *)

Module Sample.

Definition World := Z.

Definition tokenize (s : jsstring) : list jsstring := split_runs is_space s.

Definition occurrences (word : jsstring) (tokens : list jsstring) : nat :=
  length (filter (jsstring_eqb word) tokens).

(** A two-word lexicon, averaged over the tokens as the package does; no
    token gives [NaN]. *)
Definition getSentiment (tokens : list jsstring) : option Q :=
  match tokens with
  | [] => None
  | _ =>
      Some ((Qnat (occurrences (str "good") tokens)
             - Qnat (occurrences (str "bad") tokens)) / Qnat (length tokens))
  end.

Definition item (description : string) : VideoItem :=
  mkVideoItem (str "Review") (val (str description)) None
    (Some (str "1000")) (Some (str "50")) (Some (str "10")) None.

Definition youtube_videos_list (description : string) (videoId : jsstring)
  : M World (option (list VideoItem)) :=
  if jsstring_eqb videoId (str "missing") then ret (Some [])
  else ret (Some [item description]).

Definition comment (t : string) : Comment :=
  mkComment (str "c") (str t) (str "viewer") (str "") 0 (str "") (str "").

Definition comments : list Comment :=
  [comment "good good video"; comment "bad ad"; comment "the product"].

Definition youtube_commentThreads_list (videoId : jsstring) (maxResults : nat)
  : M World (option (list CommentThread)) :=
  ret (Some [mkCommentThread (str "c") (str "good good video") (str "viewer")
               (str "") 0 (str "") (str "")]).

Definition generateContent_ok (reply : string) (prompt : Prompt) : M World jsstring :=
  ret (str reply).

Definition generateContent_fails (prompt : Prompt) : M World jsstring :=
  throw (str "quota exceeded").

Definition Video_findOneAndUpdate (videoId : jsstring) (a : AdInsights) : M World unit :=
  fun w => (Normal tt, (w + 1)%Z).

Definition channel : list StoredVideo :=
  [mkStoredVideo (str "v1") (str "First");
   mkStoredVideo (str "missing") (str "Second");
   mkStoredVideo (str "v3") (str "Third")].

Definition Video_find (channelId : jsstring) : M World (option (list StoredVideo)) :=
  if jsstring_eqb channelId (str "empty") then ret (Some [])
  else ret (Some channel).

Definition clock (w : World) : Date := w.

(** The service on the sample collaborators, for a generative service. *)
Definition analyzeVideoContent (gen : Prompt -> M World jsstring) :=
  analyzeVideoContent toLowerCase_basic tokenize getSentiment gen clock.

Definition generateChannelAdInsights (gen : Prompt -> M World jsstring) :=
  generateChannelAdInsights toLowerCase_basic tokenize getSentiment
    (youtube_videos_list "Thanks to our sponsor") youtube_commentThreads_list
    gen Video_findOneAndUpdate Video_find clock.

(** The video data of a video whose description gives the ad segment as
    starting and ending at [1:00]. *)
Definition zeroLengthAd : VideoData :=
  mkVideoData (str "Review") (val (str "1:00 - 1:00 ad")) 1000 50 10 0 []
    (calculateEngagementMetrics 1000 50 10)
    (detectSponsorship toLowerCase_basic (val (str "1:00 - 1:00 ad")) TagsUndefined).

End Sample.

(** ** Definitions for the further properties *)

(** The test of [// Extract potential brand names from tags]: more than
    three code units, the first an upper-case letter. *)
Definition tagIsBrand (tag : jsstring) : bool :=
  (3 <? length tag)%nat && match tag with c :: _ => is_upper c | [] => false end.

(** The pattern matches somewhere in the text: at the end of some prefix
    [pre], the rest [t] has a prefix that the pattern derives. *)
Definition matchesSomewhere (r : regex) (s : jsstring) : Prop :=
  exists (pre t s1 : jsstring) (c1 : captures),
    s = pre ++ t /\ derives r t [] s1 c1.

(** The flag of the loops is set exactly when something has been recorded. *)
Definition flagged (st : Detection) : Prop :=
  d_hasSponsorship st = true <-> d_adIndicators st <> [].

(** The sum of the scores of comments, added in their order, and the
    comments whose lower-cased text contains a keyword. *)
Definition sumScores (tokenize : jsstring -> list jsstring)
  (getSentiment : list jsstring -> option Q) (cs : list Comment) : Q :=
  fold_left (fun a c => a + sentimentScoreOf tokenize getSentiment c) cs 0.

Definition mentions (toLowerCase : jsstring -> jsstring) (keyword : jsstring)
  (cs : list Comment) : list Comment :=
  filter (fun c => includes (toLowerCase (text c)) keyword) cs.

(** ** The functions that fetch and store videos

    [fetchVideosFromChannel], [searchVideos], [fetchAllVideos] and
    [saveVideosToDatabase] of [src/services/youtube.js], with the two lists
    of [src/config/config.js]. *)

(** [snippet.thumbnails]: [high?.url] and [default?.url], each [None] when
    the size or its [url] is absent. *)
Record Thumbnails := mkThumbnails {
  high_url : option jsstring;
  default_url : option jsstring
}.

(** An item of [youtube.playlistItems.list] or of [youtube.search.list]:
    the video id ([contentDetails.videoId] of the first, [id.videoId] of
    the second) and the parts of [snippet] that are read. [li_thumbnails]
    is [None] for a snippet without [thumbnails]. *)
Record ListedItem := mkListedItem {
  li_videoId : jsstring;
  li_title : jsstring;
  li_description : jsstring;
  li_publishedAt : jsstring;
  li_channelId : jsstring;
  li_channelTitle : jsstring;
  li_thumbnails : option Thumbnails
}.

(** An item of [youtube.channels.list]:
    [contentDetails.relatedPlaylists.uploads]. *)
Record ChannelItem := mkChannelItem {
  uploads : jsstring
}.

(** A pushed video. The spread of [videoDetails] comes last in the object
    literal, so [title] and [description] are those of the details, not
    those of the item; the other properties of the details are kept in
    [fv_details]. [fv_keyword] is [None] in an object that has no
    [keyword]. *)
Record FetchedVideo := mkFetchedVideo {
  fv_videoId : jsstring;
  fv_title : jsstring;
  fv_description : nullable jsstring;
  fv_publishedAt : jsstring;
  fv_channelId : jsstring;
  fv_channelTitle : jsstring;
  fv_thumbnailUrl : option jsstring;
  fv_source : jsstring;
  fv_keyword : option jsstring;
  fv_details : VideoData
}.

(** [thumbnails.high?.url || thumbnails.default?.url]: an absent or empty
    first url gives the second. *)
Definition thumbnailUrlOf (thumbnails : Thumbnails) : option jsstring :=
  match high_url thumbnails with
  | Some (c :: s) => Some (c :: s)
  | _ => default_url thumbnails
  end.

(** [config.youtubeChannels] and [config.searchKeywords] *)
Definition youtubeChannels : list jsstring :=
  [str "UCsLiV4WJfkTEHH0b9PmRklw"; str "UC-lHJZR3Gqxm24_Vd_AJ5Yw"].

Definition searchKeywords : list jsstring :=
  [str "node.js tutorial"; str "javascript programming"].

Section Fetch.

Variable World : Type.

Local Notation "x <- m ;; k" := (bind m (fun x => k))
  (at level 61, m at next level, right associativity).

Variable toLowerCase : jsstring -> jsstring.

(** The platform and the store; [maxResults] is passed on as it comes. *)
Variable youtube_videos_list : jsstring -> M World (option (list VideoItem)).
Variable youtube_channels_list : jsstring -> M World (option (list ChannelItem)).
Variable youtube_playlistItems_list : jsstring -> Z -> M World (option (list ListedItem)).
Variable youtube_search_list : jsstring -> Z -> M World (option (list ListedItem)).
Variable Video_findOne : jsstring -> M World (option StoredVideo).
Variable Video_create : FetchedVideo -> M World unit.
Variable Video_findOneAndUpdate : jsstring -> FetchedVideo -> M World unit.

(** The loop [for (const item of ...)] of [fetchVideosFromChannel]
    ([source] is ["channel"], no [keyword]) and of [searchVideos]
    ([source] is ["search"], with the [keyword]); reading [high] of absent
    [thumbnails] throws a TypeError. *)
Fixpoint collectVideos (source : jsstring) (keyword : option jsstring)
  (items : list ListedItem) (videos : list FetchedVideo) : M World (list FetchedVideo) :=
  match items with
  | [] => ret videos
  | item :: items' =>
      let videoId := li_videoId item in
      videoDetails <- getVideoDetails toLowerCase youtube_videos_list videoId ;;
      match videoDetails with
      | None => collectVideos source keyword items' videos
      | Some videoDetails =>
          match li_thumbnails item with
          | None => throw (str "TypeError")
          | Some thumbnails =>
              collectVideos source keyword items'
                (videos ++
                 [mkFetchedVideo videoId
                    (vd_title videoDetails) (vd_description videoDetails)
                    (li_publishedAt item) (li_channelId item) (li_channelTitle item)
                    (thumbnailUrlOf thumbnails) source keyword videoDetails])
          end
      end
  end.

Definition fetchVideosFromChannel (channelId : jsstring) (maxResults : Z)
  : M World (list FetchedVideo) :=
  try_catch
    (channelResponse <- youtube_channels_list channelId ;;
     match channelResponse with
     | None | Some [] => ret []
     | Some (channel :: _) =>
         let uploadsPlaylistId := uploads channel in
         playlistResponse <- youtube_playlistItems_list uploadsPlaylistId maxResults ;;
         match playlistResponse with
         | None | Some [] => ret []
         | Some items => collectVideos (str "channel") None items []
         end
     end)
    (fun _ => ret []).

Definition searchVideos (keyword : jsstring) (maxResults : Z)
  : M World (list FetchedVideo) :=
  try_catch
    (searchResponse <- youtube_search_list keyword maxResults ;;
     match searchResponse with
     | None | Some [] => ret []
     | Some items => collectVideos (str "search") (Some keyword) items []
     end)
    (fun _ => ret []).

(** The loop of [saveVideosToDatabase], with its two counters. *)
Fixpoint saveEach (videos : list FetchedVideo) (newVideos updatedVideos : nat)
  : M World (nat * nat) :=
  match videos with
  | [] => ret (newVideos, updatedVideos)
  | video :: videos' =>
      existingVideo <- Video_findOne (fv_videoId video) ;;
      match existingVideo with
      | None =>
          _ <- Video_create video ;;
          saveEach videos' (S newVideos) updatedVideos
      | Some _ =>
          _ <- Video_findOneAndUpdate (fv_videoId video) video ;;
          saveEach videos' newVideos (S updatedVideos)
      end
  end.

(** The counters are logged only. *)
Definition saveVideosToDatabase (videos : list FetchedVideo) : M World unit :=
  try_catch
    (_ <- saveEach videos 0 0 ;; ret tt)
    (fun _ => ret tt).

(** The two loops of [fetchAllVideos]; the calls leave [maxResults] to its
    default, 10. *)
Fixpoint fetchChannels (channelIds : list jsstring) (allVideos : list FetchedVideo)
  : M World (list FetchedVideo) :=
  match channelIds with
  | [] => ret allVideos
  | channelId :: channelIds' =>
      channelVideos <- fetchVideosFromChannel channelId 10 ;;
      fetchChannels channelIds' (allVideos ++ channelVideos)
  end.

Fixpoint fetchKeywords (keywords : list jsstring) (allVideos : list FetchedVideo)
  : M World (list FetchedVideo) :=
  match keywords with
  | [] => ret allVideos
  | keyword :: keywords' =>
      keywordVideos <- searchVideos keyword 10 ;;
      fetchKeywords keywords' (allVideos ++ keywordVideos)
  end.

Definition fetchAllVideos : M World (list FetchedVideo) :=
  try_catch
    (allVideos <- fetchChannels youtubeChannels [] ;;
     allVideos <- fetchKeywords searchKeywords allVideos ;;
     _ <- saveVideosToDatabase allVideos ;;
     ret allVideos)
    (fun _ => ret []).

End Fetch.

(** [subsequence l1 l2]: [l1] is [l2] without some of its elements, in the
    same order. *)
Inductive subsequence {A : Type} : list A -> list A -> Prop :=
| sub_nil : subsequence [] []
| sub_skip (x : A) (l1 l2 : list A) : subsequence l1 l2 -> subsequence l1 (x :: l2)
| sub_take (x : A) (l1 l2 : list A) : subsequence l1 l2 -> subsequence (x :: l1) (x :: l2).

(** The videos of one source: none has another [source] or [keyword], and
    each has the title and the description of its details. *)
Definition fromSource (source : jsstring) (keyword : option jsstring)
  (videos : list FetchedVideo) : Prop :=
  Forall (fun v =>
            fv_source v = source /\ fv_keyword v = keyword /\
            fv_title v = vd_title (fv_details v) /\
            fv_description v = vd_description (fv_details v)) videos.

(** An item with [thumbnails]. *)
Definition hasThumbnails (item : ListedItem) : bool :=
  match li_thumbnails item with
  | Some _ => true
  | None => false
  end.

(** A platform with one channel whose uploads playlist lists two videos,
    the second without thumbnails, and a store that is the list of the ids
    of its videos. *)
Module SampleFetch.

Definition listed (videoId : string) (thumbnails : option Thumbnails) : ListedItem :=
  mkListedItem (str videoId) (str "Listed") (str "") (str "2024-01-01")
    (str "UC1") (str "Channel") thumbnails.

Definition items : list ListedItem :=
  [listed "v1" (Some (mkThumbnails None (Some (str "https://img/v1.jpg"))));
   listed "v2" None].

Definition youtube_channels_list (channelId : jsstring)
  : M Sample.World (option (list ChannelItem)) :=
  ret (Some [mkChannelItem (str "UU1")]).

Definition youtube_playlistItems_list (playlistId : jsstring) (maxResults : Z)
  : M Sample.World (option (list ListedItem)) :=
  ret (Some items).

Definition Store := list jsstring.

Definition Video_findOne (videoId : jsstring) : M Store (option StoredVideo) :=
  fun w =>
    (Normal (if arr_includes w videoId then Some (mkStoredVideo videoId (str "Stored"))
             else None), w).

Definition Video_create (video : FetchedVideo) : M Store unit :=
  fun w => (Normal tt, w ++ [fv_videoId video]).

Definition Video_findOneAndUpdate (videoId : jsstring) (video : FetchedVideo)
  : M Store unit :=
  fun w => (Normal tt, w).

Definition storedIds (w : Store) : list jsstring := w.

Definition video (videoId : string) : FetchedVideo :=
  mkFetchedVideo (str videoId) (str "Review") (val (str "1:00 - 1:00 ad"))
    (str "2024-01-01") (str "UC1") (str "Channel") None (str "channel") None
    Sample.zeroLengthAd.

End SampleFetch.

(** ** The handlers that call the service

    The handlers of [src/unnamed/part_001] for [GET /api/fetch-now],
    [POST /api/videos/:videoId/generate-insights],
    [POST /api/videos/:videoId/refresh-comments],
    [POST /api/fetch/channel/:channelId] and
    [POST /api/fetch/search/:keyword]. A handler is a computation that
    gives the response it sends. *)

(** The JSON bodies: those with [success: true] and a [count] (their
    [message] is a fixed text, around the count for a fetch), the report,
    and the two with [success: false], which carry a [message] or an
    [error]. [NoComments] is the body with the message "No comments found
    for this video" and the count 0. *)
Inductive Body : Type :=
| VideosFetched (count : nat)
| ChannelFetched (channelId : jsstring) (count : nat)
| SearchFetched (keyword : jsstring) (count : nat)
| ReportGenerated (report : AdInsightReport)
| NoComments
| CommentsRefreshed (count : nat)
| NotFound (message : jsstring)
| Failed (error : jsstring).

(** [res.status(n).json(body)]; [res.json(body)] sends 200. *)
Record Response := mkResponse {
  status : nat;
  body : Body
}.

(** [parseInt(req.query.maxResults) || default]; an absent parameter is
    read as the string of [undefined]. *)
Definition queryMaxResults (maxResults : option jsstring) (default : Z) : Z :=
  let n := parseInt (match maxResults with Some s => s | None => str "undefined" end) None in
  if truthy n then or_zero n else default.

(** What [require('./services/youtube')] gives, as far as the handlers
    read it beyond the functions: [module.exports] of the service lists
    nine functions, and neither [tokenizer] nor [sentiment]; reading a
    property that an object does not have gives [undefined], here [None]. *)
Record ServiceExports := mkServiceExports {
  exp_tokenizer : option (jsstring -> list jsstring);
  exp_sentiment : option (list jsstring -> option Q)
}.

Definition youtubeService : ServiceExports := mkServiceExports None None.

(** The document of a comment that the refresh stores. A score is [None]
    when it is not a finite number. *)
Record CommentSentiment := mkCommentSentiment {
  cs_score : option Q;
  cs_comparative : option Q;
  cs_classification : jsstring;
  cs_keywords : list jsstring
}.

Record AdRelated := mkAdRelated {
  isAdRelated : bool;
  ar_adKeywords : list jsstring;
  brandMentions : list jsstring
}.

Record SavedComment := mkSavedComment {
  sc_commentId : jsstring;
  sc_videoId : jsstring;
  sc_text : jsstring;
  sc_authorName : jsstring;
  sc_authorProfileUrl : jsstring;
  sc_likeCount : Z;
  sc_publishedAt : jsstring;
  sc_updatedAt : jsstring;
  sc_sentiment : CommentSentiment;
  sc_adRelated : AdRelated
}.

(** An element of [recentComments]. *)
Record RecentComment := mkRecentComment {
  rc_commentId : jsstring;
  rc_text : jsstring;
  rc_authorName : jsstring;
  rc_publishedAt : jsstring;
  rc_updatedAt : jsstring
}.

Section InsightRoutes.

Variable World : Type.

Local Notation "x <- m ;; k" := (bind m (fun x => k))
  (at level 61, m at next level, right associativity).

Variable toLowerCase : jsstring -> jsstring.
Variable tokenize : jsstring -> list jsstring.
Variable getSentiment : list jsstring -> option Q.
Variable youtube_videos_list : jsstring -> M World (option (list VideoItem)).
Variable youtube_commentThreads_list : jsstring -> nat -> M World (option (list CommentThread)).
Variable model_generateContent : Prompt -> M World jsstring.
Variable Video_findOneAndUpdate : jsstring -> AdInsights -> M World unit.
Variable Video_findOne : jsstring -> M World (option StoredVideo).
Variable clock : World -> Date.

(** [app.post('/api/videos/:videoId/generate-insights', ...)] *)
Definition generateInsightsHandler (videoId : jsstring) : M World Response :=
  try_catch
    (videoExists <- Video_findOne videoId ;;
     match videoExists with
     | None => ret (mkResponse 404 (NotFound (str "Video not found")))
     | Some _ =>
         result <- generateAdInsightsReport toLowerCase tokenize getSentiment
                     youtube_videos_list youtube_commentThreads_list
                     model_generateContent Video_findOneAndUpdate clock videoId ;;
         match result with
         | Failure error => ret (mkResponse 400 (Failed error))
         | Success report => ret (mkResponse 200 (ReportGenerated report))
         end
     end)
    (fun error => ret (mkResponse 500 (Failed error))).

End InsightRoutes.

Section FetchRoutes.

Variable World : Type.

Local Notation "x <- m ;; k" := (bind m (fun x => k))
  (at level 61, m at next level, right associativity).

Variable toLowerCase : jsstring -> jsstring.
Variable youtube_videos_list : jsstring -> M World (option (list VideoItem)).
Variable youtube_channels_list : jsstring -> M World (option (list ChannelItem)).
Variable youtube_playlistItems_list : jsstring -> Z -> M World (option (list ListedItem)).
Variable youtube_search_list : jsstring -> Z -> M World (option (list ListedItem)).
Variable Video_findOne : jsstring -> M World (option StoredVideo).
Variable Video_create : FetchedVideo -> M World unit.
Variable Video_findOneAndUpdate : jsstring -> FetchedVideo -> M World unit.

(** [app.get('/api/fetch-now', ...)] *)
Definition fetchNowHandler : M World Response :=
  try_catch
    (videos <- fetchAllVideos toLowerCase youtube_videos_list youtube_channels_list
                 youtube_playlistItems_list youtube_search_list Video_findOne
                 Video_create Video_findOneAndUpdate ;;
     ret (mkResponse 200 (VideosFetched (length videos))))
    (fun error => ret (mkResponse 500 (Failed error))).

(** [app.post('/api/fetch/channel/:channelId', ...)] *)
Definition fetchChannelHandler (channelId : jsstring) (maxResults : option jsstring)
  : M World Response :=
  try_catch
    (let maxResults := queryMaxResults maxResults 50 in
     videos <- fetchVideosFromChannel toLowerCase youtube_videos_list
                 youtube_channels_list youtube_playlistItems_list channelId maxResults ;;
     ret (mkResponse 200 (ChannelFetched channelId (length videos))))
    (fun error => ret (mkResponse 500 (Failed error))).

(** [app.post('/api/fetch/search/:keyword', ...)] *)
Definition fetchSearchHandler (keyword : jsstring) (maxResults : option jsstring)
  : M World Response :=
  try_catch
    (let maxResults := queryMaxResults maxResults 50 in
     videos <- searchVideos toLowerCase youtube_videos_list youtube_search_list
                 keyword maxResults ;;
     ret (mkResponse 200 (SearchFetched keyword (length videos))))
    (fun error => ret (mkResponse 500 (Failed error))).

End FetchRoutes.

Section CommentRoutes.

Variable World : Type.

Local Notation "x <- m ;; k" := (bind m (fun x => k))
  (at level 61, m at next level, right associativity).

Variable toLowerCase : jsstring -> jsstring.

(** The platform, with [maxResults] as the handler passes it, and the
    store: the lookup of the video, the upsert of a comment, the update of
    [commentCount] and [recentComments] of the video. *)
Variable youtube_commentThreads_list : jsstring -> Z -> M World (option (list CommentThread)).
Variable Video_findOne : jsstring -> M World (option StoredVideo).
Variable Comment_findOneAndUpdate : jsstring -> SavedComment -> M World unit.
Variable Video_findOneAndUpdate : jsstring -> nat -> list RecentComment -> M World unit.

(** [getVideoComments(videoId, maxResults)] of the service, called with
    both arguments. *)
Definition getVideoCommentsUpTo (videoId : jsstring) (maxResults : Z) : M World (list Comment) :=
  try_catch
    (response <- youtube_commentThreads_list videoId maxResults ;;
     match response with
     | None | Some [] => ret []
     | Some items =>
         ret (List.map
                (fun item =>
                   mkComment (ct_id item) (ct_textDisplay item)
                     (ct_authorDisplayName item) (ct_authorProfileImageUrl item)
                     (ct_likeCount item) (ct_publishedAt item) (ct_updatedAt item))
                items)
     end)
    (fun _ => ret []).

(** The loop [for (const comment of comments)] of the handler. Reading a
    method of [undefined] throws a TypeError, with the message that Node
    gives it, which the handler sends on; a comparison with a score that
    is not a number is false; a division by no token gives no finite
    number. *)
Fixpoint refreshEach (videoId : jsstring) (comments : list Comment)
  (savedComments : list SavedComment) : M World (list SavedComment) :=
  match comments with
  | [] => ret savedComments
  | comment :: comments' =>
      match exp_tokenizer youtubeService with
      | None => throw (str "Cannot read properties of undefined (reading 'tokenize')")
      | Some tokenizer_tokenize =>
          let tokens := tokenizer_tokenize (text comment) in
          match exp_sentiment youtubeService with
          | None =>
              throw (str "Cannot read properties of undefined (reading 'getSentiment')")
          | Some sentiment_getSentiment =>
              let sentimentScore := sentiment_getSentiment tokens in
              let classification :=
                match sentimentScore with
                | Some q =>
                    if Qltb 0.05 q then str "positive"
                    else if Qltb q (-0.05) then str "negative"
                    else str "neutral"
                | None => str "neutral"
                end in
              let foundAdKeywords :=
                filter (fun keyword => includes (toLowerCase (text comment)) keyword)
                  adKeywords in
              let newComment :=
                mkSavedComment (commentId comment) videoId (text comment)
                  (authorName comment) (authorProfileUrl comment) (likeCount comment)
                  (publishedAt comment) (updatedAt comment)
                  (mkCommentSentiment sentimentScore
                     (match sentimentScore, tokens with
                      | Some q, _ :: _ => Some (q / Qnat (length tokens))
                      | _, _ => None
                      end)
                     classification (firstn 10 tokens))
                  (mkAdRelated (0 <? length foundAdKeywords)%nat foundAdKeywords []) in
              _ <- Comment_findOneAndUpdate (commentId comment) newComment ;;
              refreshEach videoId comments' (savedComments ++ [newComment])
          end
      end
  end.

(** [app.post('/api/videos/:videoId/refresh-comments', ...)] *)
Definition refreshCommentsHandler (videoId : jsstring) (maxResults : option jsstring)
  : M World Response :=
  try_catch
    (let maxResults := queryMaxResults maxResults 100 in
     videoExists <- Video_findOne videoId ;;
     match videoExists with
     | None => ret (mkResponse 404 (NotFound (str "Video not found")))
     | Some _ =>
         comments <- getVideoCommentsUpTo videoId maxResults ;;
         match comments with
         | [] => ret (mkResponse 200 NoComments)
         | _ =>
             savedComments <- refreshEach videoId comments [] ;;
             _ <- Video_findOneAndUpdate videoId (length comments)
                    (List.map
                       (fun c =>
                          mkRecentComment (commentId c) (text c) (authorName c)
                            (publishedAt c) (updatedAt c))
                       (firstn 5 comments)) ;;
             ret (mkResponse 200 (CommentsRefreshed (length savedComments)))
         end
     end)
    (fun error => ret (mkResponse 500 (Failed error))).

End CommentRoutes.

(** * Properties *)

(** ** Strings *)

Lemma startsWith_spec (s p : jsstring) :
  startsWith s p = true <-> exists t, s = p ++ t.
Proof.
  revert s; induction p as [|a p IH]; intros s.
  - split; [intros _; now exists s | intros _; now destruct s].
  - destruct s as [|b s]; simpl.
    + split; [discriminate | intros [t Ht]; discriminate].
    + rewrite andb_true_iff, N.eqb_eq, IH. split.
      * intros [-> [t ->]]. now exists t.
      * intros [t Ht]. injection Ht as -> ->. split; [reflexivity | now exists t].
Qed.

Lemma includes_spec (s sub : jsstring) :
  includes s sub = true <-> exists u t, s = u ++ sub ++ t.
Proof.
  induction s as [|c s IH].
  - cbn [includes]. rewrite orb_false_r, startsWith_spec. split.
    + intros [t Ht]. now exists [], t.
    + intros [u [t Ht]]. destruct u; [now exists t|discriminate].
  - cbn [includes]. rewrite orb_true_iff, startsWith_spec, IH. split.
    + intros [[t Ht] | [u [t Ht]]].
      * now exists [], t.
      * exists (c :: u), t. now rewrite Ht.
    + intros [u [t Ht]]. destruct u as [|c' u].
      * left. now exists t.
      * right. injection Ht as -> ->. now exists u, t.
Qed.

(** Containment is transitive: a text that contains a phrase contains the
    phrases inside it. *)
Lemma includes_trans (s k2 k1 : jsstring) :
  includes s k2 = true -> includes k2 k1 = true -> includes s k1 = true.
Proof.
  rewrite !includes_spec. intros [u [t ->]] [u' [t' ->]].
  exists (u ++ u'), (t' ++ t). now rewrite <- !app_assoc.
Qed.

Lemma includes_nil_l (sub : jsstring) :
  includes [] sub = true -> sub = [].
Proof.
  cbn [includes]. rewrite orb_false_r. now destruct sub.
Qed.

Lemma jsstring_eqb_eq (a b : jsstring) : jsstring_eqb a b = true <-> a = b.
Proof.
  unfold jsstring_eqb. destruct (jsstring_eq_dec a b); split; congruence.
Qed.

Lemma arr_includes_In (l : list jsstring) (x : jsstring) :
  arr_includes l x = true <-> In x l.
Proof.
  unfold arr_includes. rewrite existsb_exists. split.
  - intros [y [Hy Heq]]. apply jsstring_eqb_eq in Heq. now subst.
  - intros H. exists x. split; [assumption | now apply jsstring_eqb_eq].
Qed.

Lemma dedup_aux_In (seen l : list jsstring) (x : jsstring) :
  In x (dedup_aux seen l) <-> In x l /\ ~ In x seen.
Proof.
  revert seen; induction l as [|y l IH]; intros seen; simpl.
  - tauto.
  - destruct (arr_includes seen y) eqn:E.
    + apply arr_includes_In in E. rewrite IH. split.
      * intros [H1 H2]. tauto.
      * intros [[->|H1] H2]; tauto.
    + assert (~ In y seen) as Hy.
      { intros H. apply arr_includes_In in H. congruence. }
      simpl. rewrite IH. simpl. split.
      * intros [->|[H1 H2]]; [tauto|]. split; [tauto|]. intros H. apply H2. now right.
      * intros [[->|H1] H2]; [tauto|].
        destruct (jsstring_eq_dec y x) as [->|Hne]; [tauto|]. right. split; [assumption|].
        intros [H|H]; tauto.
Qed.

(** Removing duplicates keeps the elements. *)
Lemma dedup_In (l : list jsstring) (x : jsstring) : In x (dedup l) <-> In x l.
Proof.
  unfold dedup. rewrite dedup_aux_In. simpl. tauto.
Qed.

(** ** [convertTimestampToSeconds] *)

(** The three forms of the specification, on its examples. *)
Example convertTimestampToSeconds_forms :
  convertTimestampToSeconds (Some (str "45")) = Some (Int 45) /\
  convertTimestampToSeconds (Some (str "1:30")) = Some (Int 90) /\
  convertTimestampToSeconds (Some (str "1:00:30")) = Some (Int 3630).
Proof. repeat split; reflexivity. Qed.

(** More than three parts, the empty string and [undefined] give [null]. *)
Example convertTimestampToSeconds_null :
  convertTimestampToSeconds (Some (str "1:2:3:4")) = None /\
  convertTimestampToSeconds (Some []) = None /\
  convertTimestampToSeconds None = None.
Proof. repeat split; reflexivity. Qed.

(** A part made of decimal digits is read as the integer it denotes. *)

Lemma digit_not_space (c : codeunit) : is_digit c = true -> is_space c = false.
Proof.
  unfold is_digit, is_space, in_range, one_of. intros H.
  apply andb_true_iff in H. destruct H as [H1 H2].
  apply N.leb_le in H1. apply N.leb_le in H2.
  apply orb_false_iff. split.
  - cbn [existsb]. repeat (apply orb_false_iff; split); try reflexivity;
      apply N.eqb_neq; lia.
  - apply andb_false_iff. left. apply N.leb_gt. lia.
Qed.

Lemma digit_value_digit (c : codeunit) :
  is_digit c = true -> digit_value c = Some (c - 48)%N /\ (c - 48 < 10)%N.
Proof.
  unfold digit_value. intros H. rewrite H. split; [reflexivity|].
  unfold is_digit, in_range in H. apply andb_true_iff in H. destruct H as [H1 H2].
  apply N.leb_le in H1. apply N.leb_le in H2. lia.
Qed.

Lemma digits_prefix_digits (ds : jsstring) (acc : N) :
  forallb is_digit ds = true ->
  digits_prefix 10 ds (Some acc) = Some (fold_left (fun a c => a * 10 + (c - 48))%N ds acc).
Proof.
  revert acc; induction ds as [|c ds IH]; intros acc H; [reflexivity|].
  cbn [forallb] in H. apply andb_true_iff in H. destruct H as [Hc Hds].
  destruct (digit_value_digit c Hc) as [Hv Hlt].
  cbn [digits_prefix fold_left]. rewrite Hv.
  apply N.ltb_lt in Hlt. rewrite Hlt. now apply IH.
Qed.

Lemma strip_sign_digit (c : codeunit) (ds : jsstring) :
  is_digit c = true -> strip_sign (c :: ds) = (1%Z, c :: ds).
Proof.
  unfold is_digit, in_range. intros H.
  apply andb_true_iff in H. destruct H as [H1 H2].
  apply N.leb_le in H1. apply N.leb_le in H2.
  destruct (N.eq_dec c 45) as [->|H45]; [lia|].
  destruct (N.eq_dec c 43) as [->|H43]; [lia|].
  unfold strip_sign. destruct c as [|p]; [reflexivity|].
  do 6 (destruct p as [p|p|]; try reflexivity); congruence.
Qed.

Lemma parseInt_digits (ds : jsstring) :
  ds <> [] -> forallb is_digit ds = true ->
  parseInt ds (Some 10%N) = Int (Z.of_N (decimal ds)).
Proof.
  intros Hne H. destruct ds as [|c ds]; [congruence|].
  cbn [forallb] in H. apply andb_true_iff in H. destruct H as [Hc Hds].
  destruct (digit_value_digit c Hc) as [Hv Hlt]. apply N.ltb_lt in Hlt.
  unfold parseInt. cbn [dropWhile]. rewrite (digit_not_space c Hc), (strip_sign_digit c ds Hc).
  cbn -[digits_prefix Z.mul Z.of_N]. cbn [digits_prefix]. rewrite Hv, Hlt.
  rewrite digits_prefix_digits by exact Hds.
  unfold decimal. cbn [fold_left]. now rewrite Z.mul_1_l.
Qed.

Lemma digit_not_colon (c : codeunit) : is_digit c = true -> (c =? colon)%N = false.
Proof.
  unfold is_digit, in_range, colon. intros H.
  apply andb_true_iff in H. destruct H as [H1 H2].
  apply N.leb_le in H1. apply N.leb_le in H2. apply N.eqb_neq. lia.
Qed.

Lemma split_on_aux_digits (ds rest cur : jsstring) :
  forallb is_digit ds = true ->
  split_on_aux colon (ds ++ rest) cur = split_on_aux colon rest (rev ds ++ cur).
Proof.
  revert cur; induction ds as [|c ds IH]; intros cur H; [reflexivity|].
  cbn [forallb] in H. apply andb_true_iff in H. destruct H as [Hc Hds].
  cbn [app split_on_aux]. rewrite (digit_not_colon c Hc), IH by exact Hds.
  cbn [rev]. now rewrite <- app_assoc.
Qed.

Lemma split_on_digits_last (ds : jsstring) :
  forallb is_digit ds = true -> split_on colon ds = [ds].
Proof.
  intros H. unfold split_on. rewrite <- (app_nil_r ds) at 1.
  rewrite split_on_aux_digits by exact H. cbn. now rewrite app_nil_r, rev_involutive.
Qed.

Lemma split_on_digits_cons (ds rest : jsstring) :
  forallb is_digit ds = true ->
  split_on colon (ds ++ colon :: rest) = ds :: split_on colon rest.
Proof.
  intros H. unfold split_on. rewrite split_on_aux_digits by exact H.
  cbn. now rewrite app_nil_r, rev_involutive.
Qed.

(** The forms [s], [m:s] and [h:m:s] of decimal digits give the seconds
    they denote. *)
Lemma convertTimestampToSeconds_digits (h m s : jsstring) :
  h <> [] -> m <> [] -> s <> [] ->
  forallb is_digit h = true -> forallb is_digit m = true -> forallb is_digit s = true ->
  convertTimestampToSeconds (Some s) = Some (Int (Z.of_N (decimal s))) /\
  convertTimestampToSeconds (Some (m ++ colon :: s))
  = Some (Int (Z.of_N (decimal m) * 60 + Z.of_N (decimal s))) /\
  convertTimestampToSeconds (Some (h ++ colon :: m ++ colon :: s))
  = Some (Int (Z.of_N (decimal h) * 3600 + Z.of_N (decimal m) * 60 + Z.of_N (decimal s))).
Proof.
  intros Hh Hm Hs Dh Dm Ds. unfold convertTimestampToSeconds. repeat split.
  - destruct s as [|c s']; [congruence|]. rewrite split_on_digits_last by exact Ds.
    now rewrite parseInt_digits.
  - destruct m as [|c m']; [congruence|]. cbn [app].
    change (c :: m' ++ colon :: s) with ((c :: m') ++ colon :: s).
    rewrite split_on_digits_cons, split_on_digits_last by assumption.
    now rewrite !parseInt_digits.
  - destruct h as [|c h']; [congruence|]. cbn [app].
    change (c :: h' ++ colon :: m ++ colon :: s) with ((c :: h') ++ colon :: m ++ colon :: s).
    rewrite !split_on_digits_cons, split_on_digits_last by assumption.
    now rewrite !parseInt_digits.
Qed.

(** [null] is returned for the empty timestamp and for more than three
    parts, and for nothing else: a part that is not an integer does not
    give [null]. *)
Lemma convertTimestampToSeconds_null_iff (ts : jsstring) :
  convertTimestampToSeconds (Some ts) = None <->
  ts = [] \/ (3 < length (split_on colon ts))%nat.
Proof.
  unfold convertTimestampToSeconds. destruct ts as [|c ts].
  - split; [now left | reflexivity].
  - destruct (split_on colon (c :: ts)) as [|p0 [|p1 [|p2 [|p3 ps]]]] eqn:E; cbn [length].
    + unfold split_on in E. cbn [split_on_aux] in E.
      destruct (c =? colon)%N; [discriminate|].
      exfalso. clear -E. revert E. generalize [c]. induction ts as [|x ts IH]; intros cur E.
      * discriminate.
      * cbn [split_on_aux] in E. destruct (x =? colon)%N; [discriminate|]. now apply IH in E.
    + split; [discriminate|]. intros [H|H]; [discriminate|lia].
    + split; [discriminate|]. intros [H|H]; [discriminate|lia].
    + split; [discriminate|]. intros [H|H]; [discriminate|lia].
    + split; [intros _; right; lia | reflexivity].
Qed.

(** C2, at the input the specification names and in general: a part that
    is not an integer makes [parseInt] return [NaN], and
    [convertTimestampToSeconds] returns that [NaN], not the [null] its
    documentation and its caller expect; [null] is the result for the empty
    timestamp and for more than three parts only. *)
Theorem convertTimestampToSeconds_abc_is_NaN :
  convertTimestampToSeconds (Some (str "abc")) = Some NaN /\
  (forall ts : jsstring,
     convertTimestampToSeconds (Some ts) = None <->
     ts = [] \/ (3 < length (split_on colon ts))%nat).
Proof.
  split.
  - reflexivity.
  - exact convertTimestampToSeconds_null_iff.
Qed.

(** ** The matcher *)

(** Every result of the matcher comes from one way of matching the
    pattern, followed by the continuation. *)
Lemma rmatch_sound (r : regex) :
  forall (s : jsstring) (caps : captures) (k : jsstring -> captures -> outcome)
         (res : jsstring * captures),
    rmatch r s caps k = Some res ->
    exists s1 c1, derives r s caps s1 c1 /\ k s1 c1 = Some res.
Proof.
  induction r as [p| |r1 IH1 r2 IH2|r1 IH1 r2 IH2|r1 IH1|n r1 IH1];
    intros s caps k res H; cbn [rmatch] in H.
  - destruct s as [|c s]; [discriminate|]. destruct (p c) eqn:E; [|discriminate].
    exists s, caps. split; [now constructor | exact H].
  - exists s, caps. split; [constructor | exact H].
  - apply IH1 in H. destruct H as (s1 & c1 & D1 & H).
    apply IH2 in H. destruct H as (s2 & c2 & D2 & H).
    exists s2, c2. split; [econstructor; eassumption | exact H].
  - destruct (rmatch r1 s caps k) eqn:E.
    + injection H as <-. apply IH1 in E. destruct E as (s1 & c1 & D & E).
      exists s1, c1. split; [now apply D_AltL | exact E].
    + apply IH2 in H. destruct H as (s1 & c1 & D & H).
      exists s1, c1. split; [now apply D_AltR | exact H].
  - revert H. generalize (length s) at 1. intros fuel. revert s caps.
    induction fuel as [|fuel IHf]; intros s caps H; cbn [star_loop] in H.
    + exists s, caps. split; [constructor | exact H].
    + match type of H with
      | match ?m with _ => _ end = _ => destruct m eqn:E
      end.
      * injection H as <-. apply IH1 in E. destruct E as (s1 & c1 & D & E).
        destruct (length s1 <? length s)%nat eqn:L; [|discriminate].
        apply Nat.ltb_lt in L. apply IHf in E. destruct E as (s2 & c2 & D2 & E).
        exists s2, c2. split; [|exact E]. eapply D_StarStep; eassumption.
      * exists s, caps. split; [constructor | exact H].
  - apply IH1 in H. destruct H as (s1 & c1 & D & H).
    exists s1, ((n, firstn (length s - length s1) s) :: c1).
    split; [now constructor | exact H].
Qed.

(** What is derived is a prefix. *)
Lemma derives_prefix (r : regex) (s : jsstring) (caps : captures) (s1 : jsstring)
  (c1 : captures) :
  derives r s caps s1 c1 -> exists g, s = g ++ s1.
Proof.
  induction 1 as [p c s caps Hp|s caps|r1 r2 s caps s1 c1 s2 c2 _ [g1 ->] _ [g2 ->]
                 |r1 r2 s caps s1 c1 _ IH|r1 r2 s caps s1 c1 _ IH|r s caps
                 |r s caps s1 c1 s2 c2 _ [g1 ->] _ _ [g2 ->]|n r s caps s1 c1 _ IH].
  - now exists [c].
  - now exists [].
  - exists (g1 ++ g2). now rewrite app_assoc.
  - exact IH.
  - exact IH.
  - now exists [].
  - exists (g1 ++ g2). now rewrite app_assoc.
  - exact IH.
Qed.

Lemma consumed_prefix (g s1 : jsstring) :
  firstn (length (g ++ s1) - length s1) (g ++ s1) = g.
Proof.
  rewrite length_app, Nat.add_sub. rewrite firstn_app, Nat.sub_diag, firstn_all.
  cbn. now rewrite app_nil_r.
Qed.

(** The matcher only looks at what its continuation returns. *)
Lemma rmatch_ext (r : regex) :
  forall (s : jsstring) (caps : captures) (k1 k2 : jsstring -> captures -> outcome),
    (forall s' c', k1 s' c' = k2 s' c') ->
    rmatch r s caps k1 = rmatch r s caps k2.
Proof.
  induction r as [p| |r1 IH1 r2 IH2|r1 IH1 r2 IH2|r1 IH1|n r1 IH1];
    intros s caps k1 k2 E; cbn [rmatch].
  - destruct s as [|c s]; [reflexivity|]. destruct (p c); [apply E | reflexivity].
  - apply E.
  - apply IH1. intros s' c'. now apply IH2.
  - rewrite (IH1 s caps k1 k2 E), (IH2 s caps k1 k2 E). reflexivity.
  - generalize (length s). intros fuel. revert s caps.
    induction fuel as [|fuel IHf]; intros s caps; cbn [star_loop]; [apply E|].
    rewrite E.
    rewrite (IH1 s caps _
               (fun s1 c1 =>
                  if (length s1 <? length s)%nat
                  then star_loop (rmatch r1) k2 fuel s1 c1 else None)).
    + reflexivity.
    + intros s' c'. destruct (length s' <? length s)%nat; [apply IHf | reflexivity].
  - apply IH1. intros s' c'. apply E.
Qed.

(** A continuation that always fails makes the matcher fail. *)
Lemma rmatch_none (r : regex) :
  forall (s : jsstring) (caps : captures) (k : jsstring -> captures -> outcome),
    (forall s' c', k s' c' = None) -> rmatch r s caps k = None.
Proof.
  induction r as [p| |r1 IH1 r2 IH2|r1 IH1 r2 IH2|r1 IH1|n r1 IH1];
    intros s caps k E; cbn [rmatch].
  - destruct s as [|c s]; [reflexivity|]. destruct (p c); [apply E | reflexivity].
  - apply E.
  - apply IH1. intros s' c'. now apply IH2.
  - now rewrite IH1, IH2.
  - generalize (length s). intros fuel. revert s caps.
    induction fuel as [|fuel IHf]; intros s caps; cbn [star_loop]; [apply E|].
    rewrite IH1; [apply E|].
    intros s' c'. destruct (length s' <? length s)%nat; [apply IHf | reflexivity].
  - apply IH1. intros s' c'. apply E.
Qed.

(** The bound on the iterations of [r*] is never met: any fuel that is at
    least the length of the input gives the same result. *)
Lemma star_loop_fuel (r : regex) (k : jsstring -> captures -> outcome) :
  forall (fuel1 fuel2 : nat) (s : jsstring) (caps : captures),
    (length s <= fuel1)%nat -> (length s <= fuel2)%nat ->
    star_loop (rmatch r) k fuel1 s caps = star_loop (rmatch r) k fuel2 s caps.
Proof.
  assert (forall fuel s caps, length s = 0%nat ->
            star_loop (rmatch r) k fuel s caps = k s caps) as Empty.
  { intros [|fuel] s caps L; cbn [star_loop]; [reflexivity|].
    rewrite rmatch_none; [reflexivity|]. intros s' c'. now rewrite L. }
  induction fuel1 as [|fuel1 IH]; intros fuel2 s caps L1 L2.
  - rewrite !Empty by lia. reflexivity.
  - destruct fuel2 as [|fuel2]; [rewrite !Empty by lia; reflexivity|].
    cbn [star_loop].
    rewrite (rmatch_ext r s caps _
               (fun s1 c1 =>
                  if (length s1 <? length s)%nat
                  then star_loop (rmatch r) k fuel2 s1 c1 else None)).
    + reflexivity.
    + intros s' c'. destruct (length s' <? length s)%nat eqn:L; [|reflexivity].
      apply Nat.ltb_lt in L. apply IH; lia.
Qed.

(** The greedy star without the bound: one more iteration of [r] that
    consumes something and then the star again, or else the continuation. *)
Lemma rmatch_Star (r : regex) (s : jsstring) (caps : captures)
  (k : jsstring -> captures -> outcome) :
  rmatch (Star r) s caps k
  = match rmatch r s caps
            (fun s1 c1 =>
               if (length s1 <? length s)%nat then rmatch (Star r) s1 c1 k else None)
    with
    | Some x => Some x
    | None => k s caps
    end.
Proof.
  cbn [rmatch].
  rewrite (@star_loop_fuel r k (length s) (S (length s)) s caps) by lia.
  cbn [star_loop].
  rewrite (rmatch_ext r s caps _
             (fun s1 c1 =>
                if (length s1 <? length s)%nat
                then star_loop (rmatch r) k (length s1) s1 c1 else None)).
  - reflexivity.
  - intros s' c'. destruct (length s' <? length s)%nat eqn:L; [|reflexivity].
    apply Nat.ltb_lt in L. apply star_loop_fuel; lia.
Qed.

Lemma match_here_lengths (r : regex) (s : jsstring) (m : match_result) :
  match_here r s = Some m -> (length (matched m) + length (rest m) = length s)%nat.
Proof.
  unfold match_here.
  destruct (rmatch r s [] _) as [[s1 c1]|] eqn:E; [|discriminate].
  intros H. injection H as <-. apply rmatch_sound in E.
  destruct E as (s2 & c2 & D & E). injection E as -> ->.
  apply derives_prefix in D. destruct D as [g ->]. cbn [matched rest].
  rewrite consumed_prefix, length_app. reflexivity.
Qed.

(** A match and the rest after it fit in the text. *)
Lemma search_lengths (r : regex) (s : jsstring) (m : match_result) :
  search r s = Some m -> (length (matched m) + length (rest m) <= length s)%nat.
Proof.
  induction s as [|c s IH]; cbn [search].
  - destruct (match_here r []) as [m'|] eqn:E; [|discriminate].
    intros H. injection H as <-. apply match_here_lengths in E. lia.
  - destruct (match_here r (c :: s)) as [m'|] eqn:E.
    + intros H. injection H as <-. apply match_here_lengths in E. lia.
    + intros H. apply IH in H. cbn [length]. lia.
Qed.

(** The bound on the number of matches of a global search is never met. *)
Lemma match_all_aux_fuel (r : regex) :
  forall (fuel1 fuel2 : nat) (s : jsstring),
    (length s < fuel1)%nat -> (length s < fuel2)%nat ->
    match_all_aux fuel1 r s = match_all_aux fuel2 r s.
Proof.
  induction fuel1 as [|fuel1 IH]; intros fuel2 s L1 L2; [lia|].
  destruct fuel2 as [|fuel2]; [lia|]. cbn [match_all_aux].
  destruct (search r s) as [m|] eqn:E; [|reflexivity].
  apply search_lengths in E. f_equal.
  destruct (matched m) as [|x g]; destruct (rest m) as [|y t]; cbn [length] in E;
    try reflexivity; apply IH; cbn [length]; lia.
Qed.

(** A pattern without group leaves the captures as they are. *)
Lemma derives_groupless (r : regex) (s : jsstring) (caps : captures) (s1 : jsstring)
  (c1 : captures) :
  derives r s caps s1 c1 -> groupless r = true -> c1 = caps.
Proof.
  induction 1 as [p c s caps Hp|s caps|r1 r2 s caps s1 c1 s2 c2 _ IH1 _ IH2
                 |r1 r2 s caps s1 c1 _ IH|r1 r2 s caps s1 c1 _ IH|r s caps
                 |r s caps s1 c1 s2 c2 _ IH1 _ _ IH2|n r s caps s1 c1 _ IH];
    cbn [groupless]; intros G; try reflexivity.
  - apply andb_true_iff in G. destruct G as [G1 G2]. now rewrite IH2, IH1.
  - apply andb_true_iff in G. now apply IH.
  - apply andb_true_iff in G. now apply IH.
  - now rewrite IH2, IH1.
  - discriminate.
Qed.

(** A run of a character class. *)
Lemma derives_star_class (p : codeunit -> bool) (s : jsstring) (caps : captures)
  (s1 : jsstring) (c1 : captures) :
  derives (Star (Chr p)) s caps s1 c1 ->
  exists d, s = d ++ s1 /\ forallb p d = true.
Proof.
  intros D. remember (Star (Chr p)) as r eqn:Er.
  induction D as [| | | | |r s caps|r s caps s1 c1 s2 c2 D1 _ L _ IH2|]; try discriminate.
  - now exists [].
  - injection Er as ->. destruct (IH2 eq_refl) as (d & -> & Hd).
    inversion D1; subst. exists (c :: d). split; [reflexivity|].
    cbn [forallb]. rewrite Hd.
    match goal with H : p c = true |- _ => now rewrite H end.
Qed.

Lemma derives_timestampPattern (s : jsstring) (caps : captures) (s1 : jsstring)
  (c1 : captures) :
  derives timestampPattern s caps s1 c1 ->
  exists g, s = g ++ s1 /\ timestampText g.
Proof.
  unfold timestampPattern, Plus, Opt. intros D.
  inversion D as [| |? ? ? ? sa ca ? ? Da Db| | | | |]; subst; clear D.
  inversion Da as [| |? ? ? ? sb cb ? ? Dc Dd| | | | |]; subst; clear Da.
  inversion Dc; subst; clear Dc.
  apply derives_star_class in Dd. destruct Dd as (d1 & -> & Hd1).
  inversion Db as [| |? ? ? ? sc cc ? ? De Df| | | | |]; subst; clear Db.
  apply derives_star_class in Df. destruct Df as (d2 & -> & Hd2).
  inversion De as [| | |? ? ? ? ? ? Dg|? ? ? ? ? ? Dg| | |]; subst; clear De.
  - inversion Dg; subst; clear Dg.
    match goal with H : (_ =? _)%N = true |- _ => apply N.eqb_eq in H; subst end.
    exists ((c :: d1) ++ [colon] ++ d2). split.
    + now rewrite <- !app_assoc.
    + exists (c :: d1), [colon], d2. repeat split; try assumption; try discriminate.
      * cbn [forallb]. rewrite Hd1.
        match goal with H : is_digit c = true |- _ => now rewrite H end.
      * now right.
  - inversion Dg; subst; clear Dg.
    exists ((c :: d1) ++ [] ++ d2). split.
    + cbn [app]. now rewrite <- app_assoc.
    + exists (c :: d1), [], d2. repeat split; try assumption; try discriminate.
      * cbn [forallb]. rewrite Hd1.
        match goal with H : is_digit c = true |- _ => now rewrite H end.
      * now left.
Qed.

Lemma derives_Seq_inv (r1 r2 : regex) (s : jsstring) (caps : captures) (s2 : jsstring)
  (c2 : captures) :
  derives (Seq r1 r2) s caps s2 c2 ->
  exists s1 c1, derives r1 s caps s1 c1 /\ derives r2 s1 c1 s2 c2.
Proof. intros D. inversion D; subst. eauto. Qed.

Lemma derives_Group_inv (n : nat) (r : regex) (s : jsstring) (caps : captures)
  (s1 : jsstring) (c1 : captures) :
  derives (Group n r) s caps s1 c1 ->
  exists c', derives r s caps s1 c' /\ c1 = (n, firstn (length s - length s1) s) :: c'.
Proof. intros D. inversion D; subst. eauto. Qed.

Lemma derives_Opt_inv (r : regex) (s : jsstring) (caps : captures) (s1 : jsstring)
  (c1 : captures) :
  derives (Opt r) s caps s1 c1 ->
  derives r s caps s1 c1 \/ (s1 = s /\ c1 = caps).
Proof.
  unfold Opt. intros D. inversion D as [| | |? ? ? ? ? ? D'|? ? ? ? ? ? D'| | |]; subst.
  - now left.
  - inversion D'; subst. now right.
Qed.

(** A timestamp group captures the text of a timestamp. *)
Lemma derives_timestamp_group (n : nat) (s : jsstring) (caps : captures) (s1 : jsstring)
  (c1 : captures) :
  derives (Group n timestampPattern) s caps s1 c1 ->
  exists g, timestampText g /\ c1 = (n, g) :: caps.
Proof.
  intros D. apply derives_Group_inv in D. destruct D as (c' & D & ->).
  pose proof (derives_groupless D eq_refl) as ->.
  apply derives_timestampPattern in D. destruct D as (g & -> & T).
  exists g. split; [exact T|]. now rewrite consumed_prefix.
Qed.

(** The groups of a match of the ad-segment pattern: the first is the text
    of a timestamp, the second is absent or the text of a timestamp. *)
Lemma derives_adTimestampRegex (s s1 : jsstring) (c1 : captures) :
  derives adTimestampRegex s [] s1 c1 ->
  exists g1, timestampText g1 /\ group 1 c1 = Some g1 /\
    (group 2 c1 = None \/ exists g2, timestampText g2 /\ group 2 c1 = Some g2).
Proof.
  unfold adTimestampRegex. intros D.
  apply derives_Seq_inv in D. destruct D as (sa & ca & D1 & D).
  apply derives_timestamp_group in D1. destruct D1 as (g1 & T1 & ->).
  apply derives_Seq_inv in D. destruct D as (sb & cb & D2 & D).
  apply derives_groupless in D2; [subst cb | reflexivity].
  apply derives_Seq_inv in D. destruct D as (sc & cc & D3 & D).
  apply derives_groupless in D3; [subst cc | reflexivity].
  apply derives_Seq_inv in D. destruct D as (sd & cd & D4 & D).
  apply derives_groupless in D4; [subst cd | reflexivity].
  apply derives_Seq_inv in D. destruct D as (se & ce & D5 & D).
  apply derives_Seq_inv in D. destruct D as (sf & cf & D6 & D).
  apply derives_groupless in D6; [subst cf | reflexivity].
  apply derives_Group_inv in D. destruct D as (c' & D7 & ->).
  apply derives_groupless in D7; [subst c' | reflexivity].
  exists g1. split; [exact T1|].
  apply derives_Opt_inv in D5. destruct D5 as [D5 | [_ ->]].
  - apply derives_timestamp_group in D5. destruct D5 as (g2 & T2 & ->).
    split; [reflexivity|]. right. exists g2. now split.
  - split; [reflexivity|]. now left.
Qed.

Lemma search_sound (r : regex) (s : jsstring) (m : match_result) :
  search r s = Some m ->
  exists t s1, derives r t [] s1 (groups m).
Proof.
  induction s as [|c s IH]; cbn [search]; unfold match_here.
  - destruct (rmatch r [] [] _) as [[s1 c1]|] eqn:E; [|discriminate].
    intros H. injection H as <-. apply rmatch_sound in E.
    destruct E as (s2 & c2 & D & E). injection E as -> ->. now exists [], s1.
  - destruct (rmatch r (c :: s) [] _) as [[s1 c1]|] eqn:E.
    + intros H. injection H as <-. apply rmatch_sound in E.
      destruct E as (s2 & c2 & D & E). injection E as -> ->. now exists (c :: s), s1.
    + exact IH.
Qed.

(** [convertTimestampToSeconds] never gives [null] on the text of a
    timestamp of the pattern. *)
Lemma convertTimestampToSeconds_timestampText (g : jsstring) :
  timestampText g -> exists n, convertTimestampToSeconds (Some g) = Some n.
Proof.
  intros (d1 & c & d2 & -> & Hne & H1 & Hc & H2).
  destruct d1 as [|x d1]; [congruence|]. unfold convertTimestampToSeconds.
  destruct Hc as [-> | ->].
  - cbn [app]. change (x :: d1 ++ d2) with ((x :: d1) ++ d2).
    rewrite split_on_digits_last; [eauto|].
    rewrite forallb_app. now rewrite H1, H2.
  - change ((x :: d1) ++ [colon] ++ d2) with ((x :: d1) ++ colon :: d2).
    cbn [app]. change (x :: d1 ++ colon :: d2) with ((x :: d1) ++ colon :: d2).
    rewrite split_on_digits_cons, split_on_digits_last by assumption. eauto.
Qed.

Lemma timestampText_nonempty (g : jsstring) : timestampText g -> g <> [].
Proof.
  intros (d1 & c & d2 & -> & Hne & _). destruct d1; [congruence|discriminate].
Qed.

(** ** [detectSponsorship] *)

Section DetectProperties.

Variable toLowerCase : jsstring -> jsstring.

Local Abbreviation detect := (detectSponsorship toLowerCase).

Lemma sponsorKeywords_nonempty (k : jsstring) : In k sponsorKeywords -> k <> [].
Proof.
  intros H ->. simpl in H.
  repeat (destruct H as [H|H]; [discriminate|]). exact H.
Qed.

Lemma scanDescriptionKeyword_indicators (d dl : jsstring) (st : Detection) (k : jsstring) :
  d_adIndicators (scanDescriptionKeyword toLowerCase d dl st k)
  = d_adIndicators st ++ (if includes dl k then [k] else []).
Proof.
  unfold scanDescriptionKeyword. destruct (includes dl k).
  - destruct (fold_left _ _ _) as [details brands]. reflexivity.
  - now rewrite app_nil_r.
Qed.

(** The loop over the description records exactly the phrases the
    lower-cased description contains, in the order of the list. *)
Lemma description_loop_indicators (d dl : jsstring) (kws : list jsstring) (st : Detection) :
  d_adIndicators (fold_left (scanDescriptionKeyword toLowerCase d dl) kws st)
  = d_adIndicators st ++ filter (includes dl) kws.
Proof.
  revert st; induction kws as [|k kws IH]; intros st; simpl.
  - now rewrite app_nil_r.
  - rewrite IH, scanDescriptionKeyword_indicators, <- app_assoc.
    now destruct (includes dl k).
Qed.

Lemma scanTagKeyword_keeps (tl : jsstring) (st : Detection) (kw k : jsstring) :
  In k (d_adIndicators st) -> In k (d_adIndicators (scanTagKeyword tl st kw)).
Proof.
  unfold scanTagKeyword. destruct (_ && _); simpl; [|tauto].
  intros H. apply in_or_app. now left.
Qed.

Lemma tag_keywords_keep (kws : list jsstring) (tl : jsstring) (st : Detection)
  (k : jsstring) :
  In k (d_adIndicators st) ->
  In k (d_adIndicators (fold_left (scanTagKeyword tl) kws st)).
Proof.
  revert st; induction kws as [|kw kws IH]; intros st H; simpl; [assumption|].
  apply IH. apply scanTagKeyword_keeps. exact H.
Qed.

Lemma scanTag_keeps (st : Detection) (tag k : jsstring) :
  In k (d_adIndicators st) -> In k (d_adIndicators (scanTag toLowerCase st tag)).
Proof.
  intros H. unfold scanTag. cbv zeta.
  generalize (tag_keywords_keep sponsorKeywords (toLowerCase tag) st k H).
  generalize (fold_left (scanTagKeyword (toLowerCase tag)) sponsorKeywords st).
  intros st1 H1. destruct (_ && _); exact H1.
Qed.

Lemma tags_loop_keeps (tags : list jsstring) (st : Detection) (k : jsstring) :
  In k (d_adIndicators st) -> In k (d_adIndicators (fold_left (scanTag toLowerCase) tags st)).
Proof.
  revert st; induction tags as [|tag tags IH]; intros st H; simpl; [assumption|].
  apply IH. apply scanTag_keeps. exact H.
Qed.

Lemma scanTags_keeps (tags : TagsArg) (st : Detection) (k : jsstring) :
  In k (d_adIndicators st) -> In k (d_adIndicators (scanTags toLowerCase tags st)).
Proof.
  intros H. destruct tags; try exact H. apply tags_loop_keeps. exact H.
Qed.

Lemma scanTimestamps_keeps (description : nullable jsstring) (st : Detection) (k : jsstring) :
  In k (d_adIndicators st) ->
  In k (d_adIndicators (fst (scanTimestamps description st))).
Proof.
  intros H. unfold scanTimestamps. destruct (timestampMatches description) as [m|].
  - cbn [fst d_adIndicators]. apply in_or_app. left. exact H.
  - exact H.
Qed.

Lemma scanTimestamps_adDuration (description : nullable jsstring) (st : Detection) :
  snd (scanTimestamps description st)
  = match timestampMatches description with
    | Some m => computeAdDuration (group 1 (groups m)) (group 2 (groups m))
    | None => None
    end.
Proof.
  unfold scanTimestamps. destruct (timestampMatches description); reflexivity.
Qed.

(** The two fields of the result that the properties below are about, in
    terms of the stages. *)
Lemma detectSponsorship_fields (description : nullable jsstring) (tags : TagsArg) :
  let st3 :=
    scanTimestamps description
      (scanTags toLowerCase tags
         (scanDescription toLowerCase description (mkDetection false [] [] []))) in
  adIndicators (detect description tags)
  = (if (0 <? length (d_adIndicators (fst st3)))%nat
     then dedup (d_adIndicators (fst st3)) else []) /\
  adDuration (detect description tags) = snd st3.
Proof.
  unfold detectSponsorship. destruct (scanTimestamps _ _) as [st3 d]. split; reflexivity.
Qed.

Lemma nonempty_dedup (l : list jsstring) (k : jsstring) :
  In k l -> In k (if (0 <? length l)%nat then dedup l else []).
Proof.
  intros H. destruct l as [|x l]; [contradiction|].
  cbn [length Nat.ltb Nat.leb]. apply dedup_In. exact H.
Qed.

(** A phrase of the list that the lower-cased description contains is in
    the [adIndicators] of the result. *)
Lemma detectSponsorship_records (d : jsstring) (tags : TagsArg) (k : jsstring) :
  d <> [] -> In k sponsorKeywords -> includes (toLowerCase d) k = true ->
  In k (adIndicators (detect (val d) tags)).
Proof.
  intros Hd Hk Hin.
  destruct (detectSponsorship_fields (val d) tags) as [-> _].
  apply nonempty_dedup, scanTimestamps_keeps, scanTags_keeps.
  destruct d as [|c d]; [congruence|].
  unfold scanDescription. cbn [truthy_string].
  rewrite description_loop_indicators. cbn [d_adIndicators app].
  apply filter_In. split; assumption.
Qed.

Lemma tag_keywords_indicators (kws : list jsstring) (tl : jsstring) (st : Detection)
  (k : jsstring) :
  In k (d_adIndicators (fold_left (scanTagKeyword tl) kws st)) <->
  In k (d_adIndicators st) \/ (In k kws /\ includes tl k = true).
Proof.
  revert st; induction kws as [|kw kws IH]; intros st; cbn [fold_left In].
  - tauto.
  - rewrite IH. unfold scanTagKeyword.
    destruct (includes tl kw) eqn:E1; cbn [andb].
    + destruct (arr_includes (d_adIndicators st) kw) eqn:E2; cbn [negb d_adIndicators].
      * apply arr_includes_In in E2. split.
        -- intros [H | [H1 H2]]; [now left | right; tauto].
        -- intros [H | [[-> | H1] H2]]; [now left | now left | right; tauto].
      * rewrite in_app_iff. cbn [In]. split.
        -- intros [[H | [-> | []]] | [H1 H2]]; [now left | right; tauto | right; tauto].
        -- intros [H | [[-> | H1] H2]]; [tauto | tauto | right; tauto].
    + split.
      * intros [H | [H1 H2]]; [now left | right; tauto].
      * intros [H | [[-> | H1] H2]]; [now left | congruence | right; tauto].
Qed.

Lemma scanTag_indicators (st : Detection) (tag k : jsstring) :
  In k (d_adIndicators (scanTag toLowerCase st tag)) <->
  In k (d_adIndicators st) \/ (In k sponsorKeywords /\ includes (toLowerCase tag) k = true).
Proof.
  rewrite <- tag_keywords_indicators. unfold scanTag. cbv zeta.
  generalize (fold_left (scanTagKeyword (toLowerCase tag)) sponsorKeywords st).
  intros st1. destruct (_ && _); reflexivity.
Qed.

Lemma scanTag_closed (st : Detection) (tag : jsstring) :
  closed (d_adIndicators st) -> closed (d_adIndicators (scanTag toLowerCase st tag)).
Proof.
  intros C k1 k2 H1 H2 Hsub Hin. apply scanTag_indicators in Hin. apply scanTag_indicators.
  destruct Hin as [Hin | [_ Hin]].
  - left. now apply (C k1 k2).
  - right. split; [exact H1|]. now apply includes_trans with k2.
Qed.

Lemma scanTags_closed (tags : TagsArg) (st : Detection) :
  closed (d_adIndicators st) -> closed (d_adIndicators (scanTags toLowerCase tags st)).
Proof.
  intros C. destruct tags as [| | |l]; try exact C. cbn [scanTags].
  revert st C; induction l as [|tag l IH]; intros st C; [exact C|].
  cbn [fold_left]. apply IH. now apply scanTag_closed.
Qed.

Lemma scanDescription_closed (description : nullable jsstring) :
  closed (d_adIndicators
            (scanDescription toLowerCase description (mkDetection false [] [] []))).
Proof.
  unfold scanDescription. destruct (truthy_string description) as [d|].
  - rewrite description_loop_indicators. cbn [d_adIndicators app].
    intros k1 k2 H1 H2 Hsub Hin. apply filter_In in Hin. destruct Hin as [_ Hin].
    apply filter_In. split; [exact H1|]. now apply includes_trans with k2.
  - intros k1 k2 _ _ _ [].
Qed.

Lemma scanTimestamps_closed (description : nullable jsstring) (st : Detection) :
  closed (d_adIndicators st) ->
  closed (d_adIndicators (fst (scanTimestamps description st))).
Proof.
  intros C. unfold scanTimestamps. destruct (timestampMatches description) as [m|];
    [|exact C]. cbn [fst d_adIndicators].
  intros k1 k2 H1 H2 Hsub Hin. apply in_app_iff. left.
  apply in_app_iff in Hin. destruct Hin as [Hin | [<- | []]].
  - now apply (C k1 k2).
  - exfalso. cbn in H2. repeat (destruct H2 as [H2|H2]; [discriminate|]). exact H2.
Qed.

Lemma dedup_if_In (l : list jsstring) (k : jsstring) :
  In k (if (0 <? length l)%nat then dedup l else []) <-> In k l.
Proof.
  destruct l as [|x l]; [reflexivity|]. cbn [length Nat.ltb Nat.leb]. apply dedup_In.
Qed.

(** The [adIndicators] of a result are closed under containment. *)
Lemma detectSponsorship_closed (description : nullable jsstring) (tags : TagsArg) :
  closed (adIndicators (detect description tags)).
Proof.
  destruct (detectSponsorship_fields description tags) as [-> _].
  intros k1 k2 H1 H2 Hsub Hin.
  apply (proj1 (dedup_if_In _ _)) in Hin. apply (proj2 (dedup_if_In _ _)).
  pose proof (@scanTimestamps_closed description _
                (@scanTags_closed tags _ (scanDescription_closed description))) as C.
  exact (C k1 k2 H1 H2 Hsub Hin).
Qed.
(** C9. When the lower-cased description contains "sponsored", both
    "sponsor" and "sponsored" are in [adIndicators]; more generally, when
    it contains a phrase [k2] of the list, every phrase [k1] of the list
    that is inside [k2] is recorded with it; and whatever recorded a phrase,
    description or tag, the phrases of the list inside it are recorded as
    well. [toLowerCase] is any function that maps the empty string to
    itself. *)
Theorem detectSponsorship_records_contained_phrases (description : jsstring) (tags : TagsArg) :
  toLowerCase [] = [] ->
  (includes (toLowerCase description) (str "sponsored") = true ->
   In (str "sponsor") (adIndicators (detect (val description) tags)) /\
   In (str "sponsored") (adIndicators (detect (val description) tags))) /\
  (forall k1 k2 : jsstring,
     In k1 sponsorKeywords -> In k2 sponsorKeywords ->
     includes k2 k1 = true ->
     includes (toLowerCase description) k2 = true ->
     In k1 (adIndicators (detect (val description) tags)) /\
     In k2 (adIndicators (detect (val description) tags))) /\
  closed (adIndicators (detect (val description) tags)).
Proof.
  intros Hnil.
  assert (forall k1 k2 : jsstring,
     In k1 sponsorKeywords -> In k2 sponsorKeywords ->
     includes k2 k1 = true ->
     includes (toLowerCase description) k2 = true ->
     In k1 (adIndicators (detect (val description) tags)) /\
     In k2 (adIndicators (detect (val description) tags))) as General.
  { intros k1 k2 H1 H2 Hsub Hin.
    assert (description <> []) as Hd.
    { intros ->. rewrite Hnil in Hin. apply includes_nil_l in Hin.
      now apply (sponsorKeywords_nonempty H2). }
    split; apply detectSponsorship_records; try assumption.
    now apply includes_trans with k2. }
  split; [|split; [exact General | apply detectSponsorship_closed]].
  intros Hin. apply General; try assumption.
  - simpl. tauto.
  - simpl. tauto.
  - reflexivity.
Qed.

(** C10. Without a description and without an array of tags the result is
    the empty one; the function is total, nothing is raised. *)
Theorem detectSponsorship_absent_inputs (description : nullable jsstring) (tags : TagsArg) :
  description = null \/ description = undefined ->
  tags = TagsNull \/ tags = TagsUndefined \/ tags = TagsOther ->
  detect description tags = mkSponsorshipInfo false [] [] [] None.
Proof.
  intros [-> | ->] [-> | [-> | ->]]; reflexivity.
Qed.

Lemma timestampMatches_groups (description : nullable jsstring) (m : match_result) :
  timestampMatches description = Some m ->
  exists g1, timestampText g1 /\ group 1 (groups m) = Some g1 /\
    (group 2 (groups m) = None \/
     exists g2, timestampText g2 /\ group 2 (groups m) = Some g2).
Proof.
  unfold timestampMatches. destruct (truthy_string description) as [text|]; [|discriminate].
  intros H. apply search_sound in H. destruct H as (t & s1 & D).
  now apply derives_adTimestampRegex in D.
Qed.

(** The branch of the timestamp code, on the numbers of [Num]: without a
    match or without an end timestamp nothing is assigned; otherwise both
    conversions return and their results are subtracted. *)
Lemma adDuration_of_groups (description : nullable jsstring) (tags : TagsArg) :
  match timestampMatches description with
  | Some m =>
      match group 2 (groups m) with
      | Some g2 =>
          exists (g1 : jsstring) (startTime endTime : jsint),
            group 1 (groups m) = Some g1 /\
            convertTimestampToSeconds (Some g1) = Some startTime /\
            convertTimestampToSeconds (Some g2) = Some endTime /\
            adDuration (detect description tags) = Some (sub endTime startTime)
      | None => adDuration (detect description tags) = None
      end
  | None => adDuration (detect description tags) = None
  end.
Proof.
  destruct (detectSponsorship_fields description tags) as [_ ->].
  rewrite scanTimestamps_adDuration.
  destruct (timestampMatches description) as [m|] eqn:Em; [|reflexivity].
  destruct (timestampMatches_groups description Em) as (g1 & T1 & G1 & G2).
  destruct (group 2 (groups m)) as [g2|] eqn:E2; [|reflexivity].
  destruct G2 as [G2 | (g2' & T2 & G2)]; [discriminate|]. injection G2 as <-.
  destruct (convertTimestampToSeconds_timestampText T1) as (startTime & Hs).
  destruct (convertTimestampToSeconds_timestampText T2) as (endTime & He).
  exists g1, startTime, endTime. repeat split; try assumption.
  pose proof (timestampText_nonempty T2) as Hne.
  unfold computeAdDuration. destruct g2 as [|c g2]; [congruence|].
  rewrite G1, Hs, He. reflexivity.
Qed.

(** C1, as the code has it. [adDuration] is [null] unless the pattern
    matches the description and its second group, the end timestamp, takes
    part in the match. When it does, [adDuration] is a number only if
    [convertTimestampToSeconds] gave a number for both groups; and when it
    gave two numbers below 2^53, [adDuration] is their difference, end
    minus start: the code makes no test of its sign. *)
Theorem detectSponsorship_adDuration (description : nullable jsstring) (tags : TagsArg) :
  match timestampMatches description with
  | Some m =>
      match group 2 (groups m) with
      | Some g2 =>
          (forall (g1 : jsstring) (a b : Z),
             group 1 (groups m) = Some g1 ->
             convertTimestampToSeconds (Some g1) = Some (Int a) ->
             convertTimestampToSeconds (Some g2) = Some (Int b) ->
             exactSeconds a -> exactSeconds b ->
             adDuration (detect description tags) = Some (Int (b - a))) /\
          (forall d : Z,
             adDuration (detect description tags) = Some (Int d) ->
             exists (g1 : jsstring) (a b : Z),
               group 1 (groups m) = Some g1 /\
               convertTimestampToSeconds (Some g1) = Some (Int a) /\
               convertTimestampToSeconds (Some g2) = Some (Int b))
      | None => adDuration (detect description tags) = None
      end
  | None => adDuration (detect description tags) = None
  end.
Proof.
  pose proof (adDuration_of_groups description tags) as H.
  destruct (timestampMatches description) as [m|]; [|exact H].
  destruct (group 2 (groups m)) as [g2|]; [|exact H].
  destruct H as (g1 & startTime & endTime & G1 & Hs & He & Hd).
  rewrite Hd. split.
  - intros g1' a b G1' Ha Hb _ _. rewrite G1 in G1'. injection G1' as <-.
    rewrite Hs in Ha. injection Ha as ->. rewrite He in Hb. injection Hb as ->.
    reflexivity.
  - intros d E. destruct endTime as [|b], startTime as [|a]; cbn in E; try discriminate E.
    now exists g1, a, b.
Qed.
End DetectProperties.

Lemma detectSponsorship_adDuration_witness :
  adDuration (detectSponsorship toLowerCase_basic (val (str "1:30 - 2:45 ad")) (TagsArray []))
  = Some (Int 75).
Proof.
  pose proof (detectSponsorship_adDuration toLowerCase_basic (val (str "1:30 - 2:45 ad"))
                (TagsArray [])) as H.
  set (found := timestampMatches (val (str "1:30 - 2:45 ad"))) in H.
  vm_compute in found. subst found. cbn [groups group nth_error] in H.
  destruct H as [Hd _].
  apply (Hd (str "1:30") 90%Z 165%Z); first [reflexivity | unfold exactSeconds; lia].
Defined.

(** C1, the claim as written fails: an end timestamp before the start
    timestamp gives a negative [adDuration]. *)
Lemma detectSponsorship_adDuration_negative :
  adDuration (detectSponsorship toLowerCase_basic (val (str "5:00 - 1:00 ad")) (TagsArray []))
  = Some (Int (-240)) /\
  is_negative (Int (-240)) = true.
Proof. split; vm_compute; reflexivity. Qed.

(** The [NaN] of [convertTimestampToSeconds] reaches [adDuration]: an end
    timestamp with a colon and no seconds is not [null]. *)
Example detectSponsorship_adDuration_NaN :
  adDuration (detectSponsorship toLowerCase_basic (val (str "1:00 - 5: ad")) (TagsArray []))
  = Some NaN.
Proof. vm_compute. reflexivity. Qed.

(** The example of the specification: an indicator in the description, a
    brand marked with the registered sign. *)
Example detectSponsorship_registered_brand :
  let info :=
    detectSponsorship toLowerCase_basic
      (val (str "Big thanks to Acme" ++ [174%N] ++ str " for sponsoring!"))
      (TagsArray []) in
  hasSponsorship info = true /\
  adIndicators info = [str "sponsor"; str "thanks to"] /\
  detectedBrands info = [str "Big"; str "Acme"] /\
  adDuration info = None.
Proof. vm_compute. repeat split; reflexivity. Qed.

Lemma detectSponsorship_records_contained_phrases_witness :
  In (str "sponsor")
     (adIndicators (detectSponsorship toLowerCase_basic
                      (val (str "This video is Sponsored by Acme.")) TagsNull)) /\
  In (str "sponsored")
     (adIndicators (detectSponsorship toLowerCase_basic
                      (val (str "This video is Sponsored by Acme.")) TagsNull)).
Proof.
  apply (proj1 (detectSponsorship_records_contained_phrases toLowerCase_basic
                  (str "This video is Sponsored by Acme.") TagsNull eq_refl)).
  vm_compute. reflexivity.
Defined.

Lemma detectSponsorship_absent_inputs_witness :
  detectSponsorship toLowerCase_basic undefined TagsOther
  = mkSponsorshipInfo false [] [] [] None.
Proof.
  apply (detectSponsorship_absent_inputs toLowerCase_basic).
  - right. reflexivity.
  - right. right. reflexivity.
Defined.

(** ** [calculateEngagementMetrics] *)

Lemma Qltb_lt (a b : Q) : Qltb a b = true <-> a < b.
Proof.
  unfold Qltb. rewrite negb_true_iff. split.
  - intros H. apply Qnot_le_lt. intros Hle. apply Qle_bool_iff in Hle. congruence.
  - intros H. destruct (Qle_bool b a) eqn:E; [|reflexivity].
    apply Qle_bool_iff in E. exfalso. apply (Qlt_not_le _ _ H E).
Qed.

Lemma Qltb_ge (a b : Q) : Qltb a b = false <-> b <= a.
Proof.
  unfold Qltb. rewrite negb_false_iff. apply Qle_bool_iff.
Qed.

Lemma or0_eq (x : Q) : or0 x == x.
Proof.
  unfold or0. destruct (Qeq_bool x 0) eqn:E; [|reflexivity].
  apply Qeq_bool_iff in E. now symmetry.
Qed.

(** On the rational model, where no operation rounds: without views the
    four metrics are 0; with views they are the three ratios, as
    percentages, and the weighted sum of the first two. *)
Theorem calculateEngagementMetrics_spec (viewCount likeCount commentCount : Q) :
  (viewCount <= 0 ->
   calculateEngagementMetrics viewCount likeCount commentCount
   = mkEngagementMetrics 0 0 0 0) /\
  (0 < viewCount ->
   let m := calculateEngagementMetrics viewCount likeCount commentCount in
   likeToViewRatio m == 100 * likeCount / viewCount /\
   commentToViewRatio m == 100 * commentCount / viewCount /\
   overallEngagementRate m == 100 * (likeCount + commentCount) / viewCount /\
   adEffectivenessScore m == 0.7 * likeToViewRatio m + 0.3 * commentToViewRatio m).
Proof.
  unfold calculateEngagementMetrics. split.
  - intros H. apply Qltb_ge in H. now rewrite H.
  - intros H. assert (~ viewCount == 0) as Hne by (intros E; rewrite E in H; discriminate).
    apply Qltb_lt in H. rewrite H. cbn [likeToViewRatio commentToViewRatio
      overallEngagementRate adEffectivenessScore].
    repeat split; field; exact Hne.
Qed.

Lemma calculateEngagementMetrics_spec_witness :
  calculateEngagementMetrics 0 5 2 = mkEngagementMetrics 0 0 0 0 /\
  likeToViewRatio (calculateEngagementMetrics 1000 50 10) == 5 /\
  commentToViewRatio (calculateEngagementMetrics 1000 50 10) == 1 /\
  overallEngagementRate (calculateEngagementMetrics 1000 50 10) == 6.
Proof.
  split.
  - apply (proj1 (calculateEngagementMetrics_spec 0 5 2)). discriminate.
  - destruct (proj2 (calculateEngagementMetrics_spec 1000 50 10) eq_refl)
      as (H1 & H2 & H3 & _).
    split; [|split].
    + rewrite H1. reflexivity.
    + rewrite H2. reflexivity.
    + rewrite H3. reflexivity.
Defined.

(** The test [viewCount > 0] fails on every double that is at most 0. *)
Lemma SFleb_zero_not_ltb (x : spec_float) :
  SFleb x (Binary64.of_Z 0) = true -> SFltb (Binary64.of_Z 0) x = false.
Proof.
  destruct x as [s|s| |s m e]; try destruct s; vm_compute; congruence.
Qed.

(** C5, as the code has it, in the binary64 arithmetic of the source.
    Without views ([viewCount <= 0]) the four metrics are 0. With views
    each ratio is the quotient by the views, rounded, times 100, rounded
    again, and the score is the rounded sum of the rounded products of the
    first two metrics by [0.7] and by [0.3]. On the counts of the two
    examples the results are the numbers of the specification:
    compute(0, 5, 2) is all zeros, compute(1000, 50, 10) has 5, 1 and 6. *)
Theorem calculateEngagementMetrics_doubles (viewCount likeCount commentCount : spec_float) :
  let zero := Binary64.of_Z 0 in
  let hundred := Binary64.of_Z 100 in
  let m := Binary64.calculateEngagementMetrics viewCount likeCount commentCount in
  (SFleb viewCount zero = true ->
   m = Binary64.mkEngagementMetrics zero zero zero zero) /\
  (SFltb zero viewCount = true ->
   Binary64.likeToViewRatio m = Binary64.mul (Binary64.div likeCount viewCount) hundred /\
   Binary64.commentToViewRatio m
   = Binary64.mul (Binary64.div commentCount viewCount) hundred /\
   Binary64.overallEngagementRate m
   = Binary64.mul (Binary64.div (Binary64.add likeCount commentCount) viewCount) hundred /\
   Binary64.adEffectivenessScore m
   = Binary64.add
       (Binary64.mul (Binary64.likeToViewRatio m)
          (Binary64.div (Binary64.of_Z 7) (Binary64.of_Z 10)))
       (Binary64.mul (Binary64.commentToViewRatio m)
          (Binary64.div (Binary64.of_Z 3) (Binary64.of_Z 10)))) /\
  Binary64.calculateEngagementMetrics zero (Binary64.of_Z 5) (Binary64.of_Z 2)
  = Binary64.mkEngagementMetrics zero zero zero zero /\
  (let e := Binary64.calculateEngagementMetrics (Binary64.of_Z 1000) (Binary64.of_Z 50)
              (Binary64.of_Z 10) in
   Binary64.likeToViewRatio e = Binary64.of_Z 5 /\
   Binary64.commentToViewRatio e = Binary64.of_Z 1 /\
   Binary64.overallEngagementRate e = Binary64.of_Z 6).
Proof.
  cbv zeta. split; [|split; [|split]].
  - intros H. apply SFleb_zero_not_ltb in H.
    unfold Binary64.calculateEngagementMetrics. cbv zeta. now rewrite H.
  - intros H. unfold Binary64.calculateEngagementMetrics. cbv zeta. rewrite H.
    repeat split.
  - vm_compute. reflexivity.
  - vm_compute. repeat split.
Qed.

Lemma calculateEngagementMetrics_doubles_witness :
  Binary64.likeToViewRatio
    (Binary64.calculateEngagementMetrics (Binary64.of_Z 3) (Binary64.of_Z 1) (Binary64.of_Z 1))
  = Binary64.mul (Binary64.div (Binary64.of_Z 1) (Binary64.of_Z 3)) (Binary64.of_Z 100).
Proof.
  apply (proj1 (proj2 (calculateEngagementMetrics_doubles (Binary64.of_Z 3) (Binary64.of_Z 1)
                         (Binary64.of_Z 1)))).
  reflexivity.
Defined.

(** C5, the claim as written fails: for 3 views and 1 like the source
    computes [(1 / 3) * 100], the double 33.33333333333333 (mantissa
    4691249611844266, exponent -47). It is not the number 100 * 1 / 3, and
    not the double that [100 * 1 / 3] evaluates to either, which is the
    next one, 33.333333333333336. *)
Lemma calculateEngagementMetrics_not_exact :
  let m := Binary64.calculateEngagementMetrics (Binary64.of_Z 3) (Binary64.of_Z 1)
             (Binary64.of_Z 1) in
  Binary64.likeToViewRatio m = S754_finite false 4691249611844266 (-47) /\
  Binary64.div (Binary64.mul (Binary64.of_Z 100) (Binary64.of_Z 1)) (Binary64.of_Z 3)
  = S754_finite false 4691249611844267 (-47) /\
  (exists q : Q, Binary64.to_Q (Binary64.likeToViewRatio m) = Some q /\ ~ q == 100 * 1 / 3).
Proof.
  cbv zeta. split; [vm_compute; reflexivity|]. split; [vm_compute; reflexivity|].
  eexists. split; [vm_compute; reflexivity|]. vm_compute. discriminate.
Qed.

(** The examples of the specification in binary64 arithmetic: the same
    values, without rounding error. *)
Example calculateEngagementMetrics_binary64 :
  Binary64.calculateEngagementMetrics (Binary64.of_Z 0) (Binary64.of_Z 5) (Binary64.of_Z 2)
  = Binary64.mkEngagementMetrics (Binary64.of_Z 0) (Binary64.of_Z 0) (Binary64.of_Z 0)
      (Binary64.of_Z 0) /\
  Binary64.calculateEngagementMetrics (Binary64.of_Z 1000) (Binary64.of_Z 50)
    (Binary64.of_Z 10)
  = Binary64.mkEngagementMetrics (Binary64.of_Z 5) (Binary64.of_Z 1) (Binary64.of_Z 6)
      (Binary64.div (Binary64.of_Z 38) (Binary64.of_Z 10)).
Proof. split; vm_compute; reflexivity. Qed.

(** ** [calculateAdEffectiveness] *)

(** C7. For an engagement score that is not negative and percentages
    between 0 and 100, the score is the equal-weight blend of the
    normalized engagement and the sentiment term, clamped to [0, 100]; it
    lies in [0, 100], and the clamp leaves such a blend as it is. *)
Theorem calculateAdEffectiveness_spec (e : EngagementMetrics) (s : SentimentSummary) :
  0 <= adEffectivenessScore e ->
  0 <= positivePercentage s <= 100 ->
  0 <= negativePercentage s <= 100 ->
  let blend :=
    0.5 * Qmin (10 * adEffectivenessScore e) 100
    + 0.5 * ((positivePercentage s - negativePercentage s + 100) / 2) in
  calculateAdEffectiveness e s == Qmax 0 (Qmin 100 blend) /\
  0 <= calculateAdEffectiveness e s <= 100 /\
  calculateAdEffectiveness e s == blend.
Proof.
  intros Ha [Hp0 Hp1] [Hn0 Hn1]. unfold calculateAdEffectiveness. cbv zeta.
  unfold Qdiv. change (/ 2) with (1 # 2).
  set (a := adEffectivenessScore e) in *.
  set (p := positivePercentage s) in *.
  set (n := negativePercentage s) in *.
  destruct (Q.min_spec (a * 10) 100) as [[H1 E1]|[H1 E1]];
  destruct (Q.min_spec (10 * a) 100) as [[H2 E2]|[H2 E2]];
  revert E1 E2;
  generalize (Qmin (a * 10) 100); generalize (Qmin (10 * a) 100);
  intros x y E1 E2;
  (destruct (Q.min_spec 100 (y * 0.5 + (p - n + 100) * (1 # 2) * 0.5)) as [[H3 E3]|[H3 E3]];
   destruct (Q.min_spec 100 (0.5 * x + 0.5 * ((p - n + 100) * (1 # 2)))) as [[H4 E4]|[H4 E4]];
   revert E3 E4;
   generalize (Qmin 100 (y * 0.5 + (p - n + 100) * (1 # 2) * 0.5));
   generalize (Qmin 100 (0.5 * x + 0.5 * ((p - n + 100) * (1 # 2))));
   intros u v E3 E4;
   destruct (Q.max_spec 0 v) as [[H5 E5]|[H5 E5]];
   destruct (Q.max_spec 0 u) as [[H6 E6]|[H6 E6]];
   revert E5 E6; generalize (Qmax 0 v); generalize (Qmax 0 u);
   intros r1 r2 E5 E6; repeat split; lra).
Qed.

Lemma calculateAdEffectiveness_spec_witness :
  0 <= calculateAdEffectiveness (calculateEngagementMetrics 1000 50 10)
         (mkSentimentSummary 0 60 10 30 (Some 10%nat) (Some []))
    <= 100.
Proof.
  apply (calculateAdEffectiveness_spec (calculateEngagementMetrics 1000 50 10)
           (mkSentimentSummary 0 60 10 30 (Some 10%nat) (Some []))).
  - vm_compute. discriminate.
  - split; vm_compute; discriminate.
  - split; vm_compute; discriminate.
Defined.

(** ** [analyzeCommentSentiment] *)

Section SentimentProperties.

Variable toLowerCase : jsstring -> jsstring.
Variable tokenize : jsstring -> list jsstring.
Variable getSentiment : list jsstring -> option Q.

Local Abbreviation analyze := (analyzeCommentSentiment toLowerCase tokenize getSentiment).
Local Abbreviation tally := (tallyComment toLowerCase tokenize getSentiment).
Local Abbreviation score := (sentimentScoreOf tokenize getSentiment).
Local Abbreviation countOf := (countClass tokenize getSentiment).

(** The thresholds of the three classes. *)
Lemma classify_spec (q : Q) :
  (classify q = Positive <-> 0.05 < q) /\
  (classify q = Negative <-> q < -0.05) /\
  (classify q = Neutral <-> -0.05 <= q <= 0.05).
Proof.
  unfold classify.
  destruct (Qltb 0.05 q) eqn:E1; [apply Qltb_lt in E1 | apply Qltb_ge in E1];
    (destruct (Qltb q (-0.05)) eqn:E2; [apply Qltb_lt in E2 | apply Qltb_ge in E2]);
    repeat split; intros; try discriminate; try lra.
Qed.

Lemma tallyComment_counts (t : Tally) (c : Comment) :
  t_positiveCount (tally t c) = (t_positiveCount t + bump (classify (score c)) Positive)%nat /\
  t_negativeCount (tally t c) = (t_negativeCount t + bump (classify (score c)) Negative)%nat /\
  t_neutralCount (tally t c) = (t_neutralCount t + bump (classify (score c)) Neutral)%nat.
Proof.
  unfold tallyComment, classify.
  destruct (Qltb 0.05 _); [|destruct (Qltb _ (-0.05))]; cbn; repeat split; lia.
Qed.

(** The three counters of the loop are the numbers of comments of the
    three classes. *)
Lemma tally_counts (cs : list Comment) (t : Tally) :
  t_positiveCount (fold_left tally cs t) = (t_positiveCount t + countOf Positive cs)%nat /\
  t_negativeCount (fold_left tally cs t) = (t_negativeCount t + countOf Negative cs)%nat /\
  t_neutralCount (fold_left tally cs t) = (t_neutralCount t + countOf Neutral cs)%nat.
Proof.
  revert t; induction cs as [|c cs IH]; intros t.
  - unfold countClass. cbn. repeat split; lia.
  - cbn [fold_left]. destruct (IH (tally t c)) as (H1 & H2 & H3).
    destruct (tallyComment_counts t c) as (T1 & T2 & T3).
    rewrite H1, H2, H3, T1, T2, T3. unfold countClass, bump. cbn [filter].
    destruct (classify (score c)); cbn; repeat split; lia.
Qed.

Lemma countClass_total (cs : list Comment) :
  (countOf Positive cs + countOf Negative cs + countOf Neutral cs = length cs)%nat.
Proof.
  unfold countClass. induction cs as [|c cs IH]; [reflexivity|].
  cbn [filter length]. destruct (classify (score c)); cbn; lia.
Qed.

Lemma Qnat_add (a b : nat) : Qnat (a + b) == Qnat a + Qnat b.
Proof.
  unfold Qnat. now rewrite Nat2Z.inj_add, inject_Z_plus.
Qed.

Lemma Qnat_pos (n : nat) : (0 < n)%nat -> ~ Qnat n == 0.
Proof.
  unfold Qnat, Qeq. cbn. lia.
Qed.

(** C6. The empty list gives the all-zero summary. For a list that is not
    empty, each percentage is the share of the comments of its class (a
    score above 0.05 is positive, below -0.05 negative, neutral otherwise),
    and the three add up to 100. *)
Theorem analyzeCommentSentiment_percentages (comments : list Comment) :
  analyze (Some []) = mkSentimentSummary 0 0 0 0 (Some 0%nat) (Some []) /\
  (forall q : Q,
     (classify q = Positive <-> 0.05 < q) /\
     (classify q = Negative <-> q < -0.05) /\
     (classify q = Neutral <-> -0.05 <= q <= 0.05)) /\
  (comments <> [] ->
   let r := analyze (Some comments) in
   let n := Qnat (length comments) in
   totalComments r = Some (length comments) /\
   positivePercentage r == 100 * Qnat (countOf Positive comments) / n /\
   negativePercentage r == 100 * Qnat (countOf Negative comments) / n /\
   neutralPercentage r == 100 * Qnat (countOf Neutral comments) / n /\
   positivePercentage r + negativePercentage r + neutralPercentage r == 100).
Proof.
  split; [reflexivity|]. split; [exact classify_spec|].
  intros Hne. destruct comments as [|c cs]; [congruence|].
  set (all := c :: cs). assert (0 < length all)%nat as Hlen by (cbn; lia).
  assert (~ Qnat (length all) == 0) as Hn by (apply Qnat_pos; exact Hlen).
  destruct (tally_counts all (mkTally 0 0 0 0 [])) as (H1 & H2 & H3).
  cbn [t_positiveCount t_negativeCount t_neutralCount Nat.add] in H1, H2, H3.
  assert (Qnat (countOf Positive all) + Qnat (countOf Negative all)
          + Qnat (countOf Neutral all) == Qnat (length all)) as Hsum.
  { rewrite <- !Qnat_add. now rewrite countClass_total. }
  unfold analyzeCommentSentiment. fold all.
  change (match all with [] => emptySentiment | _ :: _ => ?body end) with body.
  cbv zeta. cbn [totalComments positivePercentage negativePercentage neutralPercentage].
  replace (0 <? length all)%nat with true by (symmetry; apply Nat.ltb_lt; exact Hlen).
  rewrite H1, H2, H3, !or0_eq.
  split; [reflexivity|]. split; [field; exact Hn|]. split; [field; exact Hn|].
  split; [field; exact Hn|].
  transitivity ((Qnat (countOf Positive all) + Qnat (countOf Negative all)
                 + Qnat (countOf Neutral all)) / Qnat (length all) * 100).
  - field. exact Hn.
  - rewrite Hsum. field. exact Hn.
Qed.

End SentimentProperties.

Lemma analyzeCommentSentiment_percentages_witness :
  let r := analyzeCommentSentiment toLowerCase_basic Sample.tokenize Sample.getSentiment
             (Some Sample.comments) in
  positivePercentage r + negativePercentage r + neutralPercentage r == 100.
Proof.
  apply (proj2 (proj2 (analyzeCommentSentiment_percentages toLowerCase_basic
                         Sample.tokenize Sample.getSentiment Sample.comments))).
  discriminate.
Defined.

(** ** The pipeline *)

Section PipelineProperties.

Variable World : Type.
Variable toLowerCase : jsstring -> jsstring.
Variable tokenize : jsstring -> list jsstring.
Variable getSentiment : list jsstring -> option Q.
Variable youtube_videos_list : jsstring -> M World (option (list VideoItem)).
Variable youtube_commentThreads_list : jsstring -> nat -> M World (option (list CommentThread)).
Variable model_generateContent : Prompt -> M World jsstring.
Variable Video_findOneAndUpdate : jsstring -> AdInsights -> M World unit.
Variable Video_find : jsstring -> M World (option (list StoredVideo)).
Variable clock : World -> Date.

Local Abbreviation analyzeVideo :=
  (analyzeVideoContent toLowerCase tokenize getSentiment model_generateContent clock).
Local Abbreviation generateReport :=
  (generateAdInsightsReport toLowerCase tokenize getSentiment youtube_videos_list
     youtube_commentThreads_list model_generateContent Video_findOneAndUpdate clock).
Local Abbreviation process :=
  (processVideo toLowerCase tokenize getSentiment youtube_videos_list
     youtube_commentThreads_list model_generateContent Video_findOneAndUpdate clock).
Local Abbreviation forEach :=
  (forEachVideo toLowerCase tokenize getSentiment youtube_videos_list
     youtube_commentThreads_list model_generateContent Video_findOneAndUpdate clock).
Local Abbreviation outcomesOf :=
  (perVideoOutcomes toLowerCase tokenize getSentiment youtube_videos_list
     youtube_commentThreads_list model_generateContent Video_findOneAndUpdate clock).
Local Abbreviation generateChannel :=
  (generateChannelAdInsights toLowerCase tokenize getSentiment youtube_videos_list
     youtube_commentThreads_list model_generateContent Video_findOneAndUpdate
     Video_find clock).

Lemma try_catch_normal {A} (m : M World A) (h : jsstring -> M World A) :
  (forall e, normal (h e)) -> normal (try_catch m h).
Proof.
  intros Hh w. unfold try_catch. destruct (m w) as [[a|e] w'].
  - now exists a, w'.
  - apply Hh.
Qed.

Lemma ret_normal {A} (a : A) : normal (ret (World := World) a).
Proof. intros w. now exists a, w. Qed.

(** No failure of the generative service, and no failure of the template,
    leaves [analyzeVideoContent]. *)
Lemma analyzeVideoContent_normal (videoData : VideoData) (comments : list Comment) :
  normal (analyzeVideo videoData comments).
Proof.
  apply try_catch_normal. intros e w. unfold bind, newDate, ret. eauto.
Qed.

Lemma generateAdInsightsReport_normal (videoId : jsstring) :
  normal (generateReport videoId).
Proof.
  apply try_catch_normal. intros e. apply ret_normal.
Qed.

(** C3, as the code has it. When the call of the generative service
    throws, [analyzeVideoContent] completes normally with the sentinel
    values and a sentiment object that has the four zero fields and neither
    [totalComments] nor [keywordSentiment]. *)
Lemma analyzeVideoContent_on_failure (videoData : VideoData) (comments : list Comment)
  (prompt : Prompt) (error : jsstring) (w w1 : World) :
  buildPrompt videoData comments w = (Normal prompt, w) ->
  model_generateContent prompt w = (Throw error, w1) ->
  analyzeVideo videoData comments w
  = (Normal (mkAnalysisResults (str "Analysis failed") (str "Unknown") 0
               (mkSentimentSummary 0 0 0 0 None None) (clock w1)), w1).
Proof.
  intros Hp Hg. unfold analyzeVideoContent, try_catch, bind.
  rewrite Hp, Hg. reflexivity.
Qed.

(** The composed result when the generative service replies. *)
Lemma analyzeVideoContent_on_reply (videoData : VideoData) (comments : list Comment)
  (prompt : Prompt) (reply : jsstring) (w w1 : World) :
  buildPrompt videoData comments w = (Normal prompt, w) ->
  model_generateContent prompt w = (Normal reply, w1) ->
  exists r : AnalysisResults,
    analyzeVideo videoData comments w = (Normal r, w1) /\
    aiInsights r = trim reply /\
    adStyle r = resolveAdStyle toLowerCase (vd_sponsorshipInfo videoData) (trim reply) /\
    adSentiment r
    = analyzeCommentSentiment toLowerCase tokenize getSentiment (Some comments) /\
    adEffectiveness r
    = calculateAdEffectiveness (vd_engagementMetrics videoData) (adSentiment r).
Proof.
  intros Hp Hg. unfold analyzeVideoContent, try_catch, bind.
  rewrite Hp, Hg. unfold newDate, ret. eexists. split; [reflexivity|].
  repeat split.
Qed.

(** X30. The ad style, case by case: without sponsorship it is
    "Unknown"; with a duration that is a number other than 0, the duration
    decides (above 60 seconds "Long-form", else "Short-form"); with no
    duration, or one that is 0 or not a number, the reply decides. *)
Lemma resolveAdStyle_cases (info : SponsorshipInfo) (reply : jsstring) :
  let fromReply :=
    if includes (toLowerCase reply) (str "long-form") then str "Long-form"
    else if includes (toLowerCase reply) (str "short-form") then str "Short-form"
    else str "Unknown" in
  (hasSponsorship info = false -> resolveAdStyle toLowerCase info reply = str "Unknown") /\
  (hasSponsorship info = true ->
   forall z : Z, adDuration info = Some (Int z) -> z <> 0%Z ->
   resolveAdStyle toLowerCase info reply
   = if (60 <? z)%Z then str "Long-form" else str "Short-form") /\
  (hasSponsorship info = true ->
   adDuration info = None \/ adDuration info = Some (Int 0) \/ adDuration info = Some NaN ->
   resolveAdStyle toLowerCase info reply = fromReply).
Proof.
  unfold resolveAdStyle. repeat split.
  - intros ->. reflexivity.
  - intros -> z -> Hz. cbn [truthy gtb].
    destruct (Z.eqb_spec z 0); [contradiction|]. reflexivity.
  - intros -> [-> | [-> | ->]]; reflexivity.
Qed.

(** One iteration of the loop of the batch: whatever the per-video
    pipeline does, the iteration completes normally, counts the video and
    records its outcome. *)
Lemma processVideo_outcome (results : BatchResults) (video : StoredVideo) (w : World) :
  process results video w
  = (let '(c, w1) := generateReport (sv_videoId video) w in
     (Normal (mkBatchResults (total results)
                (processed results + (if outcomeFailed c then 0 else 1))
                (failed results + (if outcomeFailed c then 1 else 0))
                (reports results ++ [outcomeEntry video c])), w1)).
Proof.
  unfold processVideo, try_catch, bind.
  destruct (generateReport (sv_videoId video) w) as [[[r|e]|e] w1]; cbn;
    rewrite ?Nat.add_0_r, ?Nat.add_1_r; reflexivity.
Qed.

Lemma perVideoOutcomes_length (videos : list StoredVideo) (w : World) :
  length (fst (outcomesOf videos w)) = length videos.
Proof.
  revert w; induction videos as [|v vs IH]; intros w; [reflexivity|].
  cbn [perVideoOutcomes]. destruct (generateReport (sv_videoId v) w) as [c w1].
  specialize (IH w1). destruct (outcomesOf vs w1) as [cs w2]. cbn in *. now rewrite IH.
Qed.

(** The per-video pipeline catches what it throws: no outcome of a batch is
    an exception. *)
Lemma perVideoOutcomes_normal (videos : list StoredVideo) (w : World) :
  Forall (fun c => exists r, c = Normal r) (fst (outcomesOf videos w)).
Proof.
  revert w; induction videos as [|v vs IH]; intros w; [constructor|].
  cbn [perVideoOutcomes].
  destruct (generateAdInsightsReport_normal (sv_videoId v) w) as (r & w1 & E).
  rewrite E. specialize (IH w1). destruct (outcomesOf vs w1) as [cs w2].
  cbn [fst] in *. constructor; [now exists r | exact IH].
Qed.

Lemma countFailed_le (cs : list (completion (Result AdInsightReport))) :
  (countFailed cs <= length cs)%nat.
Proof. apply filter_length_le. Qed.

(** The loop of the batch: every video is counted once, as processed or
    as failed, and its outcome is appended to [reports], in order. *)
Lemma forEachVideo_outcomes (videos : list StoredVideo) (results : BatchResults) (w : World) :
  forEach videos results w
  = (let '(cs, w2) := outcomesOf videos w in
     (Normal (mkBatchResults (total results)
                (processed results + (length cs - countFailed cs))
                (failed results + countFailed cs)
                (reports results ++ outcomeEntries videos cs)), w2)).
Proof.
  revert results w; induction videos as [|v vs IH]; intros results w.
  - cbn. unfold ret. rewrite !Nat.add_0_r, app_nil_r. now destruct results.
  - cbn [forEachVideo perVideoOutcomes]. unfold bind at 1.
    rewrite processVideo_outcome.
    destruct (generateReport (sv_videoId v) w) as [c w1].
    rewrite IH. destruct (outcomesOf vs w1) as [cs w2].
    cbn [total processed failed reports].
    pose proof (countFailed_le cs) as Hle.
    unfold countFailed, outcomeEntries in *. cbn [filter combine map length fst snd].
    rewrite <- app_assoc. cbn [app].
    destruct (outcomeFailed c); cbn [length]; do 2 f_equal; f_equal; lia.
Qed.

(** C4. A channel with videos: the batch succeeds, [total] is the number
    of videos, [failed] the number of videos whose pipeline did not
    succeed, [processed] the others, and [reports] has the outcome of every
    video, with the error of each failed one. A channel without videos, or
    a store that fails: the terminal failure. *)
Theorem generateChannelAdInsights_batch (channelId : jsstring) (w : World) :
  match Video_find channelId w with
  | (Normal (Some (video :: videos')), w1) =>
      let videos := video :: videos' in
      let n := length videos in
      let '(outcomes, w2) := outcomesOf videos w1 in
      let k := countFailed outcomes in
      generateChannel channelId w
      = (Normal (Success (mkBatchResults n (n - k) k (outcomeEntries videos outcomes))), w2)
      /\ length outcomes = n /\ (k <= n)%nat
      /\ length (outcomeEntries videos outcomes) = n
  | (Normal _, w1) =>
      generateChannel channelId w
      = (Normal (Failure (str "No videos found for this channel")), w1)
  | (Throw error, w1) =>
      generateChannel channelId w = (Normal (Failure error), w1)
  end.
Proof.
  destruct (Video_find channelId w) as [[[[|video videos']|]|error] w1] eqn:E;
    unfold generateChannelAdInsights, try_catch, bind; rewrite E; try reflexivity.
  cbv zeta. rewrite forEachVideo_outcomes.
  pose proof (perVideoOutcomes_length (video :: videos') w1) as Hlen.
  destruct (outcomesOf (video :: videos') w1) as [outcomes w2].
  cbn [fst] in Hlen. cbn [total processed failed reports app Nat.add].
  pose proof (countFailed_le outcomes) as Hle.
  rewrite Hlen in *. repeat split; try assumption.
  unfold outcomeEntries. now rewrite length_map, length_combine, Hlen, Nat.min_id.
Qed.

End PipelineProperties.

(** ** The pipeline on the sample collaborators *)

Lemma analyzeVideoContent_on_failure_witness :
  Sample.analyzeVideoContent Sample.generateContent_fails Sample.zeroLengthAd
    Sample.comments 7%Z
  = (Normal (mkAnalysisResults (str "Analysis failed") (str "Unknown") 0
               (mkSentimentSummary 0 0 0 0 None None) 7%Z), 7%Z).
Proof.
  unfold Sample.analyzeVideoContent.
  eapply (@analyzeVideoContent_on_failure Sample.World toLowerCase_basic Sample.tokenize
            Sample.getSentiment Sample.generateContent_fails Sample.clock
            Sample.zeroLengthAd Sample.comments _ (str "quota exceeded") 7%Z 7%Z).
  - reflexivity.
  - reflexivity.
Defined.

(** The summary of the failure branch is not the all-zero summary that
    [analyzeCommentSentiment] gives for no comments: two properties are
    missing. *)
Lemma failure_summary_differs :
  mkSentimentSummary 0 0 0 0 None None <> emptySentiment /\
  totalComments emptySentiment = Some 0%nat /\
  keywordSentiment emptySentiment = Some [].
Proof. repeat split. discriminate. Qed.

(** C8, at a duration of zero seconds: the description gives the segment
    as [1:00 - 1:00], sponsorship is detected and [adDuration] is the
    number 0; the reply of the generative service names a long-form ad, and
    the composed [adStyle] follows the reply. *)
Theorem analyzeVideoContent_zero_duration_style :
  hasSponsorship (vd_sponsorshipInfo Sample.zeroLengthAd) = true /\
  adDuration (vd_sponsorshipInfo Sample.zeroLengthAd) = Some (Int 0) /\
  exists r : AnalysisResults,
    Sample.analyzeVideoContent
      (Sample.generateContent_ok "This is a long-form sponsor read.")
      Sample.zeroLengthAd Sample.comments 7%Z = (Normal r, 7%Z) /\
    adStyle r = str "Long-form".
Proof.
  split; [vm_compute; reflexivity|]. split; [vm_compute; reflexivity|].
  eexists. split; [vm_compute; reflexivity|]. vm_compute. reflexivity.
Qed.

(** The batch of the specification: three videos, the second of which the
    platform does not know. *)
Example generateChannelAdInsights_three_videos :
  exists (entries : list ReportEntry) (w : Sample.World),
    Sample.generateChannelAdInsights (Sample.generateContent_ok "A short-form ad.")
      (str "channel") 0%Z
    = (Normal (Success (mkBatchResults 3 2 1 entries)), w) /\
    List.map re_success entries = [true; false; true] /\
    List.map re_error entries = [None; Some (str "Video not found"); None].
Proof.
  eexists. eexists. split; [vm_compute; reflexivity|]. split; reflexivity.
Qed.

Example generateChannelAdInsights_no_videos :
  Sample.generateChannelAdInsights (Sample.generateContent_ok "A short-form ad.")
    (str "empty") 0%Z
  = (Normal (Failure (str "No videos found for this channel")), 0%Z).
Proof. reflexivity. Qed.

(** * Further properties *)

(** ** The matcher, completeness *)

(** When the pattern derives a prefix after which the continuation
    succeeds, the matcher succeeds (on this way of matching or on one it
    tries before). *)
Lemma rmatch_complete (r : regex) (s : jsstring) (caps : captures) (s1 : jsstring)
  (c1 : captures) :
  derives r s caps s1 c1 ->
  forall k : jsstring -> captures -> outcome,
    k s1 c1 <> None -> rmatch r s caps k <> None.
Proof.
  induction 1 as [p c s caps Hp|s caps|r1 r2 s caps s1 c1 s2 c2 _ IH1 _ IH2
                 |r1 r2 s caps s1 c1 _ IH|r1 r2 s caps s1 c1 _ IH|r s caps
                 |r s caps s1 c1 s2 c2 _ IH1 L _ IH2|n r s caps s1 c1 _ IH];
    intros k Hk.
  - cbn [rmatch]. rewrite Hp. exact Hk.
  - exact Hk.
  - cbn [rmatch]. apply IH1. apply IH2. exact Hk.
  - cbn [rmatch]. destruct (rmatch r1 s caps k) eqn:E; [discriminate|].
    exfalso. exact (IH k Hk E).
  - cbn [rmatch]. destruct (rmatch r1 s caps k) eqn:E; [discriminate|].
    apply IH. exact Hk.
  - rewrite rmatch_Star. destruct (rmatch r s caps _); [discriminate | exact Hk].
  - rewrite rmatch_Star.
    destruct (rmatch r s caps
                (fun s1 c1 =>
                   if (length s1 <? length s)%nat then rmatch (Star r) s1 c1 k else None))
      eqn:E; [discriminate|].
    exfalso. revert E. apply IH1.
    apply Nat.ltb_lt in L. rewrite L. apply IH2. exact Hk.
  - cbn [rmatch]. apply IH. exact Hk.
Qed.

Lemma match_here_complete (r : regex) (t s1 : jsstring) (c1 : captures) :
  derives r t [] s1 c1 -> match_here r t <> None.
Proof.
  intros D. unfold match_here.
  destruct (rmatch r t [] (fun s c => Some (s, c))) as [[s2 c2]|] eqn:E; [discriminate|].
  exfalso. revert E. apply (rmatch_complete D). discriminate.
Qed.

Lemma search_app (r : regex) (pre t : jsstring) :
  search r t <> None -> search r (pre ++ t) <> None.
Proof.
  induction pre as [|c pre IH]; intros H; [exact H|].
  cbn [app search]. destruct (match_here r (c :: pre ++ t)); [discriminate|].
  apply IH. exact H.
Qed.

Lemma search_here (r : regex) (t : jsstring) :
  match_here r t <> None -> search r t <> None.
Proof.
  intros H. destruct t as [|c t]; cbn [search];
    destruct (match_here r _); try discriminate; congruence.
Qed.

(** The match, where it is in the text, and how the pattern derives it. *)
Lemma search_sound_at (r : regex) (s : jsstring) (m : match_result) :
  search r s = Some m ->
  exists pre : jsstring,
    s = pre ++ matched m ++ rest m /\
    derives r (matched m ++ rest m) [] (rest m) (groups m).
Proof.
  assert (forall t, match_here r t = Some m ->
            t = matched m ++ rest m /\
            derives r (matched m ++ rest m) [] (rest m) (groups m)) as Here.
  { intros t H. unfold match_here in H.
    destruct (rmatch r t [] _) as [[s1 c1]|] eqn:E; [|discriminate].
    injection H as <-. apply rmatch_sound in E.
    destruct E as (s2 & c2 & D & E). injection E as -> ->.
    pose proof (derives_prefix D) as [g ->]. cbn [matched rest groups].
    rewrite consumed_prefix. split; [reflexivity | exact D]. }
  induction s as [|c s IH]; cbn [search].
  - destruct (match_here r []) as [m'|] eqn:E; [|discriminate].
    intros H. injection H as ->. exists []. apply Here in E. exact E.
  - destruct (match_here r (c :: s)) as [m'|] eqn:E.
    + intros H. injection H as ->. exists []. apply Here in E. exact E.
    + intros H. destruct (IH H) as (pre & Hs & D). exists (c :: pre).
      split; [cbn [app]; now rewrite <- Hs | exact D].
Qed.

(** The leftmost-match search finds a match exactly when the pattern
    matches somewhere in the text. *)
Lemma search_matchesSomewhere (r : regex) (s : jsstring) :
  search r s <> None <-> matchesSomewhere r s.
Proof.
  split.
  - destruct (search r s) as [m|] eqn:E; [|congruence]. intros _.
    destruct (search_sound_at r s E) as (pre & Hs & D).
    exists pre, (matched m ++ rest m), (rest m), (groups m). now split.
  - intros (pre & t & s1 & c1 & -> & D).
    apply search_app, search_here. exact (match_here_complete D).
Qed.

(** ** [detectSponsorship], stage by stage *)

Lemma app_one_not_nil {A} (l : list A) (x : A) : l ++ [x] <> [].
Proof. destruct l; discriminate. Qed.

Lemma dedup_aux_NoDup (seen l : list jsstring) : NoDup (dedup_aux seen l).
Proof.
  revert seen; induction l as [|x l IH]; intros seen; cbn [dedup_aux]; [constructor|].
  destruct (arr_includes seen x) eqn:E; [apply IH|].
  constructor; [|apply IH]. rewrite dedup_aux_In. intros [_ H]. apply H. now left.
Qed.

Lemma dedup_NoDup (l : list jsstring) : NoDup (dedup l).
Proof. apply dedup_aux_NoDup. Qed.

Lemma dedup_nil_iff (l : list jsstring) : dedup l = [] <-> l = [].
Proof.
  split; [|intros ->; reflexivity]. destruct l as [|x l]; [reflexivity|].
  intros H. assert (In x (dedup (x :: l))) as Hin by (apply dedup_In; now left).
  rewrite H in Hin. contradiction.
Qed.

Section DetectFurther.

Variable toLowerCase : jsstring -> jsstring.

Local Abbreviation detect := (detectSponsorship toLowerCase).
Local Abbreviation st0 := (mkDetection false [] [] []).

Lemma truthy_string_spec (description : nullable jsstring) (d : jsstring) :
  truthy_string description = Some d <-> description = val d /\ d <> [].
Proof.
  destruct description as [| |[|c s]]; cbn [truthy_string]; split;
    try discriminate; try (intros [H _]; discriminate).
  - intros [H1 H2]. injection H1 as <-. congruence.
  - intros H. injection H as <-. split; [reflexivity | discriminate].
  - intros [H _]. injection H as <-. reflexivity.
Qed.

(** The result, field by field, from the three stages. *)
Lemma detectSponsorship_stages (description : nullable jsstring) (tags : TagsArg) :
  detect description tags
  = (let st2 := scanTags toLowerCase tags (scanDescription toLowerCase description st0) in
     let st3 := fst (scanTimestamps description st2) in
     mkSponsorshipInfo
       (d_hasSponsorship st3)
       (trim (d_sponsorshipDetails st3))
       (if (0 <? length (d_adIndicators st3))%nat then dedup (d_adIndicators st3) else [])
       (dedup (d_detectedBrands st3))
       (snd (scanTimestamps description st2))).
Proof.
  unfold detectSponsorship. cbv zeta. destruct (scanTimestamps _ _) as [st3 d]. reflexivity.
Qed.

Lemma scanDescriptionKeyword_flagged (d dl : jsstring) (st : Detection) (k : jsstring) :
  flagged st -> flagged (scanDescriptionKeyword toLowerCase d dl st k).
Proof.
  intros F. unfold scanDescriptionKeyword. destruct (includes dl k); [|exact F].
  destruct (fold_left _ _ _) as [details brands]. unfold flagged.
  cbn [d_hasSponsorship d_adIndicators]. split; [intros _; apply app_one_not_nil | reflexivity].
Qed.

Lemma scanDescription_flagged (description : nullable jsstring) (st : Detection) :
  flagged st -> flagged (scanDescription toLowerCase description st).
Proof.
  unfold scanDescription. destruct (truthy_string description) as [d|]; [|tauto].
  generalize sponsorKeywords. intros kws. revert st.
  induction kws as [|k kws IH]; intros st F; cbn [fold_left]; [exact F|].
  apply IH. now apply scanDescriptionKeyword_flagged.
Qed.

Lemma scanTagKeyword_flagged (tl : jsstring) (st : Detection) (k : jsstring) :
  flagged st -> flagged (scanTagKeyword tl st k).
Proof.
  intros F. unfold scanTagKeyword. destruct (_ && _); [|exact F]. unfold flagged.
  cbn [d_hasSponsorship d_adIndicators]. split; [intros _; apply app_one_not_nil | reflexivity].
Qed.

Lemma scanTag_flagged (st : Detection) (tag : jsstring) :
  flagged st -> flagged (scanTag toLowerCase st tag).
Proof.
  intros F. unfold scanTag. cbv zeta.
  assert (flagged (fold_left (scanTagKeyword (toLowerCase tag)) sponsorKeywords st)) as F1.
  { generalize sponsorKeywords. intros kws. revert st F.
    induction kws as [|k kws IH]; intros st F; cbn [fold_left]; [exact F|].
    apply IH. now apply scanTagKeyword_flagged. }
  revert F1. generalize (fold_left (scanTagKeyword (toLowerCase tag)) sponsorKeywords st).
  intros st1 F1. destruct (_ && _); exact F1.
Qed.

Lemma scanTags_flagged (tags : TagsArg) (st : Detection) :
  flagged st -> flagged (scanTags toLowerCase tags st).
Proof.
  intros F. destruct tags as [| | |l]; try exact F. cbn [scanTags].
  revert st F; induction l as [|tag l IH]; intros st F; [exact F|].
  cbn [fold_left]. apply IH. now apply scanTag_flagged.
Qed.

Lemma scanTimestamps_flagged (description : nullable jsstring) (st : Detection) :
  flagged st -> flagged (fst (scanTimestamps description st)).
Proof.
  intros F. unfold scanTimestamps. destruct (timestampMatches description); [|exact F].
  unfold flagged. cbn [fst d_hasSponsorship d_adIndicators].
  split; [intros _; apply app_one_not_nil | reflexivity].
Qed.

(** X1. [hasSponsorship] is true exactly when [adIndicators] is not
    empty: the flag and the list are always assigned together. *)
Theorem detectSponsorship_flag_iff_indicators (description : nullable jsstring)
  (tags : TagsArg) :
  hasSponsorship (detect description tags) = true <->
  adIndicators (detect description tags) <> [].
Proof.
  rewrite detectSponsorship_stages. cbv zeta. cbn [hasSponsorship adIndicators].
  assert (flagged st0) as F0 by (unfold flagged; cbn; split; congruence).
  pose proof (scanTimestamps_flagged description
                (scanTags_flagged tags (scanDescription_flagged description F0))) as F.
  revert F.
  generalize (fst (scanTimestamps description
                     (scanTags toLowerCase tags
                        (scanDescription toLowerCase description st0)))).
  intros st3 F. unfold flagged in F. rewrite F.
  destruct (d_adIndicators st3) as [|x l]; [tauto|].
  cbn [length Nat.ltb Nat.leb]. rewrite dedup_nil_iff. tauto.
Qed.

(** X2. Neither [adIndicators] nor [detectedBrands] has a phrase twice. *)
Theorem detectSponsorship_no_duplicates (description : nullable jsstring) (tags : TagsArg) :
  NoDup (adIndicators (detect description tags)) /\
  NoDup (detectedBrands (detect description tags)).
Proof.
  rewrite detectSponsorship_stages. cbv zeta. cbn [adIndicators detectedBrands].
  split; [|apply dedup_NoDup].
  destruct (0 <? _)%nat; [apply dedup_NoDup | constructor].
Qed.

(** The phrases that the stage of the description records. *)
Lemma scanDescription_indicators (description : nullable jsstring) (k : jsstring) :
  In k (d_adIndicators (scanDescription toLowerCase description st0)) <->
  In k sponsorKeywords /\
  exists d, description = val d /\ d <> [] /\ includes (toLowerCase d) k = true.
Proof.
  unfold scanDescription. destruct (truthy_string description) as [d|] eqn:E.
  - apply truthy_string_spec in E. destruct E as [-> Hne].
    rewrite description_loop_indicators. cbn [d_adIndicators app]. rewrite filter_In.
    split.
    + intros [H1 H2]. split; [exact H1|]. now exists d.
    + intros [H1 (d' & Hd & _ & H2)]. injection Hd as <-. now split.
  - cbn [d_adIndicators In]. split; [contradiction|].
    intros [_ (d & -> & Hne & _)]. destruct d; [congruence | discriminate].
Qed.

(** The phrases that the stage of the tags adds. *)
Lemma scanTags_indicators (tags : TagsArg) (st : Detection) (k : jsstring) :
  In k (d_adIndicators (scanTags toLowerCase tags st)) <->
  In k (d_adIndicators st) \/
  (In k sponsorKeywords /\
   exists l tag, tags = TagsArray l /\ In tag l /\ includes (toLowerCase tag) k = true).
Proof.
  destruct tags as [| | |l]; cbn [scanTags];
    try (split; [now left | intros [H | [_ (l & tag & H & _)]]; [exact H | discriminate]]).
  revert st; induction l as [|tag l IH]; intros st; cbn [fold_left].
  - split; [now left|]. intros [H | [_ (l' & tag & H & Hin & _)]]; [exact H|].
    injection H as <-. destruct Hin.
  - rewrite IH, scanTag_indicators. split.
    + intros [[H | [H1 H2]] | [H1 (l' & tag' & Hl & Hin & H2)]].
      * now left.
      * right. split; [exact H1|]. exists (tag :: l), tag. repeat split; [now left | exact H2].
      * injection Hl as <-. right. split; [exact H1|].
        exists (tag :: l), tag'. repeat split; [now right | exact H2].
    + intros [H | [H1 (l' & tag' & Hl & Hin & H2)]]; [now left; left|].
      injection Hl as <-. destruct Hin as [<- | Hin].
      * left. right. now split.
      * right. split; [exact H1|]. now exists l, tag'.
Qed.

Lemma timestampMatches_spec (description : nullable jsstring) :
  timestampMatches description <> None <->
  exists d, description = val d /\ d <> [] /\ matchesSomewhere adTimestampRegex d.
Proof.
  unfold timestampMatches. destruct (truthy_string description) as [d|] eqn:E.
  - apply truthy_string_spec in E. destruct E as [-> Hne].
    rewrite search_matchesSomewhere. split.
    + intros H. now exists d.
    + intros (d' & Hd & _ & H). injection Hd as <-. exact H.
  - split; [congruence|]. intros (d & -> & Hne & _).
    destruct d; [congruence | discriminate].
Qed.

Lemma scanTimestamps_indicators (description : nullable jsstring) (st : Detection)
  (k : jsstring) :
  In k (d_adIndicators (fst (scanTimestamps description st))) <->
  In k (d_adIndicators st) \/
  (k = str "timestamp indicator" /\ timestampMatches description <> None).
Proof.
  unfold scanTimestamps. destruct (timestampMatches description) as [m|].
  - cbn [fst d_adIndicators]. rewrite in_app_iff. cbn [In]. split.
    + intros [H | [<- | []]]; [now left | right; split; [reflexivity | discriminate]].
    + intros [H | [-> _]]; [now left | right; now left].
  - cbn [fst]. split; [now left | intros [H | [_ H]]; [exact H | congruence]].
Qed.

(** X3. What is in [adIndicators]: the phrases of the list that the
    lower-cased description or some lower-cased tag contains, and
    "timestamp indicator" when the ad-segment pattern matches somewhere in
    the description; nothing else. *)
Theorem detectSponsorship_indicators (description : nullable jsstring) (tags : TagsArg)
  (k : jsstring) :
  In k (adIndicators (detect description tags)) <->
  (In k sponsorKeywords /\
   ((exists d, description = val d /\ d <> [] /\ includes (toLowerCase d) k = true) \/
    (exists l tag, tags = TagsArray l /\ In tag l /\ includes (toLowerCase tag) k = true)))
  \/
  (k = str "timestamp indicator" /\
   exists d, description = val d /\ d <> [] /\ matchesSomewhere adTimestampRegex d).
Proof.
  rewrite detectSponsorship_stages. cbv zeta. cbn [adIndicators].
  rewrite dedup_if_In, scanTimestamps_indicators, scanTags_indicators,
    scanDescription_indicators, timestampMatches_spec.
  tauto.
Qed.

(** The brands that the sentences of one phrase add. *)
Lemma sentences_loop_brands (k : jsstring) (sentences : list jsstring)
  (details : jsstring) (brands : list jsstring) (b : jsstring) :
  In b (snd (fold_left (scanSentence toLowerCase k) sentences (details, brands))) <->
  In b brands \/
  exists sentence, In sentence sentences /\
    includes (toLowerCase sentence) k = true /\ In b (extractBrands sentence).
Proof.
  revert details brands; induction sentences as [|s l IH]; intros details brands;
    cbn [fold_left].
  - cbn [snd]. split; [now left | intros [H | (s & [] & _)]; exact H].
  - unfold scanSentence at 2. destruct (includes (toLowerCase s) k) eqn:E.
    + rewrite IH. split.
      * intros [H | (s' & Hin & H1 & H2)].
        -- destruct (0 <? _)%nat eqn:E0.
           ++ apply in_app_or in H. destruct H as [H | H]; [now left|].
              right. exists s. repeat split; [now left | exact E | exact H].
           ++ now left.
        -- right. exists s'. repeat split; [now right | exact H1 | exact H2].
      * intros [H | (s' & [<- | Hin] & H1 & H2)].
        -- left. destruct (0 <? _)%nat; [apply in_or_app; now left | exact H].
        -- left. destruct (extractBrands s) as [|x xs] eqn:Ex; [destruct H2|].
           cbn [length Nat.ltb Nat.leb]. apply in_or_app. now right.
        -- right. now exists s'.
    + rewrite IH. split.
      * intros [H | (s' & Hin & H1 & H2)]; [now left|].
        right. exists s'. repeat split; [now right | exact H1 | exact H2].
      * intros [H | (s' & [<- | Hin] & H1 & H2)]; [now left | congruence |].
        right. now exists s'.
Qed.

Lemma scanDescriptionKeyword_brands (d dl : jsstring) (st : Detection) (k b : jsstring) :
  In b (d_detectedBrands (scanDescriptionKeyword toLowerCase d dl st k)) <->
  In b (d_detectedBrands st) \/
  (includes dl k = true /\
   exists sentence, In sentence (split_runs is_sentence_end d) /\
     includes (toLowerCase sentence) k = true /\ In b (extractBrands sentence)).
Proof.
  unfold scanDescriptionKeyword. destruct (includes dl k).
  - pose proof (sentences_loop_brands k (split_runs is_sentence_end d)
                  (d_sponsorshipDetails st) (d_detectedBrands st) b) as H.
    destruct (fold_left _ _ _) as [details brands]. cbn [snd] in H.
    cbn [d_detectedBrands]. rewrite H. tauto.
  - split; [now left | intros [H | [H _]]; [exact H | discriminate]].
Qed.

Lemma description_loop_brands (d dl : jsstring) (kws : list jsstring) (st : Detection)
  (b : jsstring) :
  In b (d_detectedBrands (fold_left (scanDescriptionKeyword toLowerCase d dl) kws st)) <->
  In b (d_detectedBrands st) \/
  exists k sentence, In k kws /\ includes dl k = true /\
    In sentence (split_runs is_sentence_end d) /\
    includes (toLowerCase sentence) k = true /\ In b (extractBrands sentence).
Proof.
  revert st; induction kws as [|k kws IH]; intros st; cbn [fold_left].
  - split; [now left | intros [H | (k & s & [] & _)]; exact H].
  - rewrite IH, scanDescriptionKeyword_brands. split.
    + intros [[H | (H1 & s & H2 & H3 & H4)] | (k' & s & H0 & H1 & H2 & H3 & H4)].
      * now left.
      * right. exists k, s. repeat split; try assumption. now left.
      * right. exists k', s. repeat split; try assumption. now right.
    + intros [H | (k' & s & [<- | H0] & H1 & H2 & H3 & H4)].
      * now left; left.
      * left. right. split; [exact H1|]. now exists s.
      * right. now exists k', s.
Qed.

Lemma scanDescription_brands (description : nullable jsstring) (b : jsstring) :
  In b (d_detectedBrands (scanDescription toLowerCase description st0)) <->
  exists d k sentence, description = val d /\ d <> [] /\
    In k sponsorKeywords /\ includes (toLowerCase d) k = true /\
    In sentence (split_runs is_sentence_end d) /\
    includes (toLowerCase sentence) k = true /\ In b (extractBrands sentence).
Proof.
  unfold scanDescription. destruct (truthy_string description) as [d|] eqn:E.
  - apply truthy_string_spec in E. destruct E as [-> Hne].
    rewrite description_loop_brands. cbn [d_detectedBrands In]. split.
    + intros [[] | (k & s & H)]. now exists d, k, s.
    + intros (d' & k & s & Hd & _ & H). injection Hd as <-. right. now exists k, s.
  - cbn [d_detectedBrands In]. split; [contradiction|].
    intros (d & k & s & -> & Hne & _). destruct d; [congruence | discriminate].
Qed.

(** The loop over the phrases of one tag assigns the flag and the
    indicators only. *)
Lemma tag_keywords_rest (kws : list jsstring) (tl : jsstring) (st : Detection) :
  d_sponsorshipDetails (fold_left (scanTagKeyword tl) kws st) = d_sponsorshipDetails st /\
  d_detectedBrands (fold_left (scanTagKeyword tl) kws st) = d_detectedBrands st.
Proof.
  revert st; induction kws as [|k kws IH]; intros st; cbn [fold_left]; [now split|].
  destruct (IH (scanTagKeyword tl st k)) as [H1 H2]. rewrite H1, H2.
  unfold scanTagKeyword. destruct (_ && _); now split.
Qed.

Lemma scanTag_rest (st : Detection) (tag : jsstring) :
  d_sponsorshipDetails (scanTag toLowerCase st tag) = d_sponsorshipDetails st /\
  d_detectedBrands (scanTag toLowerCase st tag)
  = d_detectedBrands st ++ (if tagIsBrand tag then [tag] else []).
Proof.
  unfold scanTag, tagIsBrand. cbv zeta.
  destruct (tag_keywords_rest sponsorKeywords (toLowerCase tag) st) as [H1 H2].
  revert H1 H2. generalize (fold_left (scanTagKeyword (toLowerCase tag)) sponsorKeywords st).
  intros st1 H1 H2. destruct (_ && _); cbn [d_sponsorshipDetails d_detectedBrands];
    rewrite H1, H2; [now split | now rewrite app_nil_r].
Qed.

Lemma tags_loop_rest (l : list jsstring) (st : Detection) :
  d_sponsorshipDetails (fold_left (scanTag toLowerCase) l st) = d_sponsorshipDetails st /\
  d_detectedBrands (fold_left (scanTag toLowerCase) l st)
  = d_detectedBrands st ++ filter tagIsBrand l.
Proof.
  revert st; induction l as [|tag l IH]; intros st; cbn [fold_left filter].
  - now rewrite app_nil_r.
  - destruct (IH (scanTag toLowerCase st tag)) as [H1 H2]. rewrite H1, H2.
    destruct (scanTag_rest st tag) as [H3 H4]. rewrite H3, H4.
    split; [reflexivity|]. rewrite <- app_assoc. now destruct (tagIsBrand tag).
Qed.

Lemma scanTags_details (tags : TagsArg) (st : Detection) :
  d_sponsorshipDetails (scanTags toLowerCase tags st) = d_sponsorshipDetails st.
Proof. destruct tags as [| | |l]; try reflexivity. apply tags_loop_rest. Qed.

Lemma scanTags_brands (tags : TagsArg) (st : Detection) :
  d_detectedBrands (scanTags toLowerCase tags st)
  = d_detectedBrands st
    ++ match tags with TagsArray l => filter tagIsBrand l | _ => [] end.
Proof.
  destruct tags as [| | |l]; try (cbn [scanTags]; now rewrite app_nil_r).
  apply tags_loop_rest.
Qed.

Lemma scanTimestamps_brands (description : nullable jsstring) (st : Detection) :
  d_detectedBrands (fst (scanTimestamps description st)) = d_detectedBrands st.
Proof. unfold scanTimestamps. now destruct (timestampMatches description). Qed.

(** X4. What is in [detectedBrands]: the brands that [extractBrands] finds
    in a sentence of the description that contains a phrase which the
    description contains, and the tags of more than three code units that
    start with an upper-case letter; nothing else. *)
Theorem detectSponsorship_brands (description : nullable jsstring) (tags : TagsArg)
  (b : jsstring) :
  In b (detectedBrands (detect description tags)) <->
  (exists d k sentence, description = val d /\ d <> [] /\
     In k sponsorKeywords /\ includes (toLowerCase d) k = true /\
     In sentence (split_runs is_sentence_end d) /\
     includes (toLowerCase sentence) k = true /\ In b (extractBrands sentence))
  \/
  (exists l, tags = TagsArray l /\ In b l /\ tagIsBrand b = true).
Proof.
  rewrite detectSponsorship_stages. cbv zeta. cbn [detectedBrands].
  rewrite dedup_In, scanTimestamps_brands, scanTags_brands, in_app_iff,
    scanDescription_brands.
  apply or_iff_compat_l. destruct tags as [| | |l];
    try (split; [contradiction | intros (l & H & _); discriminate]).
  rewrite filter_In. split.
  - intros H. now exists l.
  - intros (l' & Hl & H). injection Hl as <-. exact H.
Qed.

Lemma scanTimestamps_details (description : nullable jsstring) (st st' : Detection) :
  d_sponsorshipDetails st = d_sponsorshipDetails st' ->
  d_sponsorshipDetails (fst (scanTimestamps description st))
  = d_sponsorshipDetails (fst (scanTimestamps description st')) /\
  snd (scanTimestamps description st) = snd (scanTimestamps description st').
Proof.
  intros H. unfold scanTimestamps. destruct (timestampMatches description);
    cbn [fst snd d_sponsorshipDetails]; [rewrite H|]; now split.
Qed.

(** X5. The tags change neither [sponsorshipDetails] nor [adDuration]:
    both are what the description alone gives. *)
Theorem detectSponsorship_tags_irrelevant (description : nullable jsstring)
  (tags : TagsArg) :
  sponsorshipDetails (detect description tags)
  = sponsorshipDetails (detect description TagsNull) /\
  adDuration (detect description tags) = adDuration (detect description TagsNull).
Proof.
  rewrite !detectSponsorship_stages. cbv zeta. cbn [sponsorshipDetails adDuration].
  destruct (scanTimestamps_details description
              (scanTags toLowerCase tags (scanDescription toLowerCase description st0))
              (scanTags toLowerCase TagsNull (scanDescription toLowerCase description st0))
              (eq_trans (scanTags_details tags _) (eq_sym (scanTags_details TagsNull _))))
    as [H1 H2].
  rewrite H1, H2. now split.
Qed.

(** X6. Without a usable description (absent or empty), the brands are
    the qualifying tags, in their order and once each, there are no
    details and no duration. *)
Theorem detectSponsorship_tags_only (description : nullable jsstring) (l : list jsstring) :
  truthy_string description = None ->
  detectedBrands (detect description (TagsArray l)) = dedup (filter tagIsBrand l) /\
  sponsorshipDetails (detect description (TagsArray l)) = [] /\
  adDuration (detect description (TagsArray l)) = None.
Proof.
  intros H. rewrite detectSponsorship_stages. cbv zeta.
  cbn [detectedBrands sponsorshipDetails adDuration].
  unfold scanTimestamps, timestampMatches, scanDescription. rewrite H. cbn [fst snd].
  rewrite scanTags_brands, scanTags_details. cbn [d_detectedBrands d_sponsorshipDetails app].
  repeat split.
Qed.

Lemma derives_star_class_intro (p : codeunit -> bool) (d s : jsstring) (caps : captures) :
  forallb p d = true -> derives (Star (Chr p)) (d ++ s) caps s caps.
Proof.
  induction d as [|c d IH]; cbn [forallb app]; intros H; [constructor|].
  apply andb_true_iff in H. destruct H as [Hc Hd].
  apply D_StarStep with (s1 := d ++ s) (c1 := caps); [now constructor | cbn; lia | now apply IH].
Qed.

(** The pattern of the ad segments starts with a digit. *)
Lemma adTimestampRegex_digit (t s1 : jsstring) (c1 : captures) :
  derives adTimestampRegex t [] s1 c1 -> exists c t', t = c :: t' /\ is_digit c = true.
Proof.
  intros D. unfold adTimestampRegex in D.
  apply derives_Seq_inv in D. destruct D as (s' & c' & D & _).
  apply derives_Group_inv in D. destruct D as (c'' & D & _).
  apply derives_timestampPattern in D. destruct D as (g & -> & (d1 & c & d2 & -> & Hne & Hd & _)).
  destruct d1 as [|x d1]; [congruence|]. cbn [forallb] in Hd.
  apply andb_true_iff in Hd. exists x. eexists. split; [reflexivity | apply Hd].
Qed.

(** X7. A description without a digit gives no timestamp indicator and
    no duration. *)
Theorem detectSponsorship_no_digit (d : jsstring) (tags : TagsArg) :
  forallb (fun c => negb (is_digit c)) d = true ->
  ~ In (str "timestamp indicator") (adIndicators (detect (val d) tags)) /\
  adDuration (detect (val d) tags) = None.
Proof.
  intros Hd.
  assert (timestampMatches (val d) = None) as Hm.
  { destruct (timestampMatches (val d)) eqn:E; [|reflexivity]. exfalso.
    assert (timestampMatches (val d) <> None) as Hn by congruence.
    apply timestampMatches_spec in Hn.
    destruct Hn as (d' & Hd' & _ & pre & t & s1 & c1 & -> & D). injection Hd' as ->.
    apply adTimestampRegex_digit in D. destruct D as (c & t' & -> & Hc).
    rewrite forallb_app in Hd. apply andb_true_iff in Hd. destruct Hd as [_ Hd].
    cbn [forallb] in Hd. rewrite Hc in Hd. discriminate. }
  rewrite detectSponsorship_stages. cbv zeta. cbn [adIndicators adDuration].
  rewrite dedup_if_In, scanTimestamps_indicators, scanTags_indicators,
    scanDescription_indicators.
  split.
  - intros [[(Hk & _) | (Hk & _)] | (_ & H)]; [| | congruence];
      revert Hk; clear; intros Hk;
      (repeat (destruct Hk as [Hk | Hk]; [discriminate Hk|])); destruct Hk.
  - unfold scanTimestamps. rewrite Hm. reflexivity.
Qed.

(** X8. A digit followed, after any white space, by the letters [ad] is
    enough for the flag: the description is read as giving an ad segment
    whatever the words around are. *)
Theorem detectSponsorship_digit_ad (pre sp post : jsstring) (c : codeunit) (tags : TagsArg) :
  is_digit c = true -> forallb is_space sp = true ->
  let info := detect (val (pre ++ c :: sp ++ str "ad" ++ post)) tags in
  hasSponsorship info = true /\
  In (str "timestamp indicator") (adIndicators info).
Proof.
  intros Hc Hsp.
  assert (timestampMatches (val (pre ++ c :: sp ++ str "ad" ++ post)) <> None) as Hm.
  { apply timestampMatches_spec. eexists. split; [reflexivity|]. split.
    { destruct pre; discriminate. }
    exists pre, (c :: sp ++ str "ad" ++ post), post. eexists. split; [reflexivity|].
    unfold adTimestampRegex.
    eapply D_Seq.
    { apply D_Group. unfold timestampPattern, Plus, Opt.
      eapply D_Seq; [eapply D_Seq; [apply D_Chr; exact Hc | apply D_StarStop]|].
      eapply D_Seq; [apply D_AltR; apply D_Eps | apply D_StarStop]. }
    eapply D_Seq; [apply derives_star_class_intro; exact Hsp|].
    eapply D_Seq; [apply D_AltR; apply D_Eps|].
    eapply D_Seq; [apply D_StarStop|].
    eapply D_Seq; [apply D_AltR; apply D_Eps|].
    eapply D_Seq; [apply D_StarStop|].
    apply D_Group. apply D_AltL. unfold lit_i. cbn [str lit_with].
    cbv [str] . cbn.
    eapply D_Seq; [apply D_Chr; reflexivity|].
    eapply D_Seq; [apply D_Chr; reflexivity | apply D_Eps]. }
  cbv zeta.
  assert (In (str "timestamp indicator")
            (adIndicators (detect (val (pre ++ c :: sp ++ str "ad" ++ post)) tags))) as Hin.
  { rewrite detectSponsorship_stages. cbv zeta. cbn [adIndicators].
    rewrite dedup_if_In, scanTimestamps_indicators. right. now split. }
  split; [|exact Hin].
  rewrite detectSponsorship_stages in *. cbv zeta in *. cbn [hasSponsorship].
  unfold scanTimestamps in *. destruct (timestampMatches _); [reflexivity | congruence].
Qed.

End DetectFurther.

Lemma detectSponsorship_tags_only_witness :
  detectedBrands (detectSponsorship toLowerCase_basic (val [])
                    (TagsArray [str "NordVPN"; str "vpn"; str "Acme"; str "NordVPN"]))
  = dedup (filter tagIsBrand [str "NordVPN"; str "vpn"; str "Acme"; str "NordVPN"]).
Proof.
  apply (detectSponsorship_tags_only toLowerCase_basic (val [])
           [str "NordVPN"; str "vpn"; str "Acme"; str "NordVPN"]).
  reflexivity.
Defined.

Lemma detectSponsorship_no_digit_witness :
  adDuration (detectSponsorship toLowerCase_basic (val (str "Thanks for watching!")) TagsNull)
  = None.
Proof.
  apply (detectSponsorship_no_digit toLowerCase_basic (str "Thanks for watching!") TagsNull).
  reflexivity.
Defined.

Lemma detectSponsorship_digit_ad_witness :
  let info :=
    detectSponsorship toLowerCase_basic
      (val (str "Top 1" ++ 48%N :: str " " ++ str "ad" ++ str "ventures")) TagsNull in
  hasSponsorship info = true /\
  In (str "timestamp indicator") (adIndicators info).
Proof.
  apply (detectSponsorship_digit_ad toLowerCase_basic (str "Top 1") (str " ")
           (str "ventures") 48%N TagsNull); reflexivity.
Defined.

(** ** The duration of an ad segment given as two timestamps *)

(** The first choice of the matcher at each construct: when it leads to a
    result, that result is the one of the match. *)
Lemma rmatch_Chr_take (p : codeunit -> bool) (c : codeunit) (s : jsstring)
  (caps : captures) (k : jsstring -> captures -> outcome) (x : jsstring * captures) :
  p c = true -> k s caps = Some x -> rmatch (Chr p) (c :: s) caps k = Some x.
Proof. intros Hc Hk. cbn [rmatch]. now rewrite Hc. Qed.

Lemma rmatch_Eps_take (s : jsstring) (caps : captures)
  (k : jsstring -> captures -> outcome) (x : jsstring * captures) :
  k s caps = Some x -> rmatch Eps s caps k = Some x.
Proof. intros H. exact H. Qed.

Lemma rmatch_Seq_take (r1 r2 : regex) (s : jsstring) (caps : captures)
  (k : jsstring -> captures -> outcome) (x : jsstring * captures) :
  rmatch r1 s caps (fun s1 c1 => rmatch r2 s1 c1 k) = Some x ->
  rmatch (Seq r1 r2) s caps k = Some x.
Proof. intros H. exact H. Qed.

Lemma rmatch_Alt_take (r1 r2 : regex) (s : jsstring) (caps : captures)
  (k : jsstring -> captures -> outcome) (x : jsstring * captures) :
  rmatch r1 s caps k = Some x -> rmatch (Alt r1 r2) s caps k = Some x.
Proof. intros H. cbn [rmatch]. now rewrite H. Qed.

Lemma rmatch_Group_take (n : nat) (r : regex) (g rest : jsstring) (caps : captures)
  (k : jsstring -> captures -> outcome) (x : jsstring * captures) :
  (forall k', k' rest caps = Some x -> rmatch r (g ++ rest) caps k' = Some x) ->
  k rest ((n, g) :: caps) = Some x ->
  rmatch (Group n r) (g ++ rest) caps k = Some x.
Proof.
  intros Hr Hk. cbn [rmatch]. apply Hr. now rewrite consumed_prefix.
Qed.

Lemma rmatch_Chr_cons (p : codeunit -> bool) (c : codeunit) (s : jsstring)
  (caps : captures) (k : jsstring -> captures -> outcome) :
  rmatch (Chr p) (c :: s) caps k = if p c then k s caps else None.
Proof. reflexivity. Qed.

(** The greedy star of a class takes the whole run when what follows can
    be matched from its end. *)
Lemma rmatch_Star_take (p : codeunit -> bool) (ds rest : jsstring) (caps : captures)
  (k : jsstring -> captures -> outcome) (x : jsstring * captures) :
  forallb p ds = true ->
  match rest with [] => true | c :: _ => negb (p c) end = true ->
  k rest caps = Some x ->
  rmatch (Star (Chr p)) (ds ++ rest) caps k = Some x.
Proof.
  intros Hds Hrest Hk. induction ds as [|c ds IH]; rewrite rmatch_Star; cbn [app].
  - destruct rest as [|c rest]; [exact Hk|].
    apply negb_true_iff in Hrest. now rewrite rmatch_Chr_cons, Hrest.
  - cbn [forallb] in Hds. apply andb_true_iff in Hds. destruct Hds as [Hc Hds].
    rewrite rmatch_Chr_cons, Hc.
    replace (length (ds ++ rest) <? length (c :: ds ++ rest))%nat with true
      by (symmetry; apply Nat.ltb_lt; cbn [length]; lia).
    now rewrite (IH Hds).
Qed.

(** A timestamp of minutes and seconds, matched whole. *)
Lemma rmatch_timestampPattern_take (m s rest : jsstring) (caps : captures)
  (k : jsstring -> captures -> outcome) (x : jsstring * captures) :
  m <> [] -> forallb is_digit m = true -> forallb is_digit s = true ->
  match rest with [] => true | c :: _ => negb (is_digit c) end = true ->
  k rest caps = Some x ->
  rmatch timestampPattern ((m ++ colon :: s) ++ rest) caps k = Some x.
Proof.
  intros Hne Hm Hs Hrest Hk. destruct m as [|c m]; [congruence|].
  cbn [forallb] in Hm. apply andb_true_iff in Hm. destruct Hm as [Hc Hm].
  rewrite <- app_assoc. cbn [app]. unfold timestampPattern, Plus, Opt.
  apply rmatch_Seq_take, rmatch_Seq_take, rmatch_Chr_take; [exact Hc|].
  apply rmatch_Star_take; [exact Hm | reflexivity|].
  apply rmatch_Seq_take, rmatch_Alt_take, rmatch_Chr_take; [reflexivity|].
  now apply rmatch_Star_take.
Qed.

Lemma space_not_digit (c : codeunit) : is_space c = true -> is_digit c = false.
Proof.
  intros H. destruct (is_digit c) eqn:E; [|reflexivity].
  apply digit_not_space in E. congruence.
Qed.

(** After white space and a code unit that is no digit, no digit comes
    first; after digits, no white space. *)
Lemma no_digit_ahead (sp : jsstring) (c : codeunit) (rest : jsstring) :
  forallb is_space sp = true -> is_digit c = false ->
  match sp ++ c :: rest with [] => true | c0 :: _ => negb (is_digit c0) end = true.
Proof.
  intros Hsp Hc. destruct sp as [|a sp]; cbn [app].
  - now rewrite Hc.
  - cbn [forallb] in Hsp. apply andb_true_iff in Hsp. now rewrite (@space_not_digit _ (proj1 Hsp)).
Qed.

Lemma no_space_ahead (m rest : jsstring) :
  m <> [] -> forallb is_digit m = true ->
  match m ++ rest with [] => true | c :: _ => negb (is_space c) end = true.
Proof.
  intros Hne Hm. destruct m as [|c m]; [congruence|]. cbn [app forallb] in *.
  apply andb_true_iff in Hm. now rewrite (@digit_not_space _ (proj1 Hm)).
Qed.

(** The match of the pattern of the ad segments on two timestamps, a
    hyphen between them, and the word [ad]. *)
Lemma match_here_segment (m1 s1 sp1 sp2 m2 s2 sp3 post : jsstring) :
  m1 <> [] -> m2 <> [] ->
  forallb is_digit (m1 ++ s1 ++ m2 ++ s2) = true ->
  forallb is_space (sp1 ++ sp2 ++ sp3) = true ->
  exists m : match_result,
    match_here adTimestampRegex
      ((m1 ++ colon :: s1) ++ sp1 ++ str "-" ++ sp2 ++ (m2 ++ colon :: s2)
         ++ sp3 ++ str "ad" ++ post)
    = Some m /\
    group 1 (groups m) = Some (m1 ++ colon :: s1) /\
    group 2 (groups m) = Some (m2 ++ colon :: s2).
Proof.
  intros Hn1 Hn2 Hd Hsp.
  rewrite forallb_app in Hd. apply andb_true_iff in Hd. destruct Hd as [Hm1 Hd].
  rewrite forallb_app in Hd. apply andb_true_iff in Hd. destruct Hd as [Hs1 Hd].
  rewrite forallb_app in Hd. apply andb_true_iff in Hd. destruct Hd as [Hm2 Hs2].
  rewrite forallb_app in Hsp. apply andb_true_iff in Hsp. destruct Hsp as [Hsp1 Hsp].
  rewrite forallb_app in Hsp. apply andb_true_iff in Hsp. destruct Hsp as [Hsp2 Hsp3].
  assert (rmatch adTimestampRegex
            ((m1 ++ colon :: s1) ++ sp1 ++ str "-" ++ sp2 ++ (m2 ++ colon :: s2)
               ++ sp3 ++ str "ad" ++ post) [] (fun s c => Some (s, c))
          = Some (post, [(3%nat, str "ad"); (2%nat, m2 ++ colon :: s2);
                         (1%nat, m1 ++ colon :: s1)])) as H.
  { unfold adTimestampRegex.
    apply rmatch_Seq_take, rmatch_Group_take.
    { intros k' Hk'. apply rmatch_timestampPattern_take; try assumption.
      now apply no_digit_ahead. }
    apply rmatch_Seq_take, rmatch_Star_take; [exact Hsp1 | reflexivity|].
    apply rmatch_Seq_take. unfold Opt at 1.
    apply rmatch_Alt_take. change (lit "-") with (Seq (Chr (N.eqb 45%N)) Eps).
    change (str "-" ++ sp2 ++ (m2 ++ colon :: s2) ++ sp3 ++ str "ad" ++ post)
      with (45%N :: sp2 ++ (m2 ++ colon :: s2) ++ sp3 ++ str "ad" ++ post).
    apply rmatch_Seq_take, rmatch_Chr_take; [reflexivity|]. apply rmatch_Eps_take.
    apply rmatch_Seq_take, rmatch_Star_take; [exact Hsp2 | |].
    { rewrite <- app_assoc. now apply no_space_ahead. }
    apply rmatch_Seq_take. unfold Opt at 1.
    apply rmatch_Alt_take, rmatch_Group_take.
    { intros k' Hk'. apply rmatch_timestampPattern_take; try assumption.
      change (str "ad" ++ post) with (97%N :: 100%N :: post).
      now apply no_digit_ahead. }
    apply rmatch_Seq_take, rmatch_Star_take; [exact Hsp3 | reflexivity|].
    change (str "ad" ++ post) with ([97%N; 100%N] ++ post).
    apply rmatch_Group_take; [|reflexivity].
    intros k' Hk'. apply rmatch_Alt_take.
    change (lit_i "ad")
      with (Seq (Chr (fun c => N.eqb (ascii_upper c) (ascii_upper 97%N)))
              (Seq (Chr (fun c => N.eqb (ascii_upper c) (ascii_upper 100%N))) Eps)).
    cbn [app].
    apply rmatch_Seq_take, rmatch_Chr_take; [reflexivity|].
    apply rmatch_Seq_take, rmatch_Chr_take; [reflexivity|].
    apply rmatch_Eps_take. exact Hk'. }
  unfold match_here. rewrite H. eexists. split; [reflexivity|].
  cbn [groups group Nat.eqb]. now split.
Qed.

(** The search skips what cannot start a match: a code unit that is no
    digit. *)
Lemma search_skip_no_digit (pre t : jsstring) :
  forallb (fun c => negb (is_digit c)) pre = true ->
  search adTimestampRegex (pre ++ t) = search adTimestampRegex t.
Proof.
  induction pre as [|c pre IH]; cbn [forallb app]; [reflexivity|].
  intros H. apply andb_true_iff in H. destruct H as [Hc Hpre].
  apply negb_true_iff in Hc. rewrite <- (IH Hpre).
  cbn [search]. unfold match_here at 1.
  replace (rmatch adTimestampRegex (c :: pre ++ t) [] (fun s1 c1 => Some (s1, c1)))
    with (@None (jsstring * captures)); [reflexivity|].
  unfold adTimestampRegex, timestampPattern, Plus. cbn [rmatch]. now rewrite Hc.
Qed.

Lemma search_at_start (r : regex) (t : jsstring) (m : match_result) :
  match_here r t = Some m -> search r t = Some m.
Proof. intros H. destruct t; cbn [search]; now rewrite H. Qed.

(** X15. A description that gives an ad segment as two timestamps of
    minutes and seconds with a hyphen between them, followed by the word
    [ad], and that has no digit before them: when both times, in seconds,
    are below 2^53, so that no operation of the source rounds,
    [adDuration] is the end in seconds minus the start in seconds. *)
Theorem detectSponsorship_segment_duration (toLowerCase : jsstring -> jsstring)
  (pre m1 s1 sp1 sp2 m2 s2 sp3 post : jsstring) (tags : TagsArg) :
  forallb (fun c => negb (is_digit c)) pre = true ->
  m1 <> [] -> s1 <> [] -> m2 <> [] -> s2 <> [] ->
  forallb is_digit (m1 ++ s1 ++ m2 ++ s2) = true ->
  forallb is_space (sp1 ++ sp2 ++ sp3) = true ->
  exactSeconds (Z.of_N (decimal m1) * 60 + Z.of_N (decimal s1)) ->
  exactSeconds (Z.of_N (decimal m2) * 60 + Z.of_N (decimal s2)) ->
  let description :=
    pre ++ (m1 ++ colon :: s1) ++ sp1 ++ str "-" ++ sp2 ++ (m2 ++ colon :: s2)
      ++ sp3 ++ str "ad" ++ post in
  adDuration (detectSponsorship toLowerCase (val description) tags)
  = Some (Int ((Z.of_N (decimal m2) * 60 + Z.of_N (decimal s2))
               - (Z.of_N (decimal m1) * 60 + Z.of_N (decimal s1)))).
Proof.
  intros Hpre Hn1 Hn1' Hn2 Hn2' Hd Hsp _ _ description.
  destruct (@match_here_segment m1 s1 sp1 sp2 m2 s2 sp3 post Hn1 Hn2 Hd Hsp)
    as (m & Hm & G1 & G2).
  rewrite detectSponsorship_stages. cbv zeta. cbn [adDuration].
  rewrite scanTimestamps_adDuration.
  assert (timestampMatches (val description) = Some m) as Ht.
  { unfold timestampMatches.
    assert (truthy_string (val description) = Some description) as ->.
    { apply truthy_string_spec. split; [reflexivity|]. subst description.
      destruct pre, m1; try congruence; discriminate. }
    subst description. rewrite search_skip_no_digit by exact Hpre.
    now apply search_at_start. }
  rewrite Ht, G1, G2.
  rewrite forallb_app in Hd. apply andb_true_iff in Hd. destruct Hd as [Hm1 Hd].
  rewrite forallb_app in Hd. apply andb_true_iff in Hd. destruct Hd as [Hs1 Hd].
  rewrite forallb_app in Hd. apply andb_true_iff in Hd. destruct Hd as [Hm2 Hs2].
  destruct (@convertTimestampToSeconds_digits m1 m1 s1 Hn1 Hn1 Hn1' Hm1 Hm1 Hs1)
    as (_ & E1 & _).
  destruct (@convertTimestampToSeconds_digits m2 m2 s2 Hn2 Hn2 Hn2' Hm2 Hm2 Hs2)
    as (_ & E2 & _).
  unfold computeAdDuration. destruct m2 as [|c2 m2]; [congruence|]. cbn [app].
  cbn [app] in E2. rewrite E1, E2. reflexivity.
Qed.

Lemma detectSponsorship_segment_duration_witness :
  adDuration (detectSponsorship toLowerCase_basic
                (val (str "Sponsor segment " ++ (str "1" ++ colon :: str "30") ++ str " "
                        ++ str "-" ++ str " " ++ (str "2" ++ colon :: str "45")
                        ++ str " " ++ str "ad" ++ str " break"))
                TagsNull)
  = Some (Int ((Z.of_N (decimal (str "2")) * 60 + Z.of_N (decimal (str "45")))
               - (Z.of_N (decimal (str "1")) * 60 + Z.of_N (decimal (str "30"))))).
Proof.
  apply (@detectSponsorship_segment_duration toLowerCase_basic (str "Sponsor segment ")
           (str "1") (str "30") (str " ") (str " ") (str "2") (str "45") (str " ")
           (str " break") TagsNull);
    first [ reflexivity | discriminate
          | unfold exactSeconds; vm_compute; split; [discriminate | reflexivity] ].
Defined.

(** ** [extractBrands] *)

Lemma alnum_bounds (c : codeunit) : is_alnum c = true -> (48 <= c <= 122)%N.
Proof.
  unfold is_alnum, is_upper, is_lower, is_digit, in_range. intros H.
  repeat (apply orb_true_iff in H; destruct H as [H | H]);
    apply andb_true_iff in H; destruct H as [H1 H2];
    apply N.leb_le in H1; apply N.leb_le in H2; lia.
Qed.

Lemma alnum_not_space (c : codeunit) : is_alnum c = true -> is_space c = false.
Proof.
  intros H. apply alnum_bounds in H. unfold is_space, in_range, one_of.
  apply orb_false_iff. split.
  - cbn [existsb]. repeat (apply orb_false_iff; split); try reflexivity;
      apply N.eqb_neq; lia.
  - apply andb_false_iff. left. apply N.leb_gt. lia.
Qed.

Lemma alnum_not_mark (c : codeunit) : is_alnum c = true -> is_mark c = false.
Proof.
  intros H. apply alnum_bounds in H. unfold is_mark, one_of. cbn [existsb].
  repeat (apply orb_false_iff; split); try reflexivity; apply N.eqb_neq; lia.
Qed.

Lemma forallb_weaken {A} (p q : A -> bool) (l : list A) :
  (forall x, p x = true -> q x = true) -> forallb p l = true -> forallb q l = true.
Proof.
  intros Hpq. induction l as [|x l IH]; cbn [forallb]; [reflexivity|].
  intros H. apply andb_true_iff in H. destruct H as [H1 H2].
  now rewrite (Hpq _ H1), IH.
Qed.

Lemma brandRegex_test_alnum (w : jsstring) :
  brandRegex_test w = true -> w <> [] /\ forallb is_alnum w = true.
Proof.
  destruct w as [|c t]; cbn [brandRegex_test forallb]; [discriminate|].
  intros H. apply andb_true_iff in H. destruct H as [H Hl].
  apply andb_true_iff in H. destruct H as [Hc _].
  split; [discriminate|]. apply andb_true_iff. split.
  - unfold is_alnum. now rewrite Hc.
  - revert Hl. apply forallb_weaken. intros x Hx. unfold is_alnum. rewrite Hx.
    now rewrite orb_true_r.
Qed.

(** Every text that the global search returns is what the pattern
    consumed at some place of the input. *)
Lemma match_all_aux_derives (r : regex) (fuel : nat) :
  forall (s x : jsstring),
    In x (match_all_aux fuel r s) ->
    exists (pre rest : jsstring) (c : captures),
      s = pre ++ x ++ rest /\ derives r (x ++ rest) [] rest c.
Proof.
  induction fuel as [|fuel IH]; intros s x; cbn [match_all_aux]; [contradiction|].
  destruct (search r s) as [m|] eqn:E; [|contradiction].
  apply search_sound_at in E. destruct E as (pre & Hs & D).
  intros [<- | Hin]; [now exists pre, (rest m), (groups m)|].
  destruct (matched m) as [|c t]; [destruct (rest m) as [|c' s']; [contradiction|]|];
    apply IH in Hin; destruct Hin as (pre' & rest' & c0 & Hr & D').
  - exists (pre ++ c' :: pre'), rest', c0. split; [|exact D'].
    rewrite Hs. cbn [app]. rewrite Hr, <- app_assoc. reflexivity.
  - exists (pre ++ (c :: t) ++ pre'), rest', c0. split; [|exact D'].
    rewrite Hs, Hr, <- !app_assoc. reflexivity.
Qed.

Lemma remove_all_app (p : codeunit -> bool) (a b : jsstring) :
  remove_all p (a ++ b) = remove_all p a ++ remove_all p b.
Proof. apply filter_app. Qed.

Lemma remove_all_none (p q : codeunit -> bool) (a : jsstring) :
  (forall c, q c = true -> p c = false) -> forallb q a = true -> remove_all p a = a.
Proof.
  intros Hq. induction a as [|c a IH]; cbn [forallb remove_all filter]; [reflexivity|].
  intros H. apply andb_true_iff in H. destruct H as [H1 H2].
  rewrite (Hq _ H1). cbn [negb]. f_equal. now apply IH.
Qed.

Lemma remove_all_every (p : codeunit -> bool) (a : jsstring) :
  forallb p a = true -> remove_all p a = [].
Proof.
  induction a as [|c a IH]; cbn [forallb remove_all filter]; [reflexivity|].
  intros H. apply andb_true_iff in H. destruct H as [H1 H2].
  rewrite H1. cbn [negb]. now apply IH.
Qed.

(** What the pattern of the marked brands consumes: letters and digits,
    then white space, then one of the two signs. *)
Lemma derives_trademarkRegex (x rest : jsstring) (c : captures) :
  derives trademarkRegex (x ++ rest) [] rest c ->
  exists (name sp : jsstring) (mk : codeunit),
    x = name ++ sp ++ [mk] /\ name <> [] /\ forallb is_alnum name = true /\
    forallb is_space sp = true /\ is_mark mk = true.
Proof.
  intros D. unfold trademarkRegex, Plus in D.
  apply derives_Seq_inv in D. destruct D as (s1 & c1 & D1 & D2).
  apply derives_Group_inv in D1. destruct D1 as (c' & D1 & _).
  apply derives_Seq_inv in D1. destruct D1 as (s0 & c0 & Da & Db).
  apply derives_star_class in Db. destruct Db as (d & -> & Hd).
  apply derives_Seq_inv in D2. destruct D2 as (s2 & c2 & Dc & Dd).
  apply derives_star_class in Dc. destruct Dc as (sp & -> & Hsp).
  inversion Dd; subst. inversion Da; subst.
  match goal with H : _ :: _ = x ++ rest |- _ => rename H into Hx end.
  match goal with H : is_mark _ = true |- _ => rename H into Hmk end.
  match goal with H : is_alnum _ = true |- _ => rename H into Hal end.
  match type of Hx with ?a :: _ = _ => exists (a :: d), sp end.
  match type of Hmk with is_mark ?m = true => exists m end.
  repeat split; try assumption; try discriminate.
  - apply (app_inv_tail rest). rewrite <- Hx. cbn [app].
    rewrite <- !app_assoc. reflexivity.
  - cbn [forallb]. now rewrite Hal.
Qed.

Lemma marked_brand_name (name sp : jsstring) (mk : codeunit) :
  forallb is_alnum name = true -> forallb is_space sp = true -> is_mark mk = true ->
  remove_all (fun c => is_mark c || is_space c) (name ++ sp ++ [mk]) = name.
Proof.
  intros Hn Hsp Hmk. rewrite !remove_all_app.
  rewrite (@remove_all_none _ is_alnum name); [|
    intros c Hc; now rewrite (alnum_not_mark _ Hc), (alnum_not_space _ Hc) | exact Hn].
  rewrite (@remove_all_every _ sp); [|
    revert Hsp; apply forallb_weaken; intros c Hc; rewrite Hc; apply orb_true_r].
  rewrite (@remove_all_every _ [mk]); [now rewrite !app_nil_r|].
  cbn [forallb]. now rewrite Hmk.
Qed.

Lemma words_loop_In (words : list jsstring) (brands : list jsstring) (b : jsstring) :
  In b (fold_left
          (fun brands word =>
             let cleanWord := remove_all is_punctuation word in
             if brandRegex_test cleanWord then brands ++ [cleanWord] else brands)
          words brands) <->
  In b brands \/
  exists word, In word words /\ b = remove_all is_punctuation word /\
    brandRegex_test b = true.
Proof.
  revert brands; induction words as [|w words IH]; intros brands; cbn [fold_left].
  - split; [now left | intros [H | (w & [] & _)]; exact H].
  - rewrite IH. cbv zeta. destruct (brandRegex_test (remove_all is_punctuation w)) eqn:E.
    + rewrite in_app_iff. cbn [In]. split.
      * intros [[H | [<- | []]] | (w' & Hin & H)].
        -- now left.
        -- right. exists w. repeat split; [now left | exact E].
        -- right. exists w'. split; [now right | exact H].
      * intros [H | (w' & [<- | Hin] & -> & H)].
        -- now left; left.
        -- left. right. now left.
        -- right. now exists w'.
    + split.
      * intros [H | (w' & Hin & H)]; [now left|].
        right. exists w'. split; [now right | exact H].
      * intros [H | (w' & [<- | Hin] & -> & H)]; [now left | congruence |].
        right. now exists w'.
Qed.

Lemma marks_loop_In (ms : list jsstring) (brands : list jsstring) (b : jsstring) :
  In b (fold_left
          (fun brands brand =>
             brands ++ [remove_all (fun c => is_mark c || is_space c) brand])
          ms brands) <->
  In b brands \/
  exists m, In m ms /\ b = remove_all (fun c => is_mark c || is_space c) m.
Proof.
  revert brands; induction ms as [|m ms IH]; intros brands; cbn [fold_left].
  - split; [now left | intros [H | (w & [] & _)]; exact H].
  - rewrite IH, in_app_iff. cbn [In]. split.
    + intros [[H | [<- | []]] | (m' & Hin & H)].
      * now left.
      * right. exists m. split; [now left | reflexivity].
      * right. exists m'. split; [now right | exact H].
    + intros [H | (m' & [<- | Hin] & ->)].
      * now left; left.
      * left. right. now left.
      * right. now exists m'.
Qed.

(** Where the brands come from. *)
Lemma extractBrands_In (text b : jsstring) :
  In b (extractBrands text) <->
  (exists word, In word (split_runs is_space text) /\
     b = remove_all is_punctuation word /\ brandRegex_test b = true) \/
  (exists m, In m (match_all_aux (S (length text)) trademarkRegex text) /\
     b = remove_all (fun c => is_mark c || is_space c) m).
Proof.
  unfold extractBrands, match_all. cbv zeta.
  destruct (match_all_aux (S (length text)) trademarkRegex text) as [|m0 ms] eqn:E.
  - rewrite words_loop_In. cbn [In]. split.
    + intros [[] | H]. now left.
    + intros [H | (m & [] & _)]. now right.
  - rewrite marks_loop_In, words_loop_In. cbn [In]. tauto.
Qed.

(** X9. Every brand that [extractBrands] returns is a non-empty run of
    ASCII letters and digits: a capital and two or more lower-case
    letters, or the name in front of a registered or trade mark sign. *)
Theorem extractBrands_shape (text b : jsstring) :
  In b (extractBrands text) ->
  b <> [] /\ forallb is_alnum b = true /\
  (brandRegex_test b = true \/
   exists (sp : jsstring) (mk : codeunit),
     forallb is_space sp = true /\ is_mark mk = true /\
     includes text (b ++ sp ++ [mk]) = true).
Proof.
  rewrite extractBrands_In. intros [(w & _ & _ & H) | (m & Hin & ->)].
  - destruct (brandRegex_test_alnum _ H) as [H1 H2]. repeat split; try assumption. now left.
  - apply match_all_aux_derives in Hin.
    destruct Hin as (pre & rest & c & Ht & D).
    apply derives_trademarkRegex in D.
    destruct D as (name & sp & mk & -> & Hne & Hn & Hsp & Hmk).
    rewrite (marked_brand_name _ _ _ Hn Hsp Hmk). repeat split; try assumption.
    right. exists sp, mk. repeat split; try assumption.
    apply includes_spec. exists pre, rest. exact Ht.
Qed.

Lemma split_runs_aux_skip (sep : codeunit -> bool) (w post cur : jsstring) (inrun : bool) :
  forallb (fun c => negb (sep c)) w = true -> w <> [] ->
  split_runs_aux sep (w ++ post) cur inrun = split_runs_aux sep post (rev w ++ cur) false.
Proof.
  revert cur inrun; induction w as [|c w IH]; intros cur inrun Hw Hne; [congruence|].
  cbn [forallb] in Hw. apply andb_true_iff in Hw. destruct Hw as [Hc Hw].
  apply negb_true_iff in Hc. cbn [app split_runs_aux]. rewrite Hc.
  destruct w as [|c' w'].
  - reflexivity.
  - rewrite IH; [|exact Hw | discriminate]. cbn [rev]. now rewrite <- !app_assoc.
Qed.

Lemma split_runs_aux_head (sep : codeunit -> bool) (post cur : jsstring) :
  post = [] \/ (exists c p, post = c :: p /\ sep c = true) ->
  In (rev cur) (split_runs_aux sep post cur false).
Proof.
  intros [-> | (c & p & -> & Hc)]; cbn [split_runs_aux]; [now left|].
  rewrite Hc. now left.
Qed.

Lemma split_runs_aux_after (sep : codeunit -> bool) (pre rest cur : jsstring)
  (inrun : bool) (c : codeunit) (x : jsstring) :
  sep c = true ->
  In x (split_runs_aux sep rest [] true) ->
  In x (split_runs_aux sep (pre ++ c :: rest) cur inrun).
Proof.
  intros Hc Hx. revert cur inrun; induction pre as [|a pre IH]; intros cur inrun;
    cbn [app split_runs_aux].
  - rewrite Hc. destruct inrun; [exact Hx | now right].
  - destruct (sep a); [destruct inrun; [apply IH | right; apply IH] | apply IH].
Qed.

(** A word between white space is one of the words of the split. *)
Lemma split_runs_word (sep : codeunit -> bool) (pre w post : jsstring) :
  pre = [] \/ (exists p c, pre = p ++ [c] /\ sep c = true) ->
  post = [] \/ (exists c p, post = c :: p /\ sep c = true) ->
  forallb (fun c => negb (sep c)) w = true -> w <> [] ->
  In w (split_runs sep (pre ++ w ++ post)).
Proof.
  intros Hpre Hpost Hw Hne. unfold split_runs.
  assert (forall inrun, In w (split_runs_aux sep (w ++ post) [] inrun)) as H.
  { intros inrun. rewrite split_runs_aux_skip by assumption.
    rewrite app_nil_r. rewrite <- (rev_involutive w) at 1.
    now apply split_runs_aux_head. }
  destruct Hpre as [-> | (p & c & -> & Hc)]; [apply H|].
  rewrite <- app_assoc. cbn [app]. apply split_runs_aux_after; [exact Hc | apply H].
Qed.

(** X10. A word between white space that, without its punctuation, is a
    capital followed by two or more lower-case letters is returned, without
    the punctuation. *)
Theorem extractBrands_capitalised_word (pre w post : jsstring) :
  pre = [] \/ (exists p c, pre = p ++ [c] /\ is_space c = true) ->
  post = [] \/ (exists c p, post = c :: p /\ is_space c = true) ->
  forallb (fun c => negb (is_space c)) w = true ->
  brandRegex_test (remove_all is_punctuation w) = true ->
  In (remove_all is_punctuation w) (extractBrands (pre ++ w ++ post)).
Proof.
  intros Hpre Hpost Hw Hb. apply extractBrands_In. left. exists w.
  repeat split; [|exact Hb]. apply split_runs_word; try assumption.
  intros ->. discriminate Hb.
Qed.

Lemma extractBrands_capitalised_word_witness :
  In (str "Acme") (extractBrands (str "try " ++ str "(Acme)," ++ str " today")).
Proof.
  apply (@extractBrands_capitalised_word (str "try ") (str "(Acme),") (str " today")).
  - right. exists (str "try"), 32%N. split; reflexivity.
  - right. exists 32%N, (str "today"). split; reflexivity.
  - reflexivity.
  - reflexivity.
Defined.

Lemma split_runs_aux_chars (sep : codeunit -> bool) (s cur : jsstring) (inrun : bool)
  (w : jsstring) (c : codeunit) :
  In w (split_runs_aux sep s cur inrun) -> In c w -> In c s \/ In c cur.
Proof.
  revert cur inrun; induction s as [|a s IH]; intros cur inrun; cbn [split_runs_aux].
  - intros [<- | []] Hc. right. now apply in_rev.
  - destruct (sep a).
    + destruct inrun.
      * intros Hw Hc. destruct (IH _ _ Hw Hc) as [H | []]. left. now right.
      * intros [<- | Hw] Hc; [right; now apply in_rev|].
        destruct (IH _ _ Hw Hc) as [H | []]. left. now right.
    + intros Hw Hc. destruct (IH _ _ Hw Hc) as [H | [<- | H]].
      * left. now right.
      * left. now left.
      * now right.
Qed.

(** X11. A text without upper-case ASCII letter and without one of the
    two signs has no brand. *)
Theorem extractBrands_none (text : jsstring) :
  forallb (fun c => negb (is_upper c) && negb (is_mark c)) text = true ->
  extractBrands text = [].
Proof.
  intros H. rewrite forallb_forall in H.
  destruct (extractBrands text) as [|b l] eqn:E; [reflexivity|]. exfalso.
  assert (In b (extractBrands text)) as Hb by (rewrite E; now left).
  clear E. apply extractBrands_In in Hb.
  destruct Hb as [(w & Hw & -> & Hs) | (m & Hm & ->)].
  - destruct (remove_all is_punctuation w) as [|c t] eqn:Ew; [discriminate|].
    cbn [brandRegex_test] in Hs. apply andb_true_iff in Hs. destruct Hs as [Hs _].
    apply andb_true_iff in Hs. destruct Hs as [Hc _].
    assert (In c w) as Hcw.
    { assert (In c (remove_all is_punctuation w)) as Hin by (rewrite Ew; now left).
      unfold remove_all in Hin. apply filter_In in Hin. apply Hin. }
    destruct (split_runs_aux_chars _ _ _ _ _ _ Hw Hcw) as [Hin | []].
    apply H in Hin. rewrite Hc in Hin. discriminate.
  - apply match_all_aux_derives in Hm. destruct Hm as (pre & rest & c & Ht & D).
    apply derives_trademarkRegex in D. destruct D as (name & sp & mk & -> & _ & _ & _ & Hmk).
    assert (In mk text) as Hin.
    { rewrite Ht. apply in_or_app. right. apply in_or_app. left.
      apply in_or_app. right. apply in_or_app. right. now left. }
    apply H in Hin. rewrite Hmk in Hin. rewrite andb_false_r in Hin. discriminate.
Qed.

Lemma extractBrands_none_witness :
  extractBrands (str "thanks to acme for the vpn") = [].
Proof.
  apply (extractBrands_none (str "thanks to acme for the vpn")). reflexivity.
Defined.

(** ** [convertTimestampToSeconds] *)

(** X12. The result is [NaN] exactly when the timestamp has one to three
    parts and [parseInt] gives [NaN] for one of them: no part is skipped or
    read as zero. *)
Theorem convertTimestampToSeconds_NaN_iff (ts : jsstring) :
  convertTimestampToSeconds (Some ts) = Some NaN <->
  ts <> [] /\ (length (split_on colon ts) <= 3)%nat /\
  exists p, In p (split_on colon ts) /\ parseInt p (Some 10%N) = NaN.
Proof.
  destruct ts as [|c t].
  - cbn [convertTimestampToSeconds]. split; [discriminate | intros [H _]; congruence].
  - cbv beta iota zeta delta [convertTimestampToSeconds].
    destruct (split_on colon (c :: t)) as [|p0 [|p1 [|p2 [|p3 l]]]].
    + split; [discriminate | intros (_ & _ & p & [] & _)].
    + split.
      * intros H. injection H as H. repeat split; [discriminate | cbn; lia |].
        exists p0. split; [now left | exact H].
      * intros (_ & _ & p & [<- | []] & H). now rewrite H.
    + destruct (parseInt p0 (Some 10%N)) as [|x0] eqn:E0;
        destruct (parseInt p1 (Some 10%N)) as [|x1] eqn:E1; cbn [mul add lift2];
        (split;
         [ intros H; first
             [ discriminate H
             | split; [discriminate | split; [cbn; lia |]];
               first [ exists p0; split; [now left | exact E0]
                     | exists p1; split; [right; now left | exact E1] ] ]
         | intros (_ & _ & p & [<- | [<- | []]] & H); congruence ]).
    + destruct (parseInt p0 (Some 10%N)) as [|x0] eqn:E0;
        destruct (parseInt p1 (Some 10%N)) as [|x1] eqn:E1;
        destruct (parseInt p2 (Some 10%N)) as [|x2] eqn:E2; cbn [mul add lift2];
        (split;
         [ intros H; first
             [ discriminate H
             | split; [discriminate | split; [cbn; lia |]];
               first [ exists p0; split; [now left | exact E0]
                     | exists p1; split; [right; now left | exact E1]
                     | exists p2; split; [right; right; now left | exact E2] ] ]
         | intros (_ & _ & p & [<- | [<- | [<- | []]]] & H); congruence ]).
    + split; [discriminate | intros (_ & H & _); cbn in H; lia].
Qed.

(** ** [calculateAdEffectiveness], further *)

(** X14. The effectiveness is between 0 and 100 for every input, and it
    does not go down when the engagement score or the share of positive
    comments goes up or the share of negative comments goes down. *)
Theorem calculateAdEffectiveness_monotone (e1 e2 : EngagementMetrics)
  (s1 s2 : SentimentSummary) :
  0 <= calculateAdEffectiveness e1 s1 <= 100 /\
  (adEffectivenessScore e1 <= adEffectivenessScore e2 ->
   positivePercentage s1 <= positivePercentage s2 ->
   negativePercentage s2 <= negativePercentage s1 ->
   calculateAdEffectiveness e1 s1 <= calculateAdEffectiveness e2 s2).
Proof.
  unfold calculateAdEffectiveness. cbv zeta. unfold Qdiv. change (/ 2) with (1 # 2).
  generalize (adEffectivenessScore e1) (adEffectivenessScore e2)
    (positivePercentage s1) (positivePercentage s2)
    (negativePercentage s1) (negativePercentage s2).
  intros a1 a2 p1 p2 n1 n2.
  destruct (Q.min_spec (a1 * 10) 100) as [[H1 E1]|[H1 E1]];
  destruct (Q.min_spec (a2 * 10) 100) as [[H2 E2]|[H2 E2]];
  revert E1 E2; generalize (Qmin (a1 * 10) 100) (Qmin (a2 * 10) 100);
  intros x1 x2 E1 E2;
  (destruct (Q.min_spec 100 (x1 * 0.5 + (p1 - n1 + 100) * (1 # 2) * 0.5)) as [[H3 E3]|[H3 E3]];
   destruct (Q.min_spec 100 (x2 * 0.5 + (p2 - n2 + 100) * (1 # 2) * 0.5)) as [[H4 E4]|[H4 E4]];
   revert E3 E4;
   generalize (Qmin 100 (x1 * 0.5 + (p1 - n1 + 100) * (1 # 2) * 0.5))
     (Qmin 100 (x2 * 0.5 + (p2 - n2 + 100) * (1 # 2) * 0.5));
   intros u1 u2 E3 E4;
   destruct (Q.max_spec 0 u1) as [[H5 E5]|[H5 E5]];
   destruct (Q.max_spec 0 u2) as [[H6 E6]|[H6 E6]];
   revert E5 E6; generalize (Qmax 0 u1) (Qmax 0 u2);
   intros r1 r2 E5 E6; repeat split; try intros Ha Hp Hn; lra).
Qed.

Lemma calculateAdEffectiveness_monotone_witness :
  calculateAdEffectiveness (calculateEngagementMetrics 1000 50 10)
    (mkSentimentSummary 0 40 20 40 (Some 10%nat) (Some []))
  <= calculateAdEffectiveness (calculateEngagementMetrics 1000 80 10)
       (mkSentimentSummary 0 60 10 30 (Some 10%nat) (Some [])).
Proof.
  apply (calculateAdEffectiveness_monotone (calculateEngagementMetrics 1000 50 10)
           (calculateEngagementMetrics 1000 80 10)
           (mkSentimentSummary 0 40 20 40 (Some 10%nat) (Some []))
           (mkSentimentSummary 0 60 10 30 (Some 10%nat) (Some []))).
  - vm_compute. discriminate.
  - vm_compute. discriminate.
  - vm_compute. discriminate.
Defined.

(** ** [analyzeCommentSentiment], further *)

Lemma kw_lookup_set_same (m : KeywordSentiment) (k : jsstring) (v : KeywordStats) :
  kw_lookup (kw_set m k v) k = Some v.
Proof.
  induction m as [|[k' v'] m IH]; cbn [kw_set kw_lookup].
  - destruct (jsstring_eqb k k) eqn:E; [reflexivity|].
    assert (jsstring_eqb k k = true) by (now apply jsstring_eqb_eq). congruence.
  - destruct (jsstring_eqb k k') eqn:E; cbn [kw_lookup]; rewrite E; [reflexivity | exact IH].
Qed.

Lemma kw_lookup_set_other (m : KeywordSentiment) (k k0 : jsstring) (v : KeywordStats) :
  k0 <> k -> kw_lookup (kw_set m k v) k0 = kw_lookup m k0.
Proof.
  intros Hne. induction m as [|[k' v'] m IH]; cbn [kw_set kw_lookup].
  - destruct (jsstring_eqb k0 k) eqn:E; [|reflexivity].
    apply jsstring_eqb_eq in E. congruence.
  - destruct (jsstring_eqb k k') eqn:E; cbn [kw_lookup].
    + apply jsstring_eqb_eq in E. subst k'.
      destruct (jsstring_eqb k0 k) eqn:E0; [|reflexivity].
      apply jsstring_eqb_eq in E0. congruence.
    + now rewrite IH.
Qed.

Lemma kw_lookup_map (m : KeywordSentiment) (k : jsstring) :
  kw_lookup (List.map averageKeyword m) k
  = match kw_lookup m k with
    | Some v =>
        Some (if (0 <? count v)%nat
              then mkKeywordStats (count v) (totalSentiment v)
                     (or0 (totalSentiment v / Qnat (count v)))
              else v)
    | None => None
    end.
Proof.
  induction m as [|[k' v'] m IH]; cbn [List.map kw_lookup]; [reflexivity|].
  unfold averageKeyword at 1. destruct (0 <? count v')%nat eqn:E; cbn [kw_lookup];
    destruct (jsstring_eqb k k'); try exact IH; now rewrite E.
Qed.

Section SentimentFurther.

Variable toLowerCase : jsstring -> jsstring.
Variable tokenize : jsstring -> list jsstring.
Variable getSentiment : list jsstring -> option Q.

Local Abbreviation analyze := (analyzeCommentSentiment toLowerCase tokenize getSentiment).
Local Abbreviation tally := (tallyComment toLowerCase tokenize getSentiment).
Local Abbreviation score := (sentimentScoreOf tokenize getSentiment).
Local Abbreviation countOf := (countClass tokenize getSentiment).
Local Abbreviation total := (sumScores tokenize getSentiment).
Local Abbreviation mentioning := (mentions toLowerCase).

Lemma tallyComment_keywords (t : Tally) (c : Comment) :
  t_keywordSentiment (tally t c)
  = fold_left (tallyKeyword toLowerCase c (score c)) adKeywords (t_keywordSentiment t).
Proof.
  unfold tallyComment. cbv zeta.
  destruct (Qltb 0.05 _); [|destruct (Qltb _ (-0.05))]; reflexivity.
Qed.

(** One keyword of the loop, seen from a key. *)
Lemma tallyKeyword_lookup (c : Comment) (s : Q) (ks : KeywordSentiment) (kw k : jsstring) :
  kw_lookup (tallyKeyword toLowerCase c s ks kw) k
  = if jsstring_eqb k kw && includes (toLowerCase (text c)) kw
    then Some (match kw_lookup ks kw with
               | Some e => mkKeywordStats (S (count e)) (totalSentiment e + s)
                             (kw_averageSentiment e)
               | None => mkKeywordStats 1 (0 + s) 0
               end)
    else kw_lookup ks k.
Proof.
  unfold tallyKeyword. destruct (includes (toLowerCase (text c)) kw);
    [|now rewrite andb_false_r].
  rewrite andb_true_r. destruct (jsstring_eqb k kw) eqn:E.
  - apply jsstring_eqb_eq in E. subst k.
    destruct (kw_lookup ks kw) as [e|] eqn:El.
    + rewrite El. apply kw_lookup_set_same.
    + rewrite kw_lookup_set_same. apply kw_lookup_set_same.
  - assert (k <> kw) as Hne by (intros ->; rewrite (proj2 (jsstring_eqb_eq kw kw) eq_refl) in E;
                                 discriminate).
    destruct (kw_lookup ks kw) as [e|] eqn:El.
    + rewrite El. now apply kw_lookup_set_other.
    + rewrite kw_lookup_set_same. rewrite kw_lookup_set_other by exact Hne.
      now apply kw_lookup_set_other.
Qed.

(** The loop over the keywords, for keywords that are all different. *)
Lemma keywords_loop_lookup (c : Comment) (s : Q) (kws : list jsstring) :
  NoDup kws ->
  forall (ks : KeywordSentiment) (k : jsstring),
    kw_lookup (fold_left (tallyKeyword toLowerCase c s) kws ks) k
    = if arr_includes kws k && includes (toLowerCase (text c)) k
      then Some (match kw_lookup ks k with
                 | Some e => mkKeywordStats (S (count e)) (totalSentiment e + s)
                               (kw_averageSentiment e)
                 | None => mkKeywordStats 1 (0 + s) 0
                 end)
      else kw_lookup ks k.
Proof.
  induction 1 as [|kw kws Hnotin Hnd IH]; intros ks k; cbn [fold_left]; [reflexivity|].
  rewrite IH. rewrite !tallyKeyword_lookup. unfold arr_includes. cbn [existsb].
  fold (arr_includes kws k).
  destruct (jsstring_eqb k kw) eqn:E.
  - apply jsstring_eqb_eq in E. subst k.
    assert (arr_includes kws kw = false) as Hf.
    { destruct (arr_includes kws kw) eqn:Ea; [|reflexivity].
      apply arr_includes_In in Ea. contradiction. }
    rewrite Hf. cbn [orb andb]. reflexivity.
  - cbn [orb andb]. reflexivity.
Qed.

Lemma adKeywords_NoDup : NoDup adKeywords.
Proof.
  unfold adKeywords. cbn [List.map].
  repeat (constructor; [cbn [In]; intros H;
    repeat (destruct H as [H | H]; [discriminate H|]); exact H|]).
  constructor.
Qed.

Lemma mentions_snoc (k : jsstring) (cs : list Comment) (c : Comment) :
  mentioning k (cs ++ [c])
  = mentioning k cs ++ (if includes (toLowerCase (text c)) k then [c] else []).
Proof. unfold mentions. rewrite filter_app. reflexivity. Qed.

(** The object [keywordSentiment] when the loop over the comments ends. *)
Lemma tally_keywords (cs : list Comment) (k : jsstring) :
  kw_lookup (t_keywordSentiment (fold_left tally cs (mkTally 0 0 0 0 []))) k
  = if arr_includes adKeywords k && (0 <? length (mentioning k cs))%nat
    then Some (mkKeywordStats (length (mentioning k cs)) (total (mentioning k cs)) 0)
    else None.
Proof.
  induction cs as [|c cs IH] using rev_ind.
  - cbn [fold_left t_keywordSentiment kw_lookup mentions filter length Nat.ltb Nat.leb].
    now rewrite andb_false_r.
  - rewrite fold_left_app. cbn [fold_left]. rewrite tallyComment_keywords.
    rewrite (keywords_loop_lookup c (score c) adKeywords_NoDup). rewrite IH.
    rewrite mentions_snoc.
    destruct (arr_includes adKeywords k); cbn [andb]; [|reflexivity].
    destruct (includes (toLowerCase (text c)) k).
    + rewrite length_app. cbn [length]. rewrite Nat.add_1_r.
      cbn [Nat.ltb Nat.leb]. unfold sumScores. rewrite fold_left_app. cbn [fold_left].
      destruct (mentioning k cs) as [|m ms]; reflexivity.
    + now rewrite app_nil_r.
Qed.

(** X17. The entry of a keyword in [keywordSentiment]: a keyword of the
    list that some comment contains, in lower case, has the number of these
    comments, the sum of their scores and the mean; any other key has no
    entry. *)
Theorem analyzeCommentSentiment_keywords (comments : list Comment) (k : jsstring) :
  exists ks : KeywordSentiment,
    keywordSentiment (analyze (Some comments)) = Some ks /\
    let ms := mentioning k comments in
    kw_lookup ks k
    = if arr_includes adKeywords k && (0 <? length ms)%nat
      then Some (mkKeywordStats (length ms) (total ms)
                   (or0 (total ms / Qnat (length ms))))
      else None.
Proof.
  destruct comments as [|c cs].
  - exists []. split; [reflexivity|]. cbn. now rewrite andb_false_r.
  - set (all := c :: cs). eexists. split.
    + unfold analyzeCommentSentiment. fold all.
      change (match all with [] => emptySentiment | _ :: _ => ?body end) with body.
      cbv zeta. cbn [keywordSentiment]. reflexivity.
    + cbv zeta. rewrite kw_lookup_map, tally_keywords.
      destruct (arr_includes adKeywords k); cbn [andb]; [|reflexivity].
      destruct (0 <? length (mentioning k all))%nat eqn:E; [|reflexivity].
      cbn [count totalSentiment]. now rewrite E.
Qed.

End SentimentFurther.


(** ** The pipeline of one video, further *)

Section PipelineFurther.

Variable World : Type.
Variable toLowerCase : jsstring -> jsstring.
Variable tokenize : jsstring -> list jsstring.
Variable getSentiment : list jsstring -> option Q.
Variable youtube_videos_list : jsstring -> M World (option (list VideoItem)).
Variable youtube_commentThreads_list : jsstring -> nat -> M World (option (list CommentThread)).
Variable model_generateContent : Prompt -> M World jsstring.
Variable Video_findOneAndUpdate : jsstring -> AdInsights -> M World unit.
Variable clock : World -> Date.

Local Abbreviation getDetails := (getVideoDetails toLowerCase youtube_videos_list).
Local Abbreviation getComments := (getVideoComments youtube_commentThreads_list).
Local Abbreviation analyzeVideo :=
  (analyzeVideoContent toLowerCase tokenize getSentiment model_generateContent clock).
Local Abbreviation saveReport := (saveAdInsightsReport Video_findOneAndUpdate).
Local Abbreviation generateReport :=
  (generateAdInsightsReport toLowerCase tokenize getSentiment youtube_videos_list
     youtube_commentThreads_list model_generateContent Video_findOneAndUpdate clock).

(** The three values of [adStyle]. *)
Lemma resolveAdStyle_values (info : SponsorshipInfo) (reply : jsstring) :
  In (resolveAdStyle toLowerCase info reply)
     [str "Long-form"; str "Short-form"; str "Unknown"].
Proof.
  unfold resolveAdStyle. cbv zeta.
  destruct (hasSponsorship info); [|right; right; now left].
  assert (In (if includes (toLowerCase reply) (str "long-form") then str "Long-form"
              else if includes (toLowerCase reply) (str "short-form") then str "Short-form"
              else str "Unknown")
             [str "Long-form"; str "Short-form"; str "Unknown"]) as H.
  { destruct (includes _ (str "long-form")); [now left|].
    destruct (includes _ (str "short-form")); [right; now left | right; right; now left]. }
  destruct (adDuration info) as [d|]; [|exact H].
  destruct (truthy d); [|exact H].
  destruct (gtb d (Int 60)); [now left | right; now left].
Qed.

Lemma calculateAdEffectiveness_range (e : EngagementMetrics) (s : SentimentSummary) :
  0 <= calculateAdEffectiveness e s <= 100.
Proof.
  unfold calculateAdEffectiveness. cbv zeta.
  generalize (Qmin (adEffectivenessScore e * 10) 100 * 0.5
              + (positivePercentage s - negativePercentage s + 100) / 2 * 0.5).
  intros x. destruct (Q.min_spec 100 x) as [[H1 E1]|[H1 E1]];
    revert E1; generalize (Qmin 100 x); intros u E1;
    destruct (Q.max_spec 0 u) as [[H2 E2]|[H2 E2]]; rewrite E2; split; lra.
Qed.

(** [analyzeVideoContent] returns on every path, with one of the three ad
    styles and an effectiveness between 0 and 100. *)
Lemma analyzeVideoContent_bounds (videoData : VideoData) (comments : list Comment)
  (w : World) :
  exists (r : AnalysisResults) (w' : World),
    analyzeVideo videoData comments w = (Normal r, w') /\
    In (adStyle r) [str "Long-form"; str "Short-form"; str "Unknown"] /\
    0 <= adEffectiveness r <= 100.
Proof.
  unfold analyzeVideoContent, try_catch, bind, buildPrompt.
  destruct (vd_description videoData) as [| |description].
  - unfold throw, newDate, ret. do 2 eexists. split; [reflexivity|].
    cbn [adStyle adEffectiveness]. repeat split; try lra.
    right; right; now left.
  - unfold throw, newDate, ret. do 2 eexists. split; [reflexivity|].
    cbn [adStyle adEffectiveness]. repeat split; try lra.
    right; right; now left.
  - unfold ret at 1. cbv beta iota.
    destruct (model_generateContent _ w) as [[reply|e] w1]; unfold newDate, ret;
      do 2 eexists; (split; [reflexivity|]); cbn [adStyle adEffectiveness].
    + split; [apply resolveAdStyle_values | apply calculateAdEffectiveness_range].
    + repeat split; try lra. right; right; now left.
Qed.

(** X18. A video whose description is [null] or [undefined] is not sent
    to the generative service: the template fails first, and the result is
    the failure record, in the same world. *)
Theorem analyzeVideoContent_absent_description (videoData : VideoData)
  (comments : list Comment) (w : World) :
  vd_description videoData = null \/ vd_description videoData = undefined ->
  analyzeVideo videoData comments w
  = (Normal (mkAnalysisResults (str "Analysis failed") (str "Unknown") 0
               (mkSentimentSummary 0 0 0 0 None None) (clock w)), w).
Proof.
  intros H. unfold analyzeVideoContent, try_catch, bind, buildPrompt.
  destruct H as [-> | ->]; reflexivity.
Qed.

(** [getVideoDetails], case by case. *)
Lemma getVideoDetails_cases (videoId : jsstring) (w : World) :
  match youtube_videos_list videoId w with
  | (Normal (Some (item :: _)), w1) =>
      exists videoData : VideoData,
        getDetails videoId w = (Normal (Some videoData), w1) /\
        vd_title videoData = snippet_title item /\
        vd_description videoData = snippet_description item /\
        vd_viewCount videoData = parseCount (statistics_viewCount item) /\
        vd_likeCount videoData = parseCount (statistics_likeCount item) /\
        vd_commentCount videoData = parseCount (statistics_commentCount item) /\
        vd_engagementMetrics videoData
        = calculateEngagementMetrics
            (inject_Z (parseCount (statistics_viewCount item)))
            (inject_Z (parseCount (statistics_likeCount item)))
            (inject_Z (parseCount (statistics_commentCount item))) /\
        vd_sponsorshipInfo videoData
        = detectSponsorship toLowerCase (snippet_description item)
            (match snippet_tags item with
             | Some l => TagsArray l
             | None => TagsUndefined
             end)
  | (_, w1) => getDetails videoId w = (Normal None, w1)
  end.
Proof.
  unfold getVideoDetails, try_catch, bind.
  destruct (youtube_videos_list videoId w) as [[[[|item items]|]|e] w1]; try reflexivity.
  eexists. split; [reflexivity|]. cbn. repeat split.
Qed.

Lemma getVideoComments_normal (videoId : jsstring) : normal (getComments videoId).
Proof. apply try_catch_normal. intros e. apply ret_normal. Qed.

Lemma saveAdInsightsReport_normal (videoId : jsstring) (report : AdInsightReport) :
  normal (saveReport videoId report).
Proof. apply try_catch_normal. intros e. apply ret_normal. Qed.

(** The report of a video whose details were found. *)
Lemma generateAdInsightsReport_found (videoId : jsstring) (videoData : VideoData)
  (w w1 : World) :
  getDetails videoId w = (Normal (Some videoData), w1) ->
  exists (report : AdInsightReport) (w' : World),
    generateReport videoId w = (Normal (Success report), w') /\
    r_videoId report = videoId /\
    r_title report = vd_title videoData /\
    r_viewCount report = vd_viewCount videoData /\
    r_adData report = vd_sponsorshipInfo videoData /\
    r_engagement report
    = mkEngagement (vd_likeCount videoData) (vd_commentCount videoData)
        (likeToViewRatio (vd_engagementMetrics videoData))
        (commentToViewRatio (vd_engagementMetrics videoData))
        (overallEngagementRate (vd_engagementMetrics videoData)) /\
    r_channelId report = undefined /\
    r_channelTitle report = undefined /\
    r_publishedAt report = undefined /\
    In (r_adStyle report) [str "Long-form"; str "Short-form"; str "Unknown"] /\
    0 <= r_adEffectiveness report <= 100.
Proof.
  intros Hd. unfold generateAdInsightsReport, try_catch, bind. rewrite Hd.
  destruct (getVideoComments_normal videoId w1) as (comments & w2 & Hc). rewrite Hc.
  destruct (analyzeVideoContent_bounds videoData comments w2)
    as (r & w3 & Ha & Hstyle & Heff). rewrite Ha.
  unfold newDate at 1.
  match goal with
  | |- context [saveAdInsightsReport _ _ ?rep _] => set (report := rep)
  end.
  destruct (saveAdInsightsReport_normal videoId report w3) as ([] & w4 & Hs). rewrite Hs.
  unfold ret. exists report, w4. split; [reflexivity|].
  subst report.
  cbn [r_videoId r_title r_viewCount r_adData r_engagement r_channelId r_channelTitle
       r_publishedAt r_adStyle r_adEffectiveness].
  repeat split; try reflexivity; first [exact Hstyle | apply Heff].
Qed.

(** X19. [generateAdInsightsReport] never throws. It succeeds exactly
    when the platform returns an item for the video, whatever the comments,
    the generative service and the store do; in every other case, a failure
    of the platform included, the error is "Video not found". *)
Theorem generateAdInsightsReport_outcome (videoId : jsstring) (w : World) :
  exists (res : Result AdInsightReport) (w' : World),
    generateReport videoId w = (Normal res, w') /\
    match youtube_videos_list videoId w with
    | (Normal (Some (item :: _)), _) => exists report, res = Success report
    | _ => res = Failure (str "Video not found")
    end.
Proof.
  pose proof (getVideoDetails_cases videoId w) as Hd.
  destruct (youtube_videos_list videoId w) as [[[[|item items]|]|e] w1];
    try (exists (Failure (str "Video not found")), w1; split; [|reflexivity];
         unfold generateAdInsightsReport, try_catch, bind; rewrite Hd; reflexivity).
  destruct Hd as (videoData & Hd & _).
  destruct (@generateAdInsightsReport_found _ _ _ _ Hd) as (report & w' & Hr & _).
  exists (Success report), w'. split; [exact Hr | now exists report].
Qed.

(** X20. The report of a video that the platform returns: the title, the
    view count and the sponsorship data are those of the item, the
    engagement is computed from its counts, the ad style is one of the
    three, the effectiveness is between 0 and 100, and [channelId],
    [channelTitle] and [publishedAt] are always [undefined]. *)
Theorem generateAdInsightsReport_report (videoId : jsstring) (w w1 : World)
  (item : VideoItem) (items : list VideoItem) :
  youtube_videos_list videoId w = (Normal (Some (item :: items)), w1) ->
  exists (report : AdInsightReport) (w' : World),
    generateReport videoId w = (Normal (Success report), w') /\
    r_videoId report = videoId /\
    r_title report = snippet_title item /\
    r_viewCount report = parseCount (statistics_viewCount item) /\
    r_adData report
    = detectSponsorship toLowerCase (snippet_description item)
        (match snippet_tags item with
         | Some l => TagsArray l
         | None => TagsUndefined
         end) /\
    e_likeCount (r_engagement report) = parseCount (statistics_likeCount item) /\
    e_commentCount (r_engagement report) = parseCount (statistics_commentCount item) /\
    e_overallEngagementRate (r_engagement report)
    = overallEngagementRate
        (calculateEngagementMetrics
           (inject_Z (parseCount (statistics_viewCount item)))
           (inject_Z (parseCount (statistics_likeCount item)))
           (inject_Z (parseCount (statistics_commentCount item)))) /\
    r_channelId report = undefined /\
    r_channelTitle report = undefined /\
    r_publishedAt report = undefined /\
    In (r_adStyle report) [str "Long-form"; str "Short-form"; str "Unknown"] /\
    0 <= r_adEffectiveness report <= 100.
Proof.
  intros Hl. pose proof (getVideoDetails_cases videoId w) as Hd. rewrite Hl in Hd.
  destruct Hd as (videoData & Hd & T & D & V & L & C & E & S).
  destruct (@generateAdInsightsReport_found _ _ _ _ Hd)
    as (report & w' & Hr & R1 & R2 & R3 & R4 & R5 & R6 & R7 & R8 & R9 & R10).
  exists report, w'. rewrite R5. cbn [r_engagement e_likeCount e_commentCount
    e_overallEngagementRate].
  rewrite R2, R3, R4, T, V, L, C, E, S.
  repeat split; try assumption; apply R10.
Qed.

End PipelineFurther.

Lemma analyzeVideoContent_absent_description_witness :
  let videoData :=
    mkVideoData (str "Review") undefined 1000 50 10 0 []
      (calculateEngagementMetrics 1000 50 10)
      (detectSponsorship toLowerCase_basic undefined TagsUndefined) in
  Sample.analyzeVideoContent (Sample.generateContent_ok "A long-form read.")
    videoData Sample.comments 7%Z
  = (Normal (mkAnalysisResults (str "Analysis failed") (str "Unknown") 0
               (mkSentimentSummary 0 0 0 0 None None) 7%Z), 7%Z).
Proof.
  apply (@analyzeVideoContent_absent_description Sample.World toLowerCase_basic
           Sample.tokenize Sample.getSentiment
           (Sample.generateContent_ok "A long-form read.") Sample.clock).
  right. reflexivity.
Defined.

Lemma generateAdInsightsReport_report_witness :
  exists (report : AdInsightReport) (w' : Sample.World),
    generateAdInsightsReport toLowerCase_basic Sample.tokenize Sample.getSentiment
      (Sample.youtube_videos_list "Thanks to our sponsor")
      Sample.youtube_commentThreads_list Sample.generateContent_fails
      Sample.Video_findOneAndUpdate Sample.clock (str "v1") 0%Z
    = (Normal (Success report), w') /\
    r_title report = str "Review" /\
    r_channelId report = undefined.
Proof.
  destruct (@generateAdInsightsReport_report Sample.World toLowerCase_basic
              Sample.tokenize Sample.getSentiment
              (Sample.youtube_videos_list "Thanks to our sponsor")
              Sample.youtube_commentThreads_list Sample.generateContent_fails
              Sample.Video_findOneAndUpdate Sample.clock (str "v1") 0%Z 0%Z
              (Sample.item "Thanks to our sponsor") [] eq_refl)
    as (report & w' & H1 & _ & H2 & _ & _ & _ & _ & _ & H3 & _).
  exists report, w'. split; [exact H1|]. split; [exact H2 | exact H3].
Defined.

(** ** Fetching videos *)

Lemma subsequence_nil {A} (l : list A) : subsequence [] l.
Proof. induction l; now constructor. Qed.

Section FetchFurther.

Variable World : Type.
Variable toLowerCase : jsstring -> jsstring.
Variable youtube_videos_list : jsstring -> M World (option (list VideoItem)).
Variable youtube_channels_list : jsstring -> M World (option (list ChannelItem)).
Variable youtube_playlistItems_list : jsstring -> Z -> M World (option (list ListedItem)).
Variable youtube_search_list : jsstring -> Z -> M World (option (list ListedItem)).
Variable Video_findOne : jsstring -> M World (option StoredVideo).
Variable Video_create : FetchedVideo -> M World unit.
Variable Video_findOneAndUpdate : jsstring -> FetchedVideo -> M World unit.

Local Abbreviation getDetails := (getVideoDetails toLowerCase youtube_videos_list).
Local Abbreviation collect := (collectVideos toLowerCase youtube_videos_list).
Local Abbreviation fetchChannel :=
  (fetchVideosFromChannel toLowerCase youtube_videos_list youtube_channels_list
     youtube_playlistItems_list).
Local Abbreviation search :=
  (searchVideos toLowerCase youtube_videos_list youtube_search_list).
Local Abbreviation save :=
  (saveVideosToDatabase Video_findOne Video_create Video_findOneAndUpdate).
Local Abbreviation fetchAll :=
  (fetchAllVideos toLowerCase youtube_videos_list youtube_channels_list
     youtube_playlistItems_list youtube_search_list Video_findOne Video_create
     Video_findOneAndUpdate).

Lemma getVideoDetails_normal (videoId : jsstring) : normal (getDetails videoId).
Proof. apply try_catch_normal. intros e. apply ret_normal. Qed.

(** The loop over the items: it adds videos of the given source for a
    subsequence of the items, or throws at an item without thumbnails. *)
Lemma collectVideos_spec (source : jsstring) (keyword : option jsstring)
  (items : list ListedItem) :
  forall (videos : list FetchedVideo) (w : World),
    match collect source keyword items videos w with
    | (Normal result, _) =>
        exists added,
          result = videos ++ added /\ fromSource source keyword added /\
          subsequence (List.map fv_videoId added) (List.map li_videoId items)
    | (Throw _, _) => exists item, In item items /\ hasThumbnails item = false
    end.
Proof.
  induction items as [|item items IH]; intros videos w; cbn [collectVideos].
  - unfold ret. exists []. rewrite app_nil_r. repeat split; constructor.
  - cbv zeta. unfold bind at 1.
    destruct (getVideoDetails_normal (li_videoId item) w) as ([vd|] & w1 & Hd); rewrite Hd.
    + destruct (li_thumbnails item) as [th|] eqn:Et.
      * match goal with |- context [collect _ _ _ ?vs w1] => specialize (IH vs w1) end.
        destruct (collectVideos _ _ _ _ _ _ _) as [[result|e] w2].
        -- destruct IH as (added & -> & Hs & Hsub). eexists.
           split; [rewrite <- app_assoc; reflexivity|]. split.
           ++ constructor; [|exact Hs]. cbn. repeat split.
           ++ cbn [List.map app]. now constructor.
        -- destruct IH as (it & Hin & Hth). exists it. split; [now right | exact Hth].
      * unfold throw. exists item. split; [now left|]. unfold hasThumbnails. now rewrite Et.
    + specialize (IH videos w1). destruct (collectVideos _ _ _ _ _ _ _) as [[result|e] w2].
      * destruct IH as (added & -> & Hs & Hsub). exists added.
        repeat split; try assumption. cbn [List.map]. now constructor.
      * destruct IH as (it & Hin & Hth). exists it. split; [now right | exact Hth].
Qed.

(** X21. [fetchVideosFromChannel] never throws. What it returns are
    videos of source "channel", without keyword, for a subsequence of the
    items of the uploads playlist of the channel; without a channel or
    without items, or when a call of the platform fails, it returns the
    empty list. *)
Theorem fetchVideosFromChannel_result (channelId : jsstring) (maxResults : Z) (w : World) :
  exists (videos : list FetchedVideo) (w' : World),
    fetchChannel channelId maxResults w = (Normal videos, w') /\
    fromSource (str "channel") None videos /\
    match youtube_channels_list channelId w with
    | (Normal (Some (channel :: _)), w1) =>
        match youtube_playlistItems_list (uploads channel) maxResults w1 with
        | (Normal (Some items), _) =>
            subsequence (List.map fv_videoId videos) (List.map li_videoId items)
        | _ => videos = []
        end
    | _ => videos = []
    end.
Proof.
  unfold fetchVideosFromChannel, try_catch, bind.
  destruct (youtube_channels_list channelId w) as [[[[|channel channels]|]|e] w1];
    try (exists [], w1; repeat split; constructor).
  cbv zeta.
  destruct (youtube_playlistItems_list (uploads channel) maxResults w1)
    as [[[[|item items]|]|e] w2];
    try (exists [], w2; repeat split; constructor).
  pose proof (collectVideos_spec (str "channel") None (item :: items) [] w2) as H.
  destruct (collectVideos _ _ _ _ _ _ _) as [[result|e] w3].
  - destruct H as (added & -> & Hs & Hsub). exists added, w3. now repeat split.
  - exists [], w3. repeat split; [constructor | apply subsequence_nil].
Qed.

(** X22. [searchVideos] never throws. What it returns are videos of
    source "search" with the keyword of the call, for a subsequence of the
    items of the search; without items, or when the search fails, it
    returns the empty list. *)
Theorem searchVideos_result (keyword : jsstring) (maxResults : Z) (w : World) :
  exists (videos : list FetchedVideo) (w' : World),
    search keyword maxResults w = (Normal videos, w') /\
    fromSource (str "search") (Some keyword) videos /\
    match youtube_search_list keyword maxResults w with
    | (Normal (Some items), _) =>
        subsequence (List.map fv_videoId videos) (List.map li_videoId items)
    | _ => videos = []
    end.
Proof.
  unfold searchVideos, try_catch, bind.
  destruct (youtube_search_list keyword maxResults w) as [[[[|item items]|]|e] w1];
    try (exists [], w1; repeat split; constructor).
  pose proof (collectVideos_spec (str "search") (Some keyword) (item :: items) [] w1) as H.
  destruct (collectVideos _ _ _ _ _ _ _) as [[result|e] w2].
  - destruct H as (added & -> & Hs & Hsub). exists added, w2. now repeat split.
  - exists [], w2. repeat split; [constructor | apply subsequence_nil].
Qed.

(** When the details of every item are found, the loop gives one video
    per item, or throws: it throws exactly when an item has no
    thumbnails. *)
Lemma collectVideos_complete (source : jsstring) (keyword : option jsstring)
  (items : list ListedItem) :
  (forall item w, In item items ->
     exists vd w', getDetails (li_videoId item) w = (Normal (Some vd), w')) ->
  forall (videos : list FetchedVideo) (w : World),
    match collect source keyword items videos w with
    | (Normal result, _) =>
        forallb hasThumbnails items = true /\
        exists added,
          result = videos ++ added /\
          List.map fv_videoId added = List.map li_videoId items
    | (Throw _, _) => forallb hasThumbnails items = false
    end.
Proof.
  induction items as [|item items IH]; intros Hall videos w; cbn [collectVideos forallb].
  - unfold ret. split; [reflexivity|]. exists []. now rewrite app_nil_r.
  - cbv zeta. unfold bind at 1.
    destruct (Hall item w (or_introl eq_refl)) as (vd & w1 & Hd). rewrite Hd.
    destruct (li_thumbnails item) as [th|] eqn:Et.
    2:{ unfold throw. unfold hasThumbnails. now rewrite Et. }
    replace (hasThumbnails item) with true by (unfold hasThumbnails; now rewrite Et).
    cbn [andb].
    match goal with |- context [collect _ _ _ ?vs w1] =>
      specialize (IH (fun it w0 Hin => Hall it w0 (or_intror Hin)) vs w1) end.
    destruct (collectVideos _ _ _ _ _ _ _) as [[result|e] w2]; [|exact IH].
    destruct IH as (Hth & added & -> & Hids). split; [exact Hth|].
    eexists. split; [rewrite <- app_assoc; reflexivity|].
    cbn [List.map app fv_videoId]. now rewrite Hids.
Qed.

(** X23. When the details of every listed item are found,
    [fetchVideosFromChannel] returns one video per item, in the order of
    the playlist, if every item has thumbnails; a single item without
    thumbnails makes it return the empty list. *)
Theorem fetchVideosFromChannel_thumbnails (channelId : jsstring) (maxResults : Z)
  (w w1 w2 : World) (channel : ChannelItem) (channels : list ChannelItem)
  (items : list ListedItem) :
  youtube_channels_list channelId w = (Normal (Some (channel :: channels)), w1) ->
  youtube_playlistItems_list (uploads channel) maxResults w1 = (Normal (Some items), w2) ->
  (forall item w0, In item items ->
     exists vd w0', getDetails (li_videoId item) w0 = (Normal (Some vd), w0')) ->
  exists (videos : list FetchedVideo) (w' : World),
    fetchChannel channelId maxResults w = (Normal videos, w') /\
    if forallb hasThumbnails items
    then List.map fv_videoId videos = List.map li_videoId items
    else videos = [].
Proof.
  intros Hc Hp Hall. unfold fetchVideosFromChannel, try_catch, bind.
  rewrite Hc. cbv zeta. rewrite Hp.
  destruct items as [|item items]; [exists [], w2; now split|].
  pose proof (collectVideos_complete (str "channel") None (item :: items) Hall [] w2) as H.
  destruct (collectVideos _ _ _ _ _ _ _) as [[result|e] w3].
  - destruct H as (Hth & added & -> & Hids). exists added, w3. now rewrite Hth.
  - exists [], w3. now rewrite H.
Qed.

Lemma fetchVideosFromChannel_source (channelId : jsstring) (maxResults : Z) (w : World) :
  exists (videos : list FetchedVideo) (w' : World),
    fetchChannel channelId maxResults w = (Normal videos, w') /\
    fromSource (str "channel") None videos.
Proof.
  unfold fetchVideosFromChannel, try_catch, bind.
  destruct (youtube_channels_list channelId w) as [[[[|channel channels]|]|e] w1];
    try (exists [], w1; repeat split; constructor).
  cbv zeta.
  destruct (youtube_playlistItems_list (uploads channel) maxResults w1)
    as [[[[|item items]|]|e] w2];
    try (exists [], w2; repeat split; constructor).
  pose proof (collectVideos_spec (str "channel") None (item :: items) [] w2) as H.
  destruct (collectVideos _ _ _ _ _ _ _) as [[result|e] w3].
  - destruct H as (added & -> & Hs & _). now exists added, w3.
  - exists [], w3. repeat split; constructor.
Qed.

Lemma searchVideos_source (keyword : jsstring) (maxResults : Z) (w : World) :
  exists (videos : list FetchedVideo) (w' : World),
    search keyword maxResults w = (Normal videos, w') /\
    fromSource (str "search") (Some keyword) videos.
Proof.
  unfold searchVideos, try_catch, bind.
  destruct (youtube_search_list keyword maxResults w) as [[[[|item items]|]|e] w1];
    try (exists [], w1; repeat split; constructor).
  pose proof (collectVideos_spec (str "search") (Some keyword) (item :: items) [] w1) as H.
  destruct (collectVideos _ _ _ _ _ _ _) as [[result|e] w2].
  - destruct H as (added & -> & Hs & _). now exists added, w2.
  - exists [], w2. repeat split; constructor.
Qed.

Lemma fetchChannels_source (channelIds : list jsstring) :
  forall (allVideos : list FetchedVideo) (w : World),
    exists (added : list FetchedVideo) (w' : World),
      fetchChannels toLowerCase youtube_videos_list youtube_channels_list
        youtube_playlistItems_list channelIds allVideos w
      = (Normal (allVideos ++ added), w') /\
      fromSource (str "channel") None added.
Proof.
  induction channelIds as [|channelId channelIds IH]; intros allVideos w;
    cbn [fetchChannels].
  - exists [], w. rewrite app_nil_r. split; [reflexivity | constructor].
  - unfold bind. destruct (fetchVideosFromChannel_source channelId 10 w)
      as (videos & w1 & Hf & Hs). rewrite Hf.
    destruct (IH (allVideos ++ videos) w1) as (added & w2 & Hr & Ha).
    exists (videos ++ added), w2. rewrite Hr, <- app_assoc. split; [reflexivity|].
    apply Forall_app. now split.
Qed.

Lemma fetchKeywords_source (keywords : list jsstring) :
  forall (allVideos : list FetchedVideo) (w : World),
    exists (added : list FetchedVideo) (w' : World),
      fetchKeywords toLowerCase youtube_videos_list youtube_search_list
        keywords allVideos w
      = (Normal (allVideos ++ added), w') /\
      Forall (fun v => exists keyword,
                In keyword keywords /\ fromSource (str "search") (Some keyword) [v])
             added.
Proof.
  induction keywords as [|keyword keywords IH]; intros allVideos w;
    cbn [fetchKeywords].
  - exists [], w. rewrite app_nil_r. split; [reflexivity | constructor].
  - unfold bind. destruct (searchVideos_source keyword 10 w)
      as (videos & w1 & Hf & Hs). rewrite Hf.
    destruct (IH (allVideos ++ videos) w1) as (added & w2 & Hr & Ha).
    exists (videos ++ added), w2. rewrite Hr, <- app_assoc. split; [reflexivity|].
    apply Forall_app. split.
    + unfold fromSource in Hs. rewrite Forall_forall in Hs. apply Forall_forall.
      intros v Hv. exists keyword. split; [now left|].
      constructor; [now apply Hs | constructor].
    + revert Ha. apply Forall_impl. intros v (k & Hk & Hv). exists k.
      split; [now right | exact Hv].
Qed.

Lemma saveVideosToDatabase_normal (videos : list FetchedVideo) : normal (save videos).
Proof. apply try_catch_normal. intros e. apply ret_normal. Qed.

(** X24. [fetchAllVideos] never throws and returns what it fetched,
    whatever the store does. It asks for the videos of the two configured
    channels, in their order, then for the videos of the two configured
    keywords, in their order, each call on the world the call before has
    left, 10 results at most; it passes the four results, one after
    another in one list, to [saveVideosToDatabase], and returns that list.
    The videos of a channel carry the source ["channel"], those of a
    search the source ["search"] and the keyword. *)
Theorem fetchAllVideos_result (w : World) :
  exists (channel1 channel2 keyword1 keyword2 : list FetchedVideo)
         (w1 w2 w3 w4 w5 : World),
    fetchChannel (str "UCsLiV4WJfkTEHH0b9PmRklw") 10%Z w = (Normal channel1, w1) /\
    fetchChannel (str "UC-lHJZR3Gqxm24_Vd_AJ5Yw") 10%Z w1 = (Normal channel2, w2) /\
    search (str "node.js tutorial") 10%Z w2 = (Normal keyword1, w3) /\
    search (str "javascript programming") 10%Z w3 = (Normal keyword2, w4) /\
    save (channel1 ++ channel2 ++ keyword1 ++ keyword2) w4 = (Normal tt, w5) /\
    fetchAll w = (Normal (channel1 ++ channel2 ++ keyword1 ++ keyword2), w5) /\
    fromSource (str "channel") None (channel1 ++ channel2) /\
    fromSource (str "search") (Some (str "node.js tutorial")) keyword1 /\
    fromSource (str "search") (Some (str "javascript programming")) keyword2.
Proof.
  destruct (fetchVideosFromChannel_source (str "UCsLiV4WJfkTEHH0b9PmRklw") 10 w)
    as (channel1 & w1 & H1 & S1).
  destruct (fetchVideosFromChannel_source (str "UC-lHJZR3Gqxm24_Vd_AJ5Yw") 10 w1)
    as (channel2 & w2 & H2 & S2).
  destruct (searchVideos_source (str "node.js tutorial") 10 w2)
    as (keyword1 & w3 & H3 & S3).
  destruct (searchVideos_source (str "javascript programming") 10 w3)
    as (keyword2 & w4 & H4 & S4).
  destruct (saveVideosToDatabase_normal (channel1 ++ channel2 ++ keyword1 ++ keyword2) w4)
    as ([] & w5 & H5).
  exists channel1, channel2, keyword1, keyword2, w1, w2, w3, w4, w5.
  split; [exact H1|]. split; [exact H2|]. split; [exact H3|]. split; [exact H4|].
  split; [exact H5|]. split.
  - unfold fetchAllVideos, try_catch, bind, youtubeChannels, searchKeywords.
    cbn [fetchChannels fetchKeywords]. unfold bind, ret.
    rewrite H1. cbn [app]. rewrite H2, H3, H4.
    replace (((channel1 ++ channel2) ++ keyword1) ++ keyword2)
      with (channel1 ++ channel2 ++ keyword1 ++ keyword2)
      by (now rewrite !app_assoc).
    rewrite H5. reflexivity.
  - split; [|split; assumption]. apply Forall_app. now split.
Qed.

End FetchFurther.

Section SaveFurther.

Variable World : Type.
Variable Video_findOne : jsstring -> M World (option StoredVideo).
Variable Video_create : FetchedVideo -> M World unit.
Variable Video_findOneAndUpdate : jsstring -> FetchedVideo -> M World unit.

(** The store, as far as [saveVideosToDatabase] is concerned: the ids of
    the stored videos, a lookup that finds exactly these, a creation that
    adds one, a replacement that keeps the ids. *)
Variable storedIds : World -> list jsstring.

Hypothesis Video_findOne_spec :
  forall id w, exists r,
    Video_findOne id w = (Normal r, w) /\ (r = None <-> ~ In id (storedIds w)).
Hypothesis Video_create_spec :
  forall v w, exists w',
    Video_create v w = (Normal tt, w') /\ storedIds w' = storedIds w ++ [fv_videoId v].
Hypothesis Video_findOneAndUpdate_spec :
  forall id v w, exists w',
    Video_findOneAndUpdate id v w = (Normal tt, w') /\ storedIds w' = storedIds w.

Lemma saveEach_ids (videos : list FetchedVideo) :
  forall (n u : nat) (w : World),
    NoDup (storedIds w) ->
    exists (counts : nat * nat) (w' : World),
      saveEach Video_findOne Video_create Video_findOneAndUpdate videos n u w
      = (Normal counts, w') /\
      NoDup (storedIds w') /\
      (fst counts + snd counts = n + u + length videos)%nat /\
      (forall id, In id (storedIds w') <->
                  In id (storedIds w) \/ In id (List.map fv_videoId videos)).
Proof.
  induction videos as [|video videos IH]; intros n u w Hnd; cbn [saveEach].
  - exists (n, u), w. unfold ret. cbn. repeat split; try assumption; try lia; tauto.
  - unfold bind at 1.
    destruct (Video_findOne_spec (fv_videoId video) w) as (r & Hf & Hr). rewrite Hf.
    destruct r as [existing|].
    + unfold bind at 1.
      destruct (Video_findOneAndUpdate_spec (fv_videoId video) video w) as (w1 & Hu & Hi).
      rewrite Hu. destruct (IH n (S u) w1) as (counts & w2 & Hs & Hnd2 & Hc & Hids).
      { now rewrite Hi. }
      exists counts, w2. split; [exact Hs|]. split; [exact Hnd2|]. split; [cbn; lia|].
      intros id. rewrite Hids, Hi. cbn [List.map In]. split; [tauto|].
      intros [H | [<- | H]]; try tauto. left.
      destruct (in_dec jsstring_eq_dec (fv_videoId video) (storedIds w)) as [Hin | Hout];
        [exact Hin|]. apply Hr in Hout. discriminate.
    + unfold bind at 1.
      destruct (Video_create_spec video w) as (w1 & Hu & Hi).
      rewrite Hu. destruct (IH (S n) u w1) as (counts & w2 & Hs & Hnd2 & Hc & Hids).
      { rewrite Hi. apply NoDup_app; [exact Hnd | repeat constructor; intros [] |].
        intros x Hx [<- | []]. now apply (proj1 Hr eq_refl). }
      exists counts, w2. split; [exact Hs|]. split; [exact Hnd2|]. split; [cbn; lia|].
      intros id. rewrite Hids, Hi, in_app_iff. cbn [List.map In]. tauto.
Qed.

(** X25. On a store that answers, [saveVideosToDatabase] leaves one
    document per video id: the ids stay without repetition, also when the
    list has the same video twice, every video of the list is stored, and
    nothing else is added. *)
Theorem saveVideosToDatabase_upserts (videos : list FetchedVideo) (w : World) :
  NoDup (storedIds w) ->
  exists w' : World,
    saveVideosToDatabase Video_findOne Video_create Video_findOneAndUpdate videos w
    = (Normal tt, w') /\
    NoDup (storedIds w') /\
    (forall id, In id (storedIds w') <->
                In id (storedIds w) \/ In id (List.map fv_videoId videos)).
Proof.
  intros Hnd. unfold saveVideosToDatabase, try_catch, bind.
  destruct (saveEach_ids videos 0 0 Hnd) as (counts & w' & Hs & Hnd' & _ & Hids).
  rewrite Hs. exists w'. unfold ret. split; [reflexivity | split; [exact Hnd' | exact Hids]].
Qed.

End SaveFurther.

Lemma fetchVideosFromChannel_thumbnails_witness :
  exists (videos : list FetchedVideo) (w' : Sample.World),
    fetchVideosFromChannel toLowerCase_basic (Sample.youtube_videos_list "Thanks to Acme")
      SampleFetch.youtube_channels_list SampleFetch.youtube_playlistItems_list
      (str "UC1") 10 0%Z
    = (Normal videos, w') /\
    videos = [].
Proof.
  apply (@fetchVideosFromChannel_thumbnails Sample.World toLowerCase_basic
           (Sample.youtube_videos_list "Thanks to Acme")
           SampleFetch.youtube_channels_list SampleFetch.youtube_playlistItems_list
           (str "UC1") 10%Z 0%Z 0%Z 0%Z (mkChannelItem (str "UU1")) []
           SampleFetch.items).
  - reflexivity.
  - reflexivity.
  - intros item w0 [<- | [<- | []]]; do 2 eexists; reflexivity.
Defined.

Lemma SampleFetch_findOne (id : jsstring) (w : SampleFetch.Store) :
  exists r,
    SampleFetch.Video_findOne id w = (Normal r, w) /\
    (r = None <-> ~ In id (SampleFetch.storedIds w)).
Proof.
  unfold SampleFetch.Video_findOne, SampleFetch.storedIds. eexists. split; [reflexivity|].
  destruct (arr_includes w id) eqn:E.
  - apply arr_includes_In in E. split; [discriminate | contradiction].
  - split; [|reflexivity]. intros _ Hin. apply arr_includes_In in Hin. congruence.
Qed.

Lemma saveVideosToDatabase_upserts_witness :
  exists w' : SampleFetch.Store,
    saveVideosToDatabase SampleFetch.Video_findOne SampleFetch.Video_create
      SampleFetch.Video_findOneAndUpdate
      [SampleFetch.video "a"; SampleFetch.video "b"; SampleFetch.video "a"] [str "b"]
    = (Normal tt, w') /\
    NoDup (SampleFetch.storedIds w') /\
    (forall id, In id (SampleFetch.storedIds w') <->
       In id (SampleFetch.storedIds [str "b"]) \/
       In id (List.map fv_videoId
                [SampleFetch.video "a"; SampleFetch.video "b"; SampleFetch.video "a"])).
Proof.
  apply (@saveVideosToDatabase_upserts SampleFetch.Store SampleFetch.Video_findOne
           SampleFetch.Video_create SampleFetch.Video_findOneAndUpdate
           SampleFetch.storedIds SampleFetch_findOne).
  - intros v w. eexists. split; reflexivity.
  - intros id v w. eexists. split; reflexivity.
  - repeat constructor. intros [].
Defined.

(** ** The handlers *)

Section InsightRoutesFurther.

Variable World : Type.
Variable toLowerCase : jsstring -> jsstring.
Variable tokenize : jsstring -> list jsstring.
Variable getSentiment : list jsstring -> option Q.
Variable youtube_videos_list : jsstring -> M World (option (list VideoItem)).
Variable youtube_commentThreads_list : jsstring -> nat -> M World (option (list CommentThread)).
Variable model_generateContent : Prompt -> M World jsstring.
Variable Video_findOneAndUpdate : jsstring -> AdInsights -> M World unit.
Variable Video_findOne : jsstring -> M World (option StoredVideo).
Variable clock : World -> Date.

Local Abbreviation handler :=
  (generateInsightsHandler toLowerCase tokenize getSentiment youtube_videos_list
     youtube_commentThreads_list model_generateContent Video_findOneAndUpdate
     Video_findOne clock).

(** X26. The response of [POST /api/videos/:videoId/generate-insights]:
    500 with the error when the lookup in the store fails, 404 when the
    store has no such video, 200 with the report when the platform returns
    the video, and 400 with the error "Video not found" in every other
    case, a failure of the platform included. The handler itself never
    throws. *)
Theorem generateInsightsHandler_response (videoId : jsstring) (w : World) :
  exists (response : Response) (w' : World),
    handler videoId w = (Normal response, w') /\
    match Video_findOne videoId w with
    | (Throw error, _) => response = mkResponse 500 (Failed error)
    | (Normal None, _) => response = mkResponse 404 (NotFound (str "Video not found"))
    | (Normal (Some _), w1) =>
        match youtube_videos_list videoId w1 with
        | (Normal (Some (item :: _)), _) =>
            exists report,
              response = mkResponse 200 (ReportGenerated report) /\
              r_videoId report = videoId /\ r_title report = snippet_title item
        | _ => response = mkResponse 400 (Failed (str "Video not found"))
        end
    end.
Proof.
  unfold generateInsightsHandler, try_catch, bind.
  destruct (Video_findOne videoId w) as [[[existing|]|error] w1];
    try (do 2 eexists; split; reflexivity).
  pose proof (getVideoDetails_cases toLowerCase youtube_videos_list videoId w1) as Hd.
  destruct (youtube_videos_list videoId w1) as [[[[|item items]|]|e] w2];
    try (unfold generateAdInsightsReport, try_catch, bind; rewrite Hd;
         do 2 eexists; split; reflexivity).
  destruct Hd as (videoData & Hd & Ht & _).
  destruct (@generateAdInsightsReport_found World toLowerCase tokenize getSentiment
              youtube_videos_list youtube_commentThreads_list model_generateContent
              Video_findOneAndUpdate clock _ _ _ _ Hd)
    as (report & w' & Hr & R1 & R2 & _).
  rewrite Hr. unfold ret. do 2 eexists. split; [reflexivity|].
  exists report. rewrite R2, Ht. now repeat split.
Qed.

End InsightRoutesFurther.

Section FetchRoutesFurther.

Variable World : Type.
Variable toLowerCase : jsstring -> jsstring.
Variable youtube_videos_list : jsstring -> M World (option (list VideoItem)).
Variable youtube_channels_list : jsstring -> M World (option (list ChannelItem)).
Variable youtube_playlistItems_list : jsstring -> Z -> M World (option (list ListedItem)).
Variable youtube_search_list : jsstring -> Z -> M World (option (list ListedItem)).
Variable Video_findOne : jsstring -> M World (option StoredVideo).
Variable Video_create : FetchedVideo -> M World unit.
Variable Video_findOneAndUpdate : jsstring -> FetchedVideo -> M World unit.

Lemma fetchAllVideos_normal :
  normal (fetchAllVideos toLowerCase youtube_videos_list youtube_channels_list
            youtube_playlistItems_list youtube_search_list Video_findOne Video_create
            Video_findOneAndUpdate).
Proof. apply try_catch_normal. intros e. apply ret_normal. Qed.

Lemma fetchVideosFromChannel_normal (channelId : jsstring) (maxResults : Z) :
  normal (fetchVideosFromChannel toLowerCase youtube_videos_list youtube_channels_list
            youtube_playlistItems_list channelId maxResults).
Proof. apply try_catch_normal. intros e. apply ret_normal. Qed.

Lemma searchVideos_normal (keyword : jsstring) (maxResults : Z) :
  normal (searchVideos toLowerCase youtube_videos_list youtube_search_list keyword
            maxResults).
Proof. apply try_catch_normal. intros e. apply ret_normal. Qed.

(** X27. The three handlers that fetch always answer 200 with
    [success: true] and a count, never 500; when the first call of the
    platform fails, the count is 0. *)
Theorem fetch_handlers_always_succeed (channelId keyword : jsstring)
  (maxResults : option jsstring) (w : World) :
  (exists n w',
     fetchNowHandler toLowerCase youtube_videos_list youtube_channels_list
       youtube_playlistItems_list youtube_search_list Video_findOne Video_create
       Video_findOneAndUpdate w
     = (Normal (mkResponse 200 (VideosFetched n)), w')) /\
  (exists n w',
     fetchChannelHandler toLowerCase youtube_videos_list youtube_channels_list
       youtube_playlistItems_list channelId maxResults w
     = (Normal (mkResponse 200 (ChannelFetched channelId n)), w') /\
     match youtube_channels_list channelId w with
     | (Throw _, _) => n = 0%nat
     | _ => True
     end) /\
  (exists n w',
     fetchSearchHandler toLowerCase youtube_videos_list youtube_search_list
       keyword maxResults w
     = (Normal (mkResponse 200 (SearchFetched keyword n)), w') /\
     match youtube_search_list keyword (queryMaxResults maxResults 50) w with
     | (Throw _, _) => n = 0%nat
     | _ => True
     end).
Proof.
  split; [|split].
  - unfold fetchNowHandler, try_catch, bind.
    destruct (fetchAllVideos_normal w) as (videos & w' & H). rewrite H.
    now exists (length videos), w'.
  - unfold fetchChannelHandler, try_catch, bind. cbv zeta.
    destruct (fetchVideosFromChannel_normal channelId (queryMaxResults maxResults 50) w)
      as (videos & w' & H). rewrite H.
    exists (length videos), w'. split; [reflexivity|].
    revert H. unfold fetchVideosFromChannel, try_catch, bind.
    destruct (youtube_channels_list channelId w) as [[r|error] w1]; [trivial|].
    unfold ret. intros H. injection H as <- _. reflexivity.
  - unfold fetchSearchHandler, try_catch, bind. cbv zeta.
    destruct (searchVideos_normal keyword (queryMaxResults maxResults 50) w)
      as (videos & w' & H). rewrite H.
    exists (length videos), w'. split; [reflexivity|].
    revert H. unfold searchVideos, try_catch, bind.
    destruct (youtube_search_list keyword (queryMaxResults maxResults 50) w)
      as [[r|error] w1]; [trivial|].
    unfold ret. intros H. injection H as <- _. reflexivity.
Qed.

End FetchRoutesFurther.

Section CommentRoutesFurther.

Variable World : Type.
Variable toLowerCase : jsstring -> jsstring.
Variable youtube_commentThreads_list : jsstring -> Z -> M World (option (list CommentThread)).
Variable Video_findOne : jsstring -> M World (option StoredVideo).
Variable Comment_findOneAndUpdate : jsstring -> SavedComment -> M World unit.
Variable Video_findOneAndUpdate : jsstring -> nat -> list RecentComment -> M World unit.

(** The function of the service is the one of the pipeline, which leaves
    [maxResults] to its default. *)
Lemma getVideoCommentsUpTo_default (videoId : jsstring)
  (list : jsstring -> nat -> M World (option (list CommentThread))) :
  getVideoComments list videoId
  = getVideoCommentsUpTo (fun id n => list id (Z.to_nat n)) videoId 100.
Proof. reflexivity. Qed.

(** X28. The response of [POST /api/videos/:videoId/refresh-comments]:
    500 when the lookup in the store fails, 404 when the store has no such
    video, 200 with the count 0 when the platform gives no comment or
    fails. When the platform gives comments, the handler reads
    [youtubeService.tokenizer], which the service does not export, and
    answers 500 with the message of the TypeError before anything is
    stored: it never answers that comments were refreshed. *)
Theorem refreshCommentsHandler_response (videoId : jsstring) (maxResults : option jsstring)
  (w : World) :
  exists (response : Response) (w' : World),
    refreshCommentsHandler toLowerCase youtube_commentThreads_list Video_findOne
      Comment_findOneAndUpdate Video_findOneAndUpdate videoId maxResults w
    = (Normal response, w') /\
    match Video_findOne videoId w with
    | (Throw error, w1) => response = mkResponse 500 (Failed error) /\ w' = w1
    | (Normal None, w1) =>
        response = mkResponse 404 (NotFound (str "Video not found")) /\ w' = w1
    | (Normal (Some _), w1) =>
        match youtube_commentThreads_list videoId (queryMaxResults maxResults 100) w1 with
        | (Normal (Some (_ :: _)), w2) =>
            response
            = mkResponse 500
                (Failed (str "Cannot read properties of undefined (reading 'tokenize')")) /\
            w' = w2
        | (_, w2) => response = mkResponse 200 NoComments /\ w' = w2
        end
    end.
Proof.
  unfold refreshCommentsHandler, try_catch, bind. cbv zeta.
  destruct (Video_findOne videoId w) as [[[existing|]|error] w1];
    try (do 2 eexists; split; [reflexivity | split; reflexivity]).
  unfold getVideoCommentsUpTo, try_catch, bind.
  destruct (youtube_commentThreads_list videoId (queryMaxResults maxResults 100) w1)
    as [[[[|item items]|]|e] w2];
    do 2 eexists; (split; [reflexivity | split; reflexivity]).
Qed.

End CommentRoutesFurther.

(** ** Further witnesses *)

Lemma extractBrands_shape_witness :
  str "Acme" <> [] /\ forallb is_alnum (str "Acme") = true /\
  (brandRegex_test (str "Acme") = true \/
   exists (sp : jsstring) (mk : codeunit),
     forallb is_space sp = true /\ is_mark mk = true /\
     includes (str "Thanks to Acme for this") (str "Acme" ++ sp ++ [mk]) = true).
Proof.
  apply (@extractBrands_shape (str "Thanks to Acme for this") (str "Acme")).
  vm_compute. right. left. reflexivity.
Defined.

Lemma resolveAdStyle_cases_witness :
  resolveAdStyle toLowerCase_basic
    (detectSponsorship toLowerCase_basic (val (str "5:00 - 7:30 ad")) TagsNull)
    (str "a short-form read")
  = str "Long-form".
Proof.
  apply (proj1 (proj2 (resolveAdStyle_cases toLowerCase_basic
                         (detectSponsorship toLowerCase_basic
                            (val (str "5:00 - 7:30 ad")) TagsNull)
                         (str "a short-form read"))) eq_refl 150%Z eq_refl).
  discriminate.
Defined.
